(** * ROG CO-OP minesweeper: board engine, client session and relay

    A shallow embedding of the client component (the [App] function with
    its handlers [initBoard], [startGame], [revealCell], [checkWin],
    [handleCellClick], [handleRightClick], [emitState], the socket
    listeners and the display helpers [getCellContent] and
    [getNumberColor]) and of the relay ([server.ts]), followed by the
    properties established about them, one by one and wired together.

    Conventions of the embedding.
    - JavaScript numbers used as coordinates and counters are integers [Z].
    - An array is a [list]; [a[i]] is [jsIndex a i], which is [None]
      ([undefined]) outside [0 .. length-1].  Reading a property of
      [undefined] throws: the result [TypeError].
    - React state ([board], [status], [minesLeft], [seconds], [difficulty])
      lives in the record [App]; a handler reads the values captured by its
      closure (the record as it was in the render that created the handler,
      called [env]) and writes through the setters.
    - [Math.random] is a list [rand] of the successive pairs
      [(Math.floor(Math.random() * rows), Math.floor(Math.random() * cols))];
      running out of pairs, like running out of recursion fuel, is
      [Diverge]. *)

From stdpp Require Import gmap strings list fin_maps.
From Stdlib Require Import ZArith Lia.

Local Open Scope Z_scope.

(** ** Data model *)

Inductive Difficulty := beginner | intermediate | expert.

Record GameConfig := mkConfig { rows : Z; cols : Z; mines : Z }.

Definition CONFIGS (d : Difficulty) : GameConfig :=
  match d with
  | beginner => mkConfig 9 9 10
  | intermediate => mkConfig 16 16 40
  | expert => mkConfig 16 30 99
  end.

Record Cell := mkCell {
  isMine : bool;
  isRevealed : bool;
  isFlagged : bool;
  neighborMines : Z
}.

Inductive GameStatus := idle | playing | won | lost.

Abbreviation Board := (list (list Cell)).

#[global] Instance Difficulty_eq_dec : EqDecision Difficulty.
Proof. solve_decision. Defined.
#[global] Instance GameStatus_eq_dec : EqDecision GameStatus.
Proof. solve_decision. Defined.
#[global] Instance Cell_eq_dec : EqDecision Cell.
Proof. solve_decision. Defined.

(** The object sent with [update-state] and received with [sync-state]. *)
Record SessionState := mkSessionState {
  st_board : Board;
  st_status : GameStatus;
  st_minesLeft : Z;
  st_seconds : Z;
  st_difficulty : Difficulty
}.

(** What the client hands to [socket.emit]. *)
Inductive ClientMsg :=
| JoinRoom (room : string)
| UpdateState (room : string) (state : SessionState)
| CellClick (room : string) (r c : Z)
| CellFlag (room : string) (r c : Z)
| ResetGame (room : string).

(** The component's state: the React state variables, the two refs
    ([socketRef.current] is non-null when [socket] holds), the [setTimeout]
    callbacks of the [sync-state] listener still pending, and the log of
    everything emitted on the socket, oldest first. *)
Record App := mkApp {
  difficulty : Difficulty;
  board : Board;
  status : GameStatus;
  minesLeft : Z;
  seconds : Z;
  roomId : string;
  socket : bool;
  isRemoteUpdate : bool;
  timers : nat;
  sent : list ClientMsg
}.

(** ** Results and the handler monad *)

Inductive Res (A : Type) :=
| Ok (a : A)
| TypeError
| Diverge.
Arguments Ok {A} a.
Arguments TypeError {A}.
Arguments Diverge {A}.

#[global] Instance Res_ret : MRet Res := λ A a, Ok a.
#[global] Instance Res_bind : MBind Res := λ A B f m,
  match m with
  | Ok a => f a
  | TypeError => TypeError
  | Diverge => Diverge
  end.

(** A handler transforms the component state and returns, throws or
    diverges; what it did before throwing stays done. *)
Definition M (A : Type) : Type := App → App * Res A.

#[global] Instance M_ret : MRet M := λ A a s, (s, Ok a).
#[global] Instance M_bind : MBind M := λ A B f m s,
  match m s with
  | (s', Ok a) => f a s'
  | (s', TypeError) => (s', TypeError)
  | (s', Diverge) => (s', Diverge)
  end.

Definition liftRes {A} (x : Res A) : M A := λ s, (s, x).

(** [undefined.prop] throws. *)
Definition defined {A} (x : option A) : Res A :=
  match x with
  | Some a => Ok a
  | None => TypeError
  end.

(** A [for] loop over the values [l], threading the loop state. *)
Fixpoint forEachM {F : Type → Type} `{!MBind F, !MRet F} {A S : Type}
    (l : list A) (body : S → A → F S) (s : S) : F S :=
  match l with
  | [] => mret s
  | x :: l' => s' ← body s x; forEachM l' body s'
  end.

(** ** Arrays and boards *)

Definition jsIndex {A} (l : list A) (i : Z) : option A :=
  if decide (0 ≤ i) then l !! Z.to_nat i else None.

Definition len {A} (l : list A) : Z := Z.of_nat (length l).

(** [b[r][c]]: [None] when [b[r]] or [b[r][c]] is [undefined]. *)
Definition getCell (b : Board) (r c : Z) : option Cell :=
  row ← jsIndex b r; jsIndex row c.

(** [b[r][c] = f(b[r][c])], used on positions already read. *)
Definition updCell (f : Cell → Cell) (b : Board) (r c : Z) : Board :=
  alter (alter f (Z.to_nat c)) (Z.to_nat r) b.

Definition setIsMine (x : Cell) : Cell :=
  mkCell true (isRevealed x) (isFlagged x) (neighborMines x).
Definition setIsRevealed (x : Cell) : Cell :=
  mkCell (isMine x) true (isFlagged x) (neighborMines x).
Definition toggleIsFlagged (x : Cell) : Cell :=
  mkCell (isMine x) (isRevealed x) (negb (isFlagged x)) (neighborMines x).
Definition setNeighborMines (n : Z) (x : Cell) : Cell :=
  mkCell (isMine x) (isRevealed x) (isFlagged x) n.

Definition blankCell : Cell := mkCell false false false 0.

(** [Array(rows).fill(null).map(() => Array(cols).fill(null).map(...))] *)
Definition blankBoard (config : GameConfig) : Board :=
  replicate (Z.to_nat (rows config)) (replicate (Z.to_nat (cols config)) blankCell).

(** The loop bounds [-1, 0, 1] of [dr] and [dc]. *)
Definition offsets : list Z := [-1; 0; 1].
Arguments offsets : simpl never.

(** ** Setters and the socket *)

Definition render : M App := λ s, (s, Ok s).

Definition setBoard (b : Board) : M unit := λ s,
  (mkApp (difficulty s) b (status s) (minesLeft s) (seconds s) (roomId s)
         (socket s) (isRemoteUpdate s) (timers s) (sent s), Ok tt).
Definition setStatus (x : GameStatus) : M unit := λ s,
  (mkApp (difficulty s) (board s) x (minesLeft s) (seconds s) (roomId s)
         (socket s) (isRemoteUpdate s) (timers s) (sent s), Ok tt).
Definition setMinesLeft (n : Z) : M unit := λ s,
  (mkApp (difficulty s) (board s) (status s) n (seconds s) (roomId s)
         (socket s) (isRemoteUpdate s) (timers s) (sent s), Ok tt).
Definition setSeconds (n : Z) : M unit := λ s,
  (mkApp (difficulty s) (board s) (status s) (minesLeft s) n (roomId s)
         (socket s) (isRemoteUpdate s) (timers s) (sent s), Ok tt).
Definition setDifficulty (d : Difficulty) : M unit := λ s,
  (mkApp d (board s) (status s) (minesLeft s) (seconds s) (roomId s)
         (socket s) (isRemoteUpdate s) (timers s) (sent s), Ok tt).
Definition setIsRemoteUpdate (x : bool) : M unit := λ s,
  (mkApp (difficulty s) (board s) (status s) (minesLeft s) (seconds s) (roomId s)
         (socket s) x (timers s) (sent s), Ok tt).
Definition setTimers (n : nat) : M unit := λ s,
  (mkApp (difficulty s) (board s) (status s) (minesLeft s) (seconds s) (roomId s)
         (socket s) (isRemoteUpdate s) n (sent s), Ok tt).
Definition setSocket (x : bool) : M unit := λ s,
  (mkApp (difficulty s) (board s) (status s) (minesLeft s) (seconds s) (roomId s)
         x (isRemoteUpdate s) (timers s) (sent s), Ok tt).

(** [socketRef.current?.emit(...)] *)
Definition socketEmit (m : ClientMsg) : M unit := λ s,
  if socket s then
    (mkApp (difficulty s) (board s) (status s) (minesLeft s) (seconds s) (roomId s)
           (socket s) (isRemoteUpdate s) (timers s) (sent s ++ [m]), Ok tt)
  else (s, Ok tt).

Definition when (b : bool) (m : M unit) : M unit :=
  if b then m else mret tt.

(** ** The handlers *)

Definition emitState (env : App) (newBoard : Board) (newStatus : GameStatus)
    (newMinesLeft newSeconds : Z) (newDifficulty : Difficulty) : M unit := λ s,
  if isRemoteUpdate s then (s, Ok tt)
  else socketEmit (UpdateState (roomId env)
         (mkSessionState newBoard newStatus newMinesLeft newSeconds newDifficulty)) s.

Definition initBoard (env : App) (config : GameConfig) (remote : bool) : M unit :=
  let newBoard := blankBoard config in
  setBoard newBoard;;
  setStatus idle;;
  setMinesLeft (mines config);;
  setSeconds 0;;
  when (negb remote)
    (socketEmit (ResetGame (roomId env));;
     emitState env newBoard idle (mines config) 0 (difficulty env)).

(** [currentBoard.forEach(row => row.forEach(cell => ...))] counting the
    revealed cells.  The confetti of [checkWin] is not modelled. *)
Definition revealedCount (currentBoard : Board) : Z :=
  foldl (λ n row, foldl (λ n cell, if isRevealed cell then n + 1 else n) n row)
        0 currentBoard.

Definition checkWin (env : App) (currentBoard : Board) : M unit :=
  let config := CONFIGS (difficulty env) in
  if decide (revealedCount currentBoard = rows config * cols config - mines config) then
    setStatus won;;
    emitState env currentBoard won (minesLeft env) (seconds env) (difficulty env)
  else
    emitState env currentBoard
      (if decide (status env = idle) then playing else status env)
      (minesLeft env) (seconds env) (difficulty env).

(** [currentBoard.forEach(row => row.forEach(cell => { if (cell.isMine)
    cell.isRevealed = true; }))] *)
Definition revealMines (currentBoard : Board) : Board :=
  (λ row : list Cell,
     (λ cell, if isMine cell then setIsRevealed cell else cell) <$> row)
    <$> currentBoard.

(** [revealCell], with the depth of the recursion bounded by [fuel].  The
    board is mutated in place in the source; here it is threaded and
    returned.  [Diverge] propagates: a run that does not end in [Diverge]
    never ran out of fuel, and is the run of the source.  A run that
    throws returns no board: the source throws only on a board that is not
    a grid, after it has marked cells revealed in place, and those marks
    are not kept here. *)
Fixpoint revealCell_fuel (fuel : nat) (env : App) (r c : Z)
    (currentBoard : Board) (currentStatus : GameStatus) : M Board :=
  match fuel with
  | O => liftRes Diverge
  | S fuel' =>
    if decide (r < 0 ∨ r >= len currentBoard) then mret currentBoard else
    row0 ← liftRes (defined (jsIndex currentBoard 0));
    if decide (c < 0 ∨ c >= len row0) then mret currentBoard else
    cell ← liftRes (defined (getCell currentBoard r c));
    if isRevealed cell || isFlagged cell then mret currentBoard else
    let currentBoard := updCell setIsRevealed currentBoard r c in
    if isMine cell then
      setStatus lost;;
      let currentBoard := revealMines currentBoard in
      emitState env currentBoard lost (minesLeft env) (seconds env) (difficulty env);;
      mret currentBoard
    else
      currentBoard ←
        (if decide (neighborMines cell = 0) then
           forEachM offsets (λ b dr,
             forEachM offsets (λ b dc,
               revealCell_fuel fuel' env (r + dr) (c + dc) b currentStatus) b)
             currentBoard
         else mret currentBoard);
      setBoard currentBoard;;
      checkWin env currentBoard;;
      mret currentBoard
  end.

(** Number of cells not yet revealed: it bounds the recursion depth. *)
Definition unrevealedCount (b : Board) : nat :=
  sum_list_with (sum_list_with (λ x, if isRevealed x then 0 else 1)%nat) b.

Definition revealCell (env : App) (r c : Z)
    (currentBoard : Board) (currentStatus : GameStatus) : M Board :=
  revealCell_fuel (S (unrevealedCount currentBoard)) env r c currentBoard currentStatus.

(** The rejection-sampling loop of [startGame]. *)
Fixpoint placeMines (config : GameConfig) (firstRow firstCol : Z)
    (rand : list (Z * Z)) (newBoard : Board) (minesPlaced : Z) : Res Board :=
  if decide (minesPlaced < mines config) then
    match rand with
    | [] => Diverge
    | (r, c) :: rand' =>
      cell ← defined (getCell newBoard r c);
      if negb (isMine cell)
         && (negb (bool_decide (r = firstRow)) || negb (bool_decide (c = firstCol)))
      then placeMines config firstRow firstCol rand'
             (updCell setIsMine newBoard r c) (minesPlaced + 1)
      else placeMines config firstRow firstCol rand' newBoard minesPlaced
    end
  else Ok newBoard.

(** The inner two loops of [startGame]: the count for the cell [(r, c)]. *)
Definition countAround (config : GameConfig) (newBoard : Board) (r c : Z) : Res Z :=
  forEachM offsets (λ count dr,
    forEachM offsets (λ count dc,
      let nr := r + dr in
      let nc := c + dc in
      if decide (nr >= 0 ∧ nr < rows config ∧ nc >= 0 ∧ nc < cols config) then
        cell ← defined (getCell newBoard nr nc);
        mret (if isMine cell then count + 1 else count)
      else mret count) count) 0.

(** The outer two loops of [startGame]. *)
Definition fillNeighborMines (config : GameConfig) (newBoard : Board) : Res Board :=
  forEachM (seqZ 0 (rows config)) (λ b r,
    forEachM (seqZ 0 (cols config)) (λ b c,
      cell ← defined (getCell b r c);
      if negb (isMine cell) then
        count ← countAround config b r c;
        mret (updCell (setNeighborMines count) b r c)
      else mret b) b) newBoard.

Definition startGame (env : App) (rand : list (Z * Z)) (firstRow firstCol : Z) : M unit :=
  let config := CONFIGS (difficulty env) in
  let newBoard := board env in
  newBoard ← liftRes (placeMines config firstRow firstCol rand newBoard 0);
  newBoard ← liftRes (fillNeighborMines config newBoard);
  setStatus playing;;
  revealCell env firstRow firstCol newBoard playing;;
  mret tt.

(** In the [else] branch the copy [[...board]] shares its rows with the
    closure's array.  For the handler of the latest render that array is
    the state's, so the cells [revealCell] mutates are the state's cells
    whether or not it reaches [setBoard]: the final [setBoard] below is that
    aliasing. *)
Definition handleCellClick (env : App) (rand : list (Z * Z)) (r c : Z)
    (remote : bool) : M unit :=
  if decide (status env = won ∨ status env = lost) then mret tt else
  when (negb remote) (socketEmit (CellClick (roomId env) r c));;
  if decide (status env = idle) then
    startGame env rand r c
  else
    let newBoard := board env in
    newBoard ← revealCell env r c newBoard (status env);
    setBoard newBoard.

(** The event argument [e] only serves [preventDefault] and is left out. *)
Definition handleRightClick (env : App) (r c : Z) (remote : bool) : M unit :=
  if decide (status env = idle ∨ status env = won ∨ status env = lost) then mret tt else
  cell ← liftRes (defined (getCell (board env) r c));
  if isRevealed cell then mret tt else
  when (negb remote) (socketEmit (CellFlag (roomId env) r c));;
  let newBoard := updCell toggleIsFlagged (board env) r c in
  let newMinesLeft :=
    if negb (isFlagged cell) then minesLeft env - 1 else minesLeft env + 1 in
  setMinesLeft newMinesLeft;;
  setBoard newBoard;;
  emitState env newBoard (status env) newMinesLeft (seconds env) (difficulty env).

(** The [sync-state] listener and the callback it schedules. *)
Definition onSyncState (state : SessionState) : M unit :=
  setIsRemoteUpdate true;;
  setBoard (st_board state);;
  setStatus (st_status state);;
  setMinesLeft (st_minesLeft state);;
  setSeconds (st_seconds state);;
  setDifficulty (st_difficulty state);;
  s ← render;
  setTimers (S (timers s)).

Definition onTimeout : M unit :=
  s ← render;
  match timers s with
  | O => mret tt
  | S n => setTimers n;; setIsRemoteUpdate false
  end.

(** The effect on [roomId]: [socketRef.current = socket] and
    [socket.emit('join-room', roomId)]. *)
Definition onConnect (env : App) : M unit :=
  setSocket true;;
  socketEmit (JoinRoom (roomId env)).

(** The callback of [setInterval]: [setSeconds((s) => s + 1)]. *)
Definition onTick : M unit :=
  s ← render;
  setSeconds (seconds s + 1).

(** ** The callbacks

    One callback runs at a time, to its end; one that throws leaves the
    component with what it had done so far.  A handler is a closure: its
    [env] is the React state of the render that created it.  A click on the
    grid runs the handler of the latest render, whose [env] is the current
    state.  The socket listeners are registered once, by the effect on
    [roomId], and go on calling the handlers of the render in which it
    ran.  A call therefore names its [env]. *)

Inductive Call :=
| CellClicked (env : App) (rand : list (Z * Z)) (r c : Z) (remote : bool)
| CellFlagged (env : App) (r c : Z) (remote : bool)
| BoardReset (env : App) (config : GameConfig) (remote : bool)
| DifficultySelected (env : App) (d : Difficulty)
| StateSynced (state : SessionState)
| TimeoutFired
| Connected (env : App)
| SecondElapsed.

Definition invoke (k : Call) : M unit :=
  match k with
  | CellClicked env rand r c remote => handleCellClick env rand r c remote
  | CellFlagged env r c remote => handleRightClick env r c remote
  | BoardReset env config remote => initBoard env config remote
  | DifficultySelected env d => setDifficulty d;; initBoard env (CONFIGS d) false
  | StateSynced state => onSyncState state
  | TimeoutFired => onTimeout
  | Connected env => onConnect env
  | SecondElapsed => onTick
  end.

Definition runCalls (ks : list Call) (s : App) : App :=
  foldl (λ s k, (invoke k s).1) s ks.

Definition isTimeout (k : Call) : bool :=
  match k with TimeoutFired => true | _ => false end.

(** Right clicks on the grid, one after the other, each handled by the
    handler of the latest render. *)
Definition runFlags (l : list (Z * Z)) (s : App) : App :=
  foldl (λ s p, (handleRightClick s p.1 p.2 false s).1) s l.

Definition isUpdateState (m : ClientMsg) : bool :=
  match m with UpdateState _ _ => true | _ => false end.

(** The [update-state] messages among those sent. *)
Definition updates (l : list ClientMsg) : list ClientMsg :=
  filter (λ m, isUpdateState m = true) l.

(** * The relay ([server.ts])

    [rooms] is the [Map] of the source.  [members] is socket.io's own
    bookkeeping, which the source only drives through [socket.join]: the
    sockets of each room.  socket.io also keeps every socket in a room
    named by its own id; no event below builds that room, and the
    statements are about an arbitrary [Server], which may hold it.  The payload of [update-state] is not inspected
    by the relay, so its type is a parameter. *)
Module Relay.
Section Relay.
Context {State : Type}.

Record Server := mkServer {
  rooms : gmap string State;
  members : gmap string (gset string)
}.

(** What a client sends, and what the relay sends to a client. *)
Inductive Incoming :=
| join_room (roomId : string)
| update_state (roomId : string) (state : State)
| cell_click (roomId : string) (r c : Z) (userId : option string)
| cell_flag (roomId : string) (r c : Z) (userId : option string)
| reset_game (roomId : string)
| disconnect.

Inductive Outgoing :=
| sync_state (state : State)
| remote_click (r c : Z) (userId : option string)
| remote_flag (r c : Z) (userId : option string)
| remote_reset.

Definition socketsIn (srv : Server) (roomId : string) : gset string :=
  default ∅ (members srv !! roomId).

(** [socket.join(roomId)] *)
Definition join (srv : Server) (socketId roomId : string) : Server :=
  mkServer (rooms srv)
    (<[roomId := {[socketId]} ∪ socketsIn srv roomId]> (members srv)).

(** [socket.to(roomId).emit(...)]: to every socket of the room but the
    sender; [socket.emit(...)]: to the sender alone. *)
Definition toRoom (srv : Server) (socketId roomId : string) (m : Outgoing)
    : list (string * Outgoing) :=
  (λ id, (id, m)) <$> elements (socketsIn srv roomId ∖ {[socketId]}).

Definition toSelf (socketId : string) (m : Outgoing) : list (string * Outgoing) :=
  [(socketId, m)].

(** The listeners registered for the socket [socketId]: the new server
    state and the messages delivered, each with its recipient. *)
Definition on (srv : Server) (socketId : string) (e : Incoming)
    : Server * list (string * Outgoing) :=
  match e with
  | join_room roomId =>
      let srv := join srv socketId roomId in
      (srv, match rooms srv !! roomId with
            | Some state => toSelf socketId (sync_state state)
            | None => []
            end)
  | update_state roomId state =>
      (mkServer (<[roomId := state]> (rooms srv)) (members srv),
       toRoom srv socketId roomId (sync_state state))
  | cell_click roomId r c userId =>
      (srv, toRoom srv socketId roomId (remote_click r c userId))
  | cell_flag roomId r c userId =>
      (srv, toRoom srv socketId roomId (remote_flag r c userId))
  | reset_game roomId =>
      (mkServer (delete roomId (rooms srv)) (members srv),
       toRoom srv socketId roomId remote_reset)
  | disconnect =>
      (* the listener only logs; socket.io takes the socket out of its rooms *)
      (mkServer (rooms srv) ((λ ids, ids ∖ {[socketId]}) <$> members srv), [])
  end.

End Relay.
Arguments Server : clear implicits.
Arguments Incoming : clear implicits.
Arguments Outgoing : clear implicits.
End Relay.

(** * Display helpers and the wiring of client and relay *)

(** What [getCellContent] renders: the flag icon, the bomb icon, the count,
    or nothing ([null]). *)
Inductive CellContent :=
| ShowFlag
| ShowBomb
| ShowNumber (n : Z)
| ShowNothing.

Definition getCellContent (cell : Cell) : CellContent :=
  if isFlagged cell then ShowFlag else
  if negb (isRevealed cell) then ShowNothing else
  if isMine cell then ShowBomb else
  if decide (neighborMines cell > 0) then ShowNumber (neighborMines cell)
  else ShowNothing.

(** The table of [getNumberColor]. *)
Definition colors : list string :=
  [EmptyString; "text-blue-400"; "text-emerald-400"; "text-rose-500";
   "text-violet-400"; "text-amber-400"; "text-cyan-400";
   "text-white"; "text-zinc-500"].

(** [colors[num] || 'text-white']: the empty string and [undefined] are
    falsy. *)
Definition getNumberColor (num : Z) : string :=
  match jsIndex colors num with
  | Some color => if decide (color = EmptyString) then "text-white" else color
  | None => "text-white"
  end.

(** What [socket.emit] of the client becomes at the relay.  The client
    sends no [userId], so the relay destructures [undefined]. *)
Definition toRelay (m : ClientMsg) : Relay.Incoming SessionState :=
  match m with
  | JoinRoom room => Relay.join_room room
  | UpdateState room state => Relay.update_state room state
  | CellClick room r c => Relay.cell_click room r c None
  | CellFlag room r c => Relay.cell_flag room r c None
  | ResetGame room => Relay.reset_game room
  end.

(** The listeners the effect on [roomId] registers, run on a message from
    the relay; [env] is the state of the render in which it ran. *)
Definition onMessage (env : App) (rand : list (Z * Z))
    (m : Relay.Outgoing SessionState) : M unit :=
  match m with
  | Relay.sync_state state => onSyncState state
  | Relay.remote_click r c _ => handleCellClick env rand r c true
  | Relay.remote_flag r c _ => handleRightClick env r c true
  | Relay.remote_reset => initBoard env (CONFIGS (difficulty env)) true
  end.

(** The [span] drawn in a cell: its class and its content. *)
Definition cellSpan (cell : Cell) : string * CellContent :=
  (getNumberColor (neighborMines cell), getCellContent cell).

(** ** Mounting

    [useState] and [useRef] give the first render its state.  The effects
    that follow it run in the order they are declared: the room effect
    stores [room], the name it read from the URL or drew; the socket effect
    finds [roomId] still empty in its closure and returns; the board effect
    finds the board empty and calls [initBoard]; the timer effect finds
    the status idle and starts nothing.  The render that follows has
    [roomId] set, so that the socket effect runs, once, since [roomId] is
    its only dependency: it is this render's handlers that its listeners
    call from then on. *)

Definition setRoomId (x : string) : M unit := λ s,
  (mkApp (difficulty s) (board s) (status s) (minesLeft s) (seconds s) x
         (socket s) (isRemoteUpdate s) (timers s) (sent s), Ok tt).

Definition initialState : App :=
  mkApp beginner [] idle 0 0 EmptyString false false 0 [].

Definition onMount (room : string) : M unit :=
  let env := initialState in
  setRoomId room;;
  when (negb (bool_decide (roomId env = EmptyString))) (onConnect env);;
  when (bool_decide (len (board env) = 0))
    (initBoard env (CONFIGS (difficulty env)) false).

(** The state of the second render: the closure of the socket listeners. *)
Definition mounted (room : string) : App := (onMount room initialState).1.

(** * Vocabulary of the statements *)

(** ** Runs of a handler *)

(** A relation between the component's state before and after, kept by
    every step of a handler. *)
Definition preserves (R : App → App → Prop) {A} (m : M A) : Prop :=
  ∀ s, R s (m s).1.

(** Outcome of a run: a postcondition on the state and value returned, a
    condition under which throwing is allowed, and no divergence. *)
Definition sat {A} (x : App * Res A) (Q : App → A → Prop) (E : Prop) : Prop :=
  match x with
  | (s', Ok a) => Q s' a
  | (_, TypeError) => E
  | (_, Diverge) => False
  end.

(** A handler that always returns. *)
Definition returns {A} (m : M A) : Prop := ∀ s, ∃ s' a, m s = (s', Ok a).

(** While the echo guard is up it stays up and no [update-state] goes
    out. *)
Definition quiet (s s' : App) : Prop :=
  isRemoteUpdate s = true →
  isRemoteUpdate s' = true ∧ updates (sent s') = updates (sent s).

(** The counter of remaining mines is left alone. *)
Definition sameMinesLeft (s s' : App) : Prop := minesLeft s' = minesLeft s.

(** ** Reading a board *)

(** Readings of a position; all [false] outside the board. *)
Definition isRev (b : Board) (r c : Z) : bool :=
  match getCell b r c with Some x => isRevealed x | None => false end.
Definition isMineAt (b : Board) (r c : Z) : bool :=
  match getCell b r c with Some x => isMine x | None => false end.

(** An existing cell that is neither revealed nor flagged: what the guard
    of [revealCell] lets through on a grid. *)
Definition isOpen (b : Board) (r c : Z) : bool :=
  match getCell b r c with
  | Some x => negb (isRevealed x) && negb (isFlagged x)
  | None => false
  end.

(** An existing cell whose count is 0. *)
Definition isZero (b : Board) (r c : Z) : bool :=
  match getCell b r c with
  | Some x => bool_decide (neighborMines x = 0)
  | None => false
  end.

(** Every row is as long as the first one. *)
Definition rect (b : Board) : Prop :=
  Forall (λ row : list Cell, length row = length (default [] (head b))) b.

(** A grid with the dimensions of [config]. *)
Definition shape (config : GameConfig) (b : Board) : Prop :=
  length b = Z.to_nat (rows config)
  ∧ Forall (λ row : list Cell, length row = Z.to_nat (cols config)) b.

(** A position that [Math.floor(Math.random() * rows)] and
    [Math.floor(Math.random() * cols)] can give. *)
Definition inRange (config : GameConfig) (p : Z * Z) : Prop :=
  0 ≤ p.1 < rows config ∧ 0 ≤ p.2 < cols config.

(** [(r', c')] is [(r + dr, c + dc)] for some [dr] and [dc] in [-1 .. 1]. *)
Definition adj (r c r' c' : Z) : Prop :=
  -1 ≤ r' - r ≤ 1 ∧ -1 ≤ c' - c ≤ 1.

(** The nine pairs [(dr, dc)] in the order the two loops take them, and
    the eight of them that are neighbours. *)
Definition nbrs : list (Z * Z) := dr ← offsets; (λ dc, (dr, dc)) <$> offsets.
Definition neighbours8 : list (Z * Z) :=
  [(-1, -1); (-1, 0); (-1, 1); (0, -1); (0, 1); (1, -1); (1, 0); (1, 1)].

(** The positions the two outer loops of [startGame] visit, in order. *)
Definition cellsOf (config : GameConfig) : list (Z * Z) :=
  r ← seqZ 0 (rows config); (λ c, (r, c)) <$> seqZ 0 (cols config).

(** ** Boards related cell by cell *)

(** Cell by cell the relation [P], on boards of the same shape. *)
Definition boardRel (P : Cell → Cell → Prop) (b b' : Board) : Prop :=
  Forall2 (Forall2 P) b b'.

(** [y] is [x] except that it may have become revealed. *)
Definition cellExt (x y : Cell) : Prop :=
  isMine y = isMine x ∧ isFlagged y = isFlagged x
  ∧ neighborMines y = neighborMines x
  ∧ (isRevealed x = true → isRevealed y = true).

(** What [revealCell] may do to a board. *)
Definition ext (b b' : Board) : Prop := boardRel cellExt b b'.

(** What the placement loop may change, and what the counting loops may. *)
Definition mineExt (x y : Cell) : Prop :=
  isRevealed y = isRevealed x ∧ isFlagged y = isFlagged x
  ∧ neighborMines y = neighborMines x ∧ (isMine x = true → isMine y = true).
Definition countExt (x y : Cell) : Prop :=
  isMine y = isMine x ∧ isRevealed y = isRevealed x ∧ isFlagged y = isFlagged x.

(** Cells that differ at most in their flag. *)
Definition sameButFlag (x y : Cell) : Prop :=
  isMine y = isMine x ∧ isRevealed y = isRevealed x
  ∧ neighborMines y = neighborMines x.

(** ** Counting *)

(** The numbers of cells, and of revealed cells, mines and flags. *)
Definition cellCount (b : Board) : nat := sum_list_with length b.
Definition countRevealed (b : Board) : nat :=
  sum_list_with (sum_list_with (λ x, if isRevealed x then 1 else 0)%nat) b.
Definition countMines (b : Board) : nat :=
  sum_list_with (sum_list_with (λ x, if isMine x then 1 else 0)%nat) b.
Definition countFlags (b : Board) : nat :=
  sum_list_with (sum_list_with (λ x, if isFlagged x then 1 else 0)%nat) b.

(** 1 when the cell at the offset [p] from [(r, c)] is a mine. *)
Definition mineBit (b : Board) (r c : Z) (p : Z * Z) : Z :=
  if isMineAt b (r + p.1) (c + p.2) then 1 else 0.

(** The brute-force count: the mines among the neighbours of [(r, c)] that
    exist. *)
Definition bruteCount (b : Board) (r c : Z) : Z :=
  Z.of_nat (length (filter (λ p, isMineAt b (r + p.1) (c + p.2) = true) neighbours8)).

(** Invariant of the counting loops of [startGame] after the positions
    [pre]; [b1] is the board when they start. *)
Definition fillInv (b1 : Board) (pre : list (Z * Z)) (bi : Board) : Prop :=
  boardRel countExt b1 bi
  ∧ ∀ r c x y, getCell b1 r c = Some x → getCell bi r c = Some y →
      neighborMines y =
        if bool_decide ((r, c) ∈ pre) && negb (isMine x)
        then bruteCount b1 r c else neighborMines x.

(** ** The flood *)

(** What one call of [revealCell] does after its guard, with the two loops
    over [offsets] as one loop over [nbrs]: the mine branch or the flood. *)
Definition revealBody (fuel : nat) (env : App) (r c : Z) (x : Cell)
    (b1 : Board) (st : GameStatus) : M Board :=
  if isMine x then
    setStatus lost;;
    emitState env (revealMines b1) lost (minesLeft env) (seconds env) (difficulty env);;
    mret (revealMines b1)
  else
    b2 ← (if decide (neighborMines x = 0) then
            forEachM nbrs (λ b p, revealCell_fuel fuel env (r + p.1) (c + p.2) b st) b1
          else mret b1);
    setBoard b2;; checkWin env b2;; mret b2.

(** The cells the flood started at [(r0, c0)] gets to: those linked to it
    by a chain of adjacent cells, all neither revealed nor flagged and all
    but the last of count 0. *)
Inductive Reach (b : Board) (r0 c0 : Z) : Z → Z → Prop :=
| Reach_start : isOpen b r0 c0 = true → Reach b r0 c0 r0 c0
| Reach_step r c r' c' :
    Reach b r0 c0 r c → isZero b r c = true → adj r c r' c' →
    isOpen b r' c' = true → Reach b r0 c0 r' c'.

(** The spec's connected zero-region of [(r0, c0)]: the cells with count 0
    linked to it by a chain of adjacent cells with count 0. *)
Inductive ZeroRegion (b : Board) (r0 c0 : Z) : Z → Z → Prop :=
| ZeroRegion_start : isZero b r0 c0 = true → ZeroRegion b r0 c0 r0 c0
| ZeroRegion_step r c r' c' :
    ZeroRegion b r0 c0 r c → adj r c r' c' → isZero b r' c' = true →
    ZeroRegion b r0 c0 r' c'.

(** No safe cell of count 0 has a mine next to it, as on the boards
    [startGame] makes. *)
Definition consistent (b : Board) : Prop :=
  ∀ r c r' c', isMineAt b r c = false → isZero b r c = true →
    adj r c r' c' → isMineAt b r' c' = false.

(** What a call of [revealCell] at [(r, c)] on the board [b] achieves. *)
Definition floodPost (b : Board) (r c : Z) (s s' : App) (b' : Board) : Prop :=
  ext b b'
  ∧ (∀ r' c', isRev b' r' c' = true → isRev b r' c' = true ∨ Reach b r c r' c')
  ∧ (isOpen b r c = true → isRev b' r c = true)
  ∧ (∀ r1 c1 r2 c2, isRev b' r1 c1 = true → isRev b r1 c1 = false →
       isZero b r1 c1 = true → adj r1 c1 r2 c2 → isOpen b r2 c2 = true →
       isRev b' r2 c2 = true)
  ∧ socket s' = socket s ∧ isRemoteUpdate s' = isRemoteUpdate s
  ∧ (socket s = true → isRemoteUpdate s = false →
     (length (sent s') + unrevealedCount b' = length (sent s) + unrevealedCount b)%nat).

(** The invariant of the loop over the neighbours of [(r, c)], after the
    offsets [pre]; [b1] and [s1] are the board and state when it starts. *)
Definition floodInv (b b1 : Board) (r c : Z) (s1 : App)
    (pre : list (Z * Z)) (bi : Board) (si : App) : Prop :=
  ext b1 bi
  ∧ (∀ r' c', isRev bi r' c' = true → isRev b r' c' = true ∨ Reach b r c r' c')
  ∧ (∀ r1 c1 r2 c2, isRev bi r1 c1 = true → isRev b r1 c1 = false →
       ¬ (r1 = r ∧ c1 = c) →
       isZero b r1 c1 = true → adj r1 c1 r2 c2 → isOpen b r2 c2 = true →
       isRev bi r2 c2 = true)
  ∧ (∀ p, p ∈ pre → isOpen b (r + p.1) (c + p.2) = true →
       isRev bi (r + p.1) (c + p.2) = true)
  ∧ socket si = socket s1 ∧ isRemoteUpdate si = isRemoteUpdate s1
  ∧ (socket s1 = true → isRemoteUpdate s1 = false →
     (length (sent si) + unrevealedCount bi = length (sent s1) + unrevealedCount b1)%nat).

(** ** Sample sessions *)

(** A connected component in the room ["room"], echo guard down, nothing
    sent yet. *)
Definition someApp (d : Difficulty) (b : Board) (x : GameStatus) : App :=
  mkApp d b x (mines (CONFIGS d)) 0 "room" true false 0 [].

(** The state [initBoard] leaves for the difficulty [d]. *)
Definition newSession (d : Difficulty) : App :=
  someApp d (blankBoard (CONFIGS d)) idle.

(** Ten picks for the beginner grid: the bottom row and the cell above
    its left end, with one repeated pick and one pick of the excluded
    cell among them. *)
Definition bottomRowPicks : list (Z * Z) :=
  [(8, 0); (8, 1); (8, 1); (0, 0); (8, 2); (8, 3); (8, 4); (8, 5); (8, 6);
   (8, 7); (8, 8); (7, 0)].

(** Ten picks that put three mines around the corner [(0, 0)]. *)
Definition cornerPicks : list (Z * Z) :=
  [(0, 1); (1, 0); (1, 1); (5, 0); (5, 1); (5, 2); (5, 3); (5, 4); (5, 5); (5, 6)].


(** A mine next to a safe cell. *)
Definition mineAndBlank : Board :=
  [[mkCell true false false 0; mkCell false false false 1]].

(** A beginner game whose first click, at the corner, reveals that cell
    alone, and in which the cell [(2, 5)], of count 0, is then flagged. *)
Definition flaggedGame : App :=
  runFlags [(2, 5)]
    (handleCellClick (newSession beginner) cornerPicks 0 0 false (newSession beginner)).1.

(** A snapshot arrives in a fresh session; then a first click and a right
    click, handled by the handlers of the renders that follow it. *)
Definition syncedSession : App :=
  (onSyncState (mkSessionState (blankBoard (CONFIGS beginner)) idle 10 0 beginner)
     (newSession beginner)).1.
Definition clickThenFlag : list Call :=
  [CellClicked syncedSession cornerPicks 0 0 false;
   CellFlagged (handleCellClick syncedSession cornerPicks 0 0 false syncedSession).1
     2 2 false].

(** ** Snapshots and messages *)

(** The snapshot of a component's React state. *)
Definition snapshotOf (s : App) : SessionState :=
  mkSessionState (board s) (status s) (minesLeft s) (seconds s) (difficulty s).

(** Nothing but [update-state] messages is added to what was sent. *)
Definition onlyUpdates (s s' : App) : Prop :=
  ∃ l, sent s' = sent s ++ l ∧ Forall (λ m, isUpdateState m = true) l.

(** The room an event of the relay names. *)
Definition roomOf {State} (e : Relay.Incoming State) : option string :=
  match e with
  | Relay.join_room roomId | Relay.update_state roomId _
  | Relay.cell_click roomId _ _ _ | Relay.cell_flag roomId _ _ _
  | Relay.reset_game roomId => Some roomId
  | Relay.disconnect => None
  end.

Definition isJoin {State} (e : Relay.Incoming State) : bool :=
  match e with Relay.join_room _ => true | _ => false end.

(** The relay handling events one after the other, each with the socket
    it comes from; and whether an event writes the entry of a room. *)
Definition relayRun {State} (es : list (string * Relay.Incoming State))
    (srv : Relay.Server State) : Relay.Server State :=
  foldl (λ srv e, (Relay.on srv e.1 e.2).1) srv es.

Definition writesRoom {State} (roomId : string) (e : Relay.Incoming State) : bool :=
  match e with
  | Relay.update_state room _ | Relay.reset_game room => bool_decide (room = roomId)
  | _ => false
  end.

(** The relay handling, in order, the messages a client emitted from the
    socket [from]: its final state and everything it delivered. *)
Definition relaySend (from : string) (ms : list ClientMsg)
    (srv : Relay.Server SessionState)
    : Relay.Server SessionState * list (string * Relay.Outgoing SessionState) :=
  foldl (λ acc m, let x := Relay.on acc.1 from (toRelay m) in (x.1, acc.2 ++ x.2))
        (srv, []) ms.

(** What of [out] is addressed to the socket [id]. *)
Definition inboxOf {State} (id : string) (out : list (string * Relay.Outgoing State))
    : list (Relay.Outgoing State) :=
  (filter (λ p, p.1 = id) out).*2.

(** A client whose listeners have the closure [env] handling the messages
    [ms] one after the other; [rand] serves each first click. *)
Definition receive (env : App) (rand : list (Z * Z))
    (ms : list (Relay.Outgoing SessionState)) (s : App) : App :=
  foldl (λ s m, (onMessage env rand m s).1) s ms.

(** What a handler run on [s] added to the messages sent. *)
Definition newlySent (s s' : App) : list ClientMsg := drop (length (sent s)) (sent s').

(** Everything but the board, the status, the counter and the messages
    sent is left alone. *)
Definition sameSession (s s' : App) : Prop :=
  seconds s' = seconds s ∧ difficulty s' = difficulty s ∧ roomId s' = roomId s
  ∧ socket s' = socket s ∧ isRemoteUpdate s' = isRemoteUpdate s
  ∧ timers s' = timers s.

(** A relay with the sockets [a] and [b] in the room of [someApp]. *)
Definition twoInRoom : Relay.Server SessionState :=
  Relay.mkServer ∅ {["room" := {["a"; "b"]}]}.

(** A beginner game that is playing, nothing revealed yet. *)
Definition playingSession : App :=
  someApp beginner (blankBoard (CONFIGS beginner)) playing.

(** ** Winning *)

(** The number [checkWin] compares the revealed cells with. *)
Definition safeCells (config : GameConfig) : Z :=
  rows config * cols config - mines config.

(** No mine is shown; every cell that is not a mine is shown. *)
Definition noMineShown (b : Board) : Prop :=
  ∀ r c, isRev b r c = true → isMineAt b r c = false.
Definition allSafeShown (b : Board) : Prop :=
  ∀ r c x, getCell b r c = Some x → isMine x = false → isRevealed x = true.

(** What a call of [revealCell] at [(r, c)] does to the status: it stays,
    or becomes won at a moment when the count is reached; and a call that
    passes the guard stores the board it returns and ends with the test of
    [checkWin] on it. *)
Definition statusPost (env : App) (b : Board) (r c : Z) (s s' : App) (b' : Board)
    : Prop :=
  ext b b'
  ∧ (status s' = status s
     ∨ status s' = won
       ∧ safeCells (CONFIGS (difficulty env)) ≤ Z.of_nat (countRevealed b'))
  ∧ (isOpen b r c = true →
     board s' = b'
     ∧ (Z.of_nat (countRevealed b') = safeCells (CONFIGS (difficulty env)) →
        status s' = won)).

(** The board the two phases of [startGame] make of the blank beginner
    grid with the picks [cornerPicks], the corner excluded; and a game
    that is playing on it. *)
Definition cornerBoard : Board :=
  match placeMines (CONFIGS beginner) 0 0 cornerPicks (blankBoard (CONFIGS beginner)) 0
          ≫= fillNeighborMines (CONFIGS beginner) with
  | Ok b => b
  | _ => []
  end.
Definition cornerGame : App := someApp beginner cornerBoard playing.

(** The status is left alone or becomes won or lost. *)
Definition statusEnds (s s' : App) : Prop :=
  status s' = status s ∨ status s' = won ∨ status s' = lost.

(** A session from its mount: the socket connects, a first click at the
    corner starts the game, and a click on the mine at [(0, 1)] loses it.
    Each click is handled by the handler of the latest render. *)
Definition joinedSession : App := (onConnect (mounted "room") (mounted "room")).1.
Definition startedSession : App :=
  (handleCellClick joinedSession cornerPicks 0 0 false joinedSession).1.
Definition lostSession : App :=
  (handleCellClick startedSession [] 0 1 false startedSession).1.

(** * Reasoning tools *)

Ltac munfold :=
  unfold mbind, M_bind, mret, M_ret, Res_bind, Res_ret, liftRes, render, when,
    defined in *.

Ltac setters :=
  unfold setBoard, setStatus, setMinesLeft, setSeconds, setDifficulty,
    setIsRemoteUpdate, setTimers, setSocket in *.

(** ** The two monads *)

Lemma bind_M {A B} (m : M A) (f : A → M B) s :
  (m ≫= f) s = match m s with
               | (s', Ok a) => f a s'
               | (s', TypeError) => (s', TypeError)
               | (s', Diverge) => (s', Diverge)
               end.
Proof. done. Qed.

Lemma bind_liftRes_Ok {A B} (a : A) (f : A → M B) s :
  (liftRes (Ok a) ≫= f) s = f a s.
Proof. done. Qed.

Lemma bind_Res {A B} (m : Res A) (f : A → Res B) :
  m ≫= f = match m with
           | Ok a => f a
           | TypeError => TypeError
           | Diverge => Diverge
           end.
Proof. done. Qed.

Section Preserves.
Variable R : App → App → Prop.
Hypothesis R_refl : ∀ s, R s s.
Hypothesis R_trans : ∀ s1 s2 s3, R s1 s2 → R s2 s3 → R s1 s3.

Lemma preserves_ret {A} (a : A) : preserves R (mret a).
Proof. intros s. apply R_refl. Qed.

Lemma preserves_liftRes {A} (x : Res A) : preserves R (liftRes x).
Proof. intros s. apply R_refl. Qed.

Lemma preserves_render : preserves R render.
Proof. intros s. apply R_refl. Qed.

Lemma preserves_bind {A B} (m : M A) (f : A → M B) :
  preserves R m → (∀ a, preserves R (f a)) → preserves R (m ≫= f).
Proof.
  intros Hm Hf s. specialize (Hm s). rewrite bind_M.
  destruct (m s) as [s' [a| |]]; simpl in *; [|done..].
  eapply R_trans; [exact Hm | apply Hf].
Qed.

Lemma preserves_when b (m : M unit) : preserves R m → preserves R (when b m).
Proof. destruct b; simpl; [done | intros _; apply preserves_ret]. Qed.

Lemma preserves_forEachM {A S} (l : list A) (body : S → A → M S) :
  (∀ b x, preserves R (body b x)) → ∀ b, preserves R (forEachM l body b).
Proof.
  intros Hbody. induction l as [|x l IH]; intros b; simpl.
  - apply preserves_ret.
  - apply preserves_bind; [apply Hbody | intros b'; apply IH].
Qed.

End Preserves.

Create HintDb pres.
#[global] Hint Resolve preserves_ret preserves_liftRes preserves_render
  preserves_when : pres.

Ltac pres_step :=
  lazymatch goal with
  | |- preserves _ (_ ≫= _) => eapply preserves_bind; [eauto with pres | | intros ?]
  | |- preserves _ (forEachM _ _ _) =>
      eapply preserves_forEachM; [eauto with pres | eauto with pres | intros ? ?]
  | |- preserves _ (when _ _) => eapply preserves_when; [eauto with pres |]
  | |- preserves _ (if ?b then _ else _) => destruct b
  | |- preserves _ (match ?x with _ => _ end) => destruct x
  | |- preserves _ _ => solve [eauto with pres]
  end.
Ltac pres := cbv zeta; repeat (pres_step; cbv zeta).

Lemma sat_mono {A} (x : App * Res A) (Q Q' : App → A → Prop) (E E' : Prop) :
  sat x Q E → (∀ s a, Q s a → Q' s a) → (E → E') → sat x Q' E'.
Proof. destruct x as [s [a| |]]; simpl; auto. Qed.

Lemma sat_bind {A B} (m : M A) (f : A → M B) s Q1 (Q : App → B → Prop) E :
  sat (m s) Q1 E → (∀ s' a, Q1 s' a → sat (f a s') Q E) →
  sat ((m ≫= f) s) Q E.
Proof.
  unfold mbind, M_bind. destruct (m s) as [s' [a| |]]; simpl; auto.
Qed.

Lemma sat_ret {A} (a : A) s (Q : App → A → Prop) E :
  Q s a → sat ((mret a : M A) s) Q E.
Proof. done. Qed.

Lemma sat_forEachM {A S} (I : list A → S → App → Prop) E
    (body : S → A → M S) (l : list A) :
  (∀ pre x b s, x ∈ l → I pre b s →
     sat (body b x s) (λ s' b', I (pre ++ [x]) b' s') E) →
  ∀ pre b s, I pre b s →
  sat (forEachM l body b s) (λ s' b', I (pre ++ l) b' s') E.
Proof.
  induction l as [|x l IH]; intros Hbody pre b s HI; simpl.
  - rewrite app_nil_r. done.
  - eapply sat_bind; [apply Hbody; [left | exact HI]|].
    intros s' b' HI'. simpl in HI'.
    replace (pre ++ x :: l) with ((pre ++ [x]) ++ l) by by rewrite <- app_assoc.
    apply IH; [|done]. intros pre' y b0 s0 Hy. apply Hbody. by right.
Qed.

Lemma returns_setBoard b : returns (setBoard b).
Proof. intros s. by eexists _, _. Qed.

Lemma returns_setStatus x : returns (setStatus x).
Proof. intros s. by eexists _, _. Qed.

Lemma returns_socketEmit m : returns (socketEmit m).
Proof. intros s. unfold socketEmit. destruct (socket s); by eexists _, _. Qed.

Lemma returns_emitState env b x n t d : returns (emitState env b x n t d).
Proof.
  intros s. unfold emitState. destruct (isRemoteUpdate s); [by eexists _, _|].
  apply returns_socketEmit.
Qed.

Lemma returns_bind {A B} (m : M A) (f : A → M B) :
  returns m → (∀ a, returns (f a)) → returns (m ≫= f).
Proof.
  intros Hm Hf s. destruct (Hm s) as (s' & a & Hs). rewrite bind_M, Hs. apply Hf.
Qed.

Lemma returns_checkWin env b : returns (checkWin env b).
Proof.
  unfold checkWin. cbv zeta. case_decide.
  - apply returns_bind; [apply returns_setStatus | intros _; apply returns_emitState].
  - apply returns_emitState.
Qed.

Lemma returns_when_socketEmit b m s :
  ∃ s', when b (socketEmit m) s = (s', Ok tt)
    ∧ board s' = board s.
Proof.
  destruct b; simpl; [|by eexists]. unfold socketEmit.
  destruct (socket s); by eexists.
Qed.

Lemma sat_returns_bind {A B} (m : M A) (f : A → M B) s (Q : App → B → Prop) E :
  returns m → (∀ s' a, sat (f a s') Q E) → sat ((m ≫= f) s) Q E.
Proof.
  intros Hm Hf. destruct (Hm s) as (s' & a & Hs). rewrite bind_M, Hs. apply Hf.
Qed.

(** ** Loops: the two nested loops as one *)

Lemma forEachM_app {A S} (body : S → A → M S) l1 l2 b s :
  forEachM (l1 ++ l2) body b s = (forEachM l1 body b ≫= forEachM l2 body) s.
Proof.
  revert b s. induction l1 as [|x l1 IH]; intros b s; simpl; [done|].
  unfold mbind, M_bind in *. destruct (body b x s) as [s' [b'| |]]; [|done..].
  apply IH.
Qed.

Lemma forEachM_fmap {A B S} (g : A → B) (body : S → B → M S) l b s :
  forEachM (g <$> l) body b s = forEachM l (λ b x, body b (g x)) b s.
Proof.
  revert b s. induction l as [|x l IH]; intros b s; simpl; [done|].
  unfold mbind, M_bind. destruct (body b (g x) s) as [s' [b'| |]]; [|done..].
  apply IH.
Qed.

Lemma forEachM_nested {A B S} (body : A → B → S → M S) l1 l2 b s :
  forEachM l1 (λ b x, forEachM l2 (λ b y, body x y b) b) b s
  = forEachM (x ← l1; (λ y, (x, y)) <$> l2) (λ b p, body p.1 p.2 b) b s.
Proof.
  revert b s. induction l1 as [|x l1 IH]; intros b s; simpl; [done|].
  rewrite forEachM_app, !bind_M, forEachM_fmap. simpl.
  destruct (forEachM (F:=M) l2 _ b s) as [s1 [b1| |]]; [|done..]. apply IH.
Qed.

Lemma forEachR_app {A S} (body : S → A → Res S) l1 l2 b :
  forEachM (l1 ++ l2) body b = forEachM l1 body b ≫= forEachM l2 body.
Proof.
  revert b. induction l1 as [|x l1 IH]; intros b; simpl; [done|].
  unfold mbind, Res_bind in *. destruct (body b x) as [b'| |]; [|done..]. apply IH.
Qed.

Lemma forEachR_fmap {A B S} (g : A → B) (body : S → B → Res S) l b :
  forEachM (g <$> l) body b = forEachM l (λ b x, body b (g x)) b.
Proof.
  revert b. induction l as [|x l IH]; intros b; simpl; [done|].
  unfold mbind, Res_bind. destruct (body b (g x)) as [b'| |]; [|done..]. apply IH.
Qed.

Lemma forEachR_nested {A B S} (body : A → B → S → Res S) l1 l2 b :
  forEachM l1 (λ b x, forEachM l2 (λ b y, body x y b) b) b
  = forEachM (x ← l1; (λ y, (x, y)) <$> l2) (λ b p, body p.1 p.2 b) b.
Proof.
  revert b. induction l1 as [|x l1 IH]; intros b; simpl; [done|].
  rewrite forEachR_app, forEachR_fmap, !bind_Res. simpl.
  destruct (forEachM (F:=Res) l2 _ b) as [b1| |]; [|done..]. apply IH.
Qed.

Lemma forEachR_inv {A S} (I : list A → S → Prop) (body : S → A → Res S) (l : list A) :
  (∀ pre x b, x ∈ l → I pre b → ∃ b', body b x = Ok b' ∧ I (pre ++ [x]) b') →
  ∀ pre b, I pre b → ∃ b', forEachM l body b = Ok b' ∧ I (pre ++ l) b'.
Proof.
  induction l as [|x l IH]; intros Hbody pre b HI; simpl.
  - exists b. by rewrite app_nil_r.
  - destruct (Hbody pre x b (list_elem_of_here _ _) HI) as (b1 & -> & HI1). simpl.
    replace (pre ++ x :: l) with ((pre ++ [x]) ++ l) by by rewrite <- app_assoc.
    apply IH; [|done]. intros pre' y b0 Hy. apply Hbody. by right.
Qed.

(** ** Arrays and boards *)

Lemma jsIndex_Some {A} (l : list A) i x :
  jsIndex l i = Some x ↔ 0 ≤ i ∧ l !! Z.to_nat i = Some x.
Proof.
  unfold jsIndex. case_decide; split; try done; [by intros [_ ?] | by intros [? _]].
Qed.

Lemma jsIndex_is_Some {A} (l : list A) i :
  is_Some (jsIndex l i) ↔ 0 ≤ i < len l.
Proof.
  unfold jsIndex, len. case_decide.
  - rewrite lookup_lt_is_Some. lia.
  - split; [by intros [? ?] | lia].
Qed.

Lemma jsIndex_None {A} (l : list A) i :
  jsIndex l i = None ↔ i < 0 ∨ len l ≤ i.
Proof.
  rewrite eq_None_not_Some, jsIndex_is_Some. lia.
Qed.

Lemma getCell_Some b r c x :
  getCell b r c = Some x ↔
  ∃ row, jsIndex b r = Some row ∧ jsIndex row c = Some x.
Proof.
  unfold getCell. destruct (jsIndex b r) as [row|]; simpl.
  - split; [by exists row | by intros (? & [= <-] & ?)].
  - split; [done | by intros (? & ? & _)].
Qed.

Lemma getCell_updCell f b r c x r' c' :
  getCell b r c = Some x →
  getCell (updCell f b r c) r' c' =
    if decide (r' = r ∧ c' = c) then Some (f x) else getCell b r' c'.
Proof.
  intros (row & Hrow & Hx)%getCell_Some.
  apply jsIndex_Some in Hrow as [Hr Hrow]. apply jsIndex_Some in Hx as [Hc Hx].
  unfold getCell, updCell, jsIndex.
  destruct (decide (0 ≤ r')) as [Hr'|Hr']; simpl.
  2:{ rewrite decide_False by lia. done. }
  rewrite list_lookup_alter.
  destruct (decide (Z.to_nat r = Z.to_nat r')) as [E|E].
  - assert (r' = r) as -> by lia. rewrite Hrow. simpl.
    destruct (decide (0 ≤ c')) as [Hc'|Hc'].
    2:{ rewrite decide_False by lia. done. }
    rewrite list_lookup_alter.
    destruct (decide (Z.to_nat c = Z.to_nat c')) as [E'|E'].
    + assert (c' = c) as -> by lia. rewrite Hx. simpl. by rewrite decide_True.
    + rewrite decide_False by lia. done.
  - rewrite decide_False by lia. done.
Qed.

Lemma getCell_revealMines b r c :
  getCell (revealMines b) r c
  = (λ cell, if isMine cell then setIsRevealed cell else cell) <$> getCell b r c.
Proof.
  unfold getCell, revealMines, jsIndex. destruct (decide (0 ≤ r)); [|done].
  rewrite list_lookup_fmap. destruct (b !! Z.to_nat r) as [row|]; [|done]. simpl.
  destruct (decide (0 ≤ c)); [|done]. by rewrite list_lookup_fmap.
Qed.

Lemma sum_list_with_alter {A} (g : A → nat) f (l : list A) i x :
  l !! i = Some x →
  (sum_list_with g (alter f i l) + g x = sum_list_with g l + g (f x))%nat.
Proof.
  revert i. induction l as [|y l IH]; intros [|i] H; simplify_eq/=; [lia|].
  specialize (IH i H). lia.
Qed.

Lemma sum_list_with_updCell (g : Cell → nat) f b r c x :
  getCell b r c = Some x →
  (sum_list_with (sum_list_with g) (updCell f b r c) + g x
   = sum_list_with (sum_list_with g) b + g (f x))%nat.
Proof.
  intros (row & [_ Hrow]%jsIndex_Some & [_ Hx]%jsIndex_Some)%getCell_Some.
  unfold updCell.
  pose proof (sum_list_with_alter (sum_list_with g) (alter f (Z.to_nat c)) _ _ _ Hrow).
  pose proof (sum_list_with_alter g f _ _ _ Hx). lia.
Qed.

Lemma sum_list_with_Forall2_le {A} (P : A → A → Prop) (g : A → nat) l k :
  (∀ x y, P x y → (g y ≤ g x)%nat) → Forall2 P l k →
  (sum_list_with g k ≤ sum_list_with g l)%nat.
Proof.
  intros HP H. induction H as [|x y l k Hxy _ IH]; simpl; [lia|].
  specialize (HP _ _ Hxy). lia.
Qed.

Lemma sum_list_with_Forall2_eq {A} (P : A → A → Prop) (g : A → nat) l k :
  (∀ x y, P x y → g y = g x) → Forall2 P l k →
  sum_list_with g k = sum_list_with g l.
Proof.
  intros HP H. induction H as [|x y l k Hxy _ IH]; simpl; [done|].
  by rewrite (HP _ _ Hxy), IH.
Qed.

Lemma rect_lookup b row0 row i :
  rect b → b !! 0%nat = Some row0 → b !! i = Some row → length row = length row0.
Proof.
  unfold rect. intros H H0 Hi. rewrite Forall_lookup in H.
  specialize (H i row Hi). rewrite H. destruct b; [done|]. simpl in *. congruence.
Qed.

Lemma rect_getCell b r c row0 :
  rect b → jsIndex b 0 = Some row0 → 0 ≤ r < len b → 0 ≤ c < len row0 →
  is_Some (getCell b r c).
Proof.
  intros Hrect [_ H0]%jsIndex_Some Hr Hc.
  destruct (proj2 (jsIndex_is_Some b r) Hr) as [row Hrow].
  pose proof Hrow as [_ Hrow']%jsIndex_Some.
  pose proof (rect_lookup _ _ _ _ Hrect H0 Hrow') as Hlen.
  destruct (proj2 (jsIndex_is_Some row c)) as [x Hx]; [unfold len in *; lia|].
  exists x. apply getCell_Some. eauto.
Qed.

Lemma rect_getCell_bounds b r c row0 x :
  rect b → jsIndex b 0 = Some row0 → getCell b r c = Some x →
  0 ≤ r < len b ∧ 0 ≤ c < len row0.
Proof.
  intros Hrect [_ H0]%jsIndex_Some (row & Hrow & Hx)%getCell_Some.
  pose proof Hrow as [_ Hrow']%jsIndex_Some.
  pose proof (rect_lookup _ _ _ _ Hrect H0 Hrow') as Hlen.
  split; [apply jsIndex_is_Some; eauto|].
  assert (0 ≤ c < len row) by (apply jsIndex_is_Some; eauto).
  unfold len in *. lia.
Qed.

Lemma shape_getCell config b r c :
  shape config b → is_Some (getCell b r c) ↔ inRange config (r, c).
Proof.
  intros [Hlen Hrows]. unfold inRange. simpl. split.
  - intros [x (row & Hrow & Hx)%getCell_Some].
    assert (0 ≤ r < len b) as Hr by (apply jsIndex_is_Some; eauto).
    assert (0 ≤ c < len row) as Hc by (apply jsIndex_is_Some; eauto).
    apply jsIndex_Some in Hrow as [_ Hrow].
    pose proof (proj1 (Forall_lookup _ _) Hrows _ _ Hrow) as Hl. simpl in Hl.
    unfold len in *. lia.
  - intros [Hr Hc].
    destruct (proj2 (jsIndex_is_Some b r)) as [row Hrow]; [unfold len; lia|].
    pose proof Hrow as [_ Hrow']%jsIndex_Some.
    pose proof (proj1 (Forall_lookup _ _) Hrows _ _ Hrow') as Hl. simpl in Hl.
    destruct (proj2 (jsIndex_is_Some row c)) as [x Hx]; [unfold len; lia|].
    exists x. apply getCell_Some. eauto.
Qed.

Lemma shape_blankBoard config : shape config (blankBoard config).
Proof.
  split; [apply length_replicate|]. apply Forall_replicate, length_replicate.
Qed.

Lemma getCell_blankBoard config r c x :
  getCell (blankBoard config) r c = Some x → x = blankCell.
Proof.
  intros (row & [_ Hrow]%jsIndex_Some & [_ Hx]%jsIndex_Some)%getCell_Some.
  apply lookup_replicate in Hrow as [-> _]. by apply lookup_replicate in Hx as [-> _].
Qed.

Lemma countMines_blankBoard config : countMines (blankBoard config) = 0%nat.
Proof.
  unfold countMines, blankBoard.
  assert (∀ m, sum_list_with (λ x, if isMine x then 1 else 0)%nat
                 (replicate m blankCell) = 0%nat) as Hrow
    by (induction m as [|m IHm]; simpl; [done | by rewrite IHm]).
  induction (Z.to_nat (rows config)) as [|n IH]; simpl; [done|].
  by rewrite IH, Hrow.
Qed.

Lemma elem_of_cellsOf config p : p ∈ cellsOf config ↔ inRange config p.
Proof.
  unfold cellsOf, inRange. rewrite list_elem_of_bind. split.
  - intros (r & Hp & Hr). apply list_elem_of_fmap in Hp as (c & -> & Hc).
    apply elem_of_seqZ in Hr, Hc. simpl. lia.
  - intros [Hr Hc]. exists p.1. split; [|apply elem_of_seqZ; lia].
    apply list_elem_of_fmap. exists p.2. split; [by destruct p|].
    apply elem_of_seqZ. lia.
Qed.

Lemma adj_refl r c : adj r c r c.
Proof. unfold adj. lia. Qed.

Lemma adj_nbrs r c r' c' : adj r c r' c' → (r' - r, c' - c) ∈ nbrs.
Proof.
  unfold adj. intros [Hr Hc].
  assert (r' - r = -1 ∨ r' - r = 0 ∨ r' - r = 1) as Hr' by lia.
  assert (c' - c = -1 ∨ c' - c = 0 ∨ c' - c = 1) as Hc' by lia.
  destruct Hr' as [-> | [-> | ->]], Hc' as [-> | [-> | ->]]; vm_compute;
    repeat first [apply list_elem_of_here | apply list_elem_of_further].
Qed.

Lemma nbrs_adj r c p : p ∈ nbrs → adj r c (r + p.1) (c + p.2).
Proof.
  intros Hp. unfold adj.
  assert (p ∈ [(-1,-1); (-1,0); (-1,1); (0,-1); (0,0); (0,1); (1,-1); (1,0); (1,1)])
    as Hp' by exact Hp.
  repeat (apply elem_of_cons in Hp' as [-> | Hp']; [simpl; lia|]).
  by apply elem_of_nil in Hp'.
Qed.

(** ** Boards related cell by cell *)

Lemma boardRel_refl P b : (∀ x, P x x) → boardRel P b b.
Proof.
  intros HP. apply Forall2_same_length_lookup. split; [done|]. intros i x y ? ?.
  simplify_eq. apply Forall2_same_length_lookup. split; [done|].
  intros j u v ? ?. simplify_eq. apply HP.
Qed.

Lemma boardRel_trans P b1 b2 b3 :
  (∀ x y z, P x y → P y z → P x z) →
  boardRel P b1 b2 → boardRel P b2 b3 → boardRel P b1 b3.
Proof.
  intros HP. unfold boardRel. revert b2 b3.
  induction b1 as [|row b1 IH]; intros b2 b3 H12 H23.
  - inversion H12; subst. inversion H23; subst. constructor.
  - inversion H12 as [|? row2 ? ? Hr12 Hb12]; subst.
    inversion H23 as [|? row3 ? ? Hr23 Hb23]; subst. constructor; [|eauto].
    clear -HP Hr12 Hr23. revert row2 row3 Hr12 Hr23.
    induction row as [|x row IHr]; intros row2 row3 H12 H23.
    + inversion H12; subst. inversion H23; subst. constructor.
    + inversion H12; subst. inversion H23; subst.
      constructor; [eapply HP; eauto | eauto].
Qed.

Lemma boardRel_updCell (P : Cell → Cell → Prop) f b r c :
  (∀ x, P x x) → (∀ x, P x (f x)) → boardRel P b (updCell f b r c).
Proof.
  intros Hrefl Hf. unfold boardRel, updCell.
  apply Forall2_alter_r; [by apply boardRel_refl|].
  intros row row' H1 H2 _. simplify_eq. apply Forall2_alter_r.
  - apply Forall2_same_length_lookup. split; [done|]. intros j u v ? ?.
    simplify_eq. apply Hrefl.
  - intros x y H1' H2' _. simplify_eq. apply Hf.
Qed.

Lemma boardRel_getCell P b b' r c x :
  boardRel P b b' → getCell b r c = Some x →
  ∃ y, getCell b' r c = Some y ∧ P x y.
Proof.
  intros H (row & [Hr Hrow]%jsIndex_Some & [Hc Hx]%jsIndex_Some)%getCell_Some.
  destruct (Forall2_lookup_l _ _ _ _ _ H Hrow) as (row' & Hrow' & HF).
  destruct (Forall2_lookup_l _ _ _ _ _ HF Hx) as (y & Hy & Hxy).
  exists y. split; [|done]. apply getCell_Some. exists row'.
  split; by apply jsIndex_Some.
Qed.

Lemma boardRel_getCell_r P b b' r c y :
  boardRel P b b' → getCell b' r c = Some y →
  ∃ x, getCell b r c = Some x ∧ P x y.
Proof.
  intros H (row' & [Hr Hrow']%jsIndex_Some & [Hc Hy]%jsIndex_Some)%getCell_Some.
  destruct (Forall2_lookup_r _ _ _ _ _ H Hrow') as (row & Hrow & HF).
  destruct (Forall2_lookup_r _ _ _ _ _ HF Hy) as (x & Hx & Hxy).
  exists x. split; [|done]. apply getCell_Some. exists row.
  split; by apply jsIndex_Some.
Qed.

Lemma boardRel_shape P config b b' : boardRel P b b' → shape config b → shape config b'.
Proof.
  intros H [Hlen Hrows]. split; [by rewrite <- (Forall2_length _ _ _ H)|].
  apply Forall_lookup. intros i row' Hi.
  destruct (Forall2_lookup_r _ _ _ _ _ H Hi) as (row & Hrow & HF).
  rewrite <- (Forall2_length _ _ _ HF).
  by apply (proj1 (Forall_lookup _ _) Hrows i).
Qed.

Lemma cellExt_refl x : cellExt x x.
Proof. by repeat split. Qed.

Lemma cellExt_trans x y z : cellExt x y → cellExt y z → cellExt x z.
Proof.
  intros (?&?&?&?) (?&?&?&?). repeat split; try congruence. auto.
Qed.

Lemma cellExt_reveal x : cellExt x (setIsRevealed x).
Proof. by repeat split. Qed.

Lemma ext_refl b : ext b b.
Proof. apply boardRel_refl, cellExt_refl. Qed.

Lemma ext_trans b1 b2 b3 : ext b1 b2 → ext b2 b3 → ext b1 b3.
Proof. apply boardRel_trans, cellExt_trans. Qed.

Lemma ext_updCell_reveal b r c : ext b (updCell setIsRevealed b r c).
Proof.
  apply (boardRel_updCell cellExt); [apply cellExt_refl | apply cellExt_reveal].
Qed.

Lemma ext_revealMines b : ext b (revealMines b).
Proof.
  unfold ext, boardRel, revealMines. apply Forall2_fmap_r.
  apply Forall2_same_length_lookup. split; [done|]. intros i row row' ? ?.
  simplify_eq. apply Forall2_fmap_r.
  apply Forall2_same_length_lookup. split; [done|]. intros j x y ? ?.
  simplify_eq. simpl.
  destruct (isMine x) eqn:E; [apply cellExt_reveal | apply cellExt_refl].
Qed.

Lemma ext_getCell b b' r c x :
  ext b b' → getCell b r c = Some x →
  ∃ y, getCell b' r c = Some y ∧ cellExt x y.
Proof. apply boardRel_getCell. Qed.

Lemma ext_getCell_r b b' r c y :
  ext b b' → getCell b' r c = Some y →
  ∃ x, getCell b r c = Some x ∧ cellExt x y.
Proof. apply boardRel_getCell_r. Qed.

Lemma ext_getCell_None b b' r c :
  ext b b' → getCell b r c = None → getCell b' r c = None.
Proof.
  intros H Hn. destruct (getCell b' r c) as [y|] eqn:Hy; [|done].
  destruct (ext_getCell_r _ _ _ _ _ H Hy) as (x & Hx & _). congruence.
Qed.

Lemma ext_rect b b' : ext b b' → rect b → rect b'.
Proof.
  intros H Hr. unfold rect. apply Forall_lookup. intros i row' Hi.
  destruct (Forall2_lookup_r _ _ _ _ _ H Hi) as (row & Hrow & HF).
  destruct b' as [|row0' b']; [done|]. simpl.
  destruct b as [|row0 b]; [inversion H|].
  inversion H as [|? ? ? ? H0 _]; subst.
  rewrite <- (Forall2_length _ _ _ HF), <- (Forall2_length _ _ _ H0).
  eapply rect_lookup; eauto.
Qed.

Lemma ext_isRev b b' r c : ext b b' → isRev b r c = true → isRev b' r c = true.
Proof.
  unfold isRev. intros H. destruct (getCell b r c) as [x|] eqn:Hx; [|done].
  destruct (ext_getCell _ _ _ _ _ H Hx) as (y & -> & (_&_&_&Hr)). done.
Qed.

Lemma ext_isMineAt b b' r c : ext b b' → isMineAt b' r c = isMineAt b r c.
Proof.
  unfold isMineAt. intros H. destruct (getCell b r c) as [x|] eqn:Hx.
  - destruct (ext_getCell _ _ _ _ _ H Hx) as (y & -> & (?&_)). done.
  - by rewrite (ext_getCell_None _ _ _ _ H Hx).
Qed.

Lemma ext_isZero b b' r c : ext b b' → isZero b' r c = isZero b r c.
Proof.
  unfold isZero. intros H. destruct (getCell b r c) as [x|] eqn:Hx.
  - destruct (ext_getCell _ _ _ _ _ H Hx) as (y & -> & (_&_&->&_)). done.
  - by rewrite (ext_getCell_None _ _ _ _ H Hx).
Qed.

Lemma ext_isOpen b b' r c : ext b b' → isOpen b' r c = true → isOpen b r c = true.
Proof.
  unfold isOpen. intros H. destruct (getCell b r c) as [x|] eqn:Hx.
  - destruct (ext_getCell _ _ _ _ _ H Hx) as (y & -> & (_&->&_&Hr)).
    destruct (isRevealed x); [rewrite Hr by done|];
      destruct (isRevealed y), (isFlagged x); done.
  - by rewrite (ext_getCell_None _ _ _ _ H Hx).
Qed.

Lemma ext_closed b b' r c :
  ext b b' → isOpen b r c = true → isOpen b' r c = false → isRev b' r c = true.
Proof.
  unfold isOpen, isRev. intros H. destruct (getCell b r c) as [x|] eqn:Hx; [|done].
  destruct (ext_getCell _ _ _ _ _ H Hx) as (y & -> & (_&->&_&Hr)).
  destruct (isRevealed y), (isFlagged x), (isRevealed x); done.
Qed.

Lemma ext_consistent b b' : ext b b' → consistent b → consistent b'.
Proof.
  intros H Hc r c r' c'. rewrite !(ext_isMineAt _ _ _ _ H), (ext_isZero _ _ _ _ H).
  apply Hc.
Qed.

Lemma isOpen_not_isRev b r c : isOpen b r c = true → isRev b r c = false.
Proof.
  unfold isOpen, isRev. destruct (getCell b r c) as [x|]; [|done].
  by destruct (isRevealed x).
Qed.

Lemma isRev_reveal b r c x r' c' :
  getCell b r c = Some x →
  isRev (updCell setIsRevealed b r c) r' c'
  = if decide (r' = r ∧ c' = c) then true else isRev b r' c'.
Proof.
  intros Hx. unfold isRev. rewrite (getCell_updCell _ _ _ _ _ _ _ Hx).
  by case_decide.
Qed.

Lemma revealMines_all b r c :
  isMineAt (revealMines b) r c = true → isRev (revealMines b) r c = true.
Proof.
  unfold isMineAt, isRev. rewrite getCell_revealMines.
  destruct (getCell b r c) as [x|]; [|done]. simpl.
  destruct (isMine x) eqn:Hm; [done|]. by rewrite Hm.
Qed.

(** ** Counting *)

Lemma unrevealedCount_reveal b r c x :
  getCell b r c = Some x → isRevealed x = false →
  (unrevealedCount (updCell setIsRevealed b r c) + 1 = unrevealedCount b)%nat.
Proof.
  intros Hx Hrev. unfold unrevealedCount.
  pose proof (sum_list_with_updCell (λ x, if isRevealed x then 0 else 1)%nat
                setIsRevealed _ _ _ _ Hx) as H.
  simpl in H. rewrite Hrev in H. lia.
Qed.

Lemma ext_unrevealedCount b b' :
  ext b b' → (unrevealedCount b' ≤ unrevealedCount b)%nat.
Proof.
  intros H. unfold unrevealedCount.
  eapply sum_list_with_Forall2_le; [|exact H]. intros row row' Hrow.
  eapply sum_list_with_Forall2_le; [|exact Hrow]. intros x y (_&_&_&Hr).
  destruct (isRevealed x); [rewrite Hr by done|]; destruct (isRevealed y); lia.
Qed.

Lemma revealedCount_countRevealed b : revealedCount b = Z.of_nat (countRevealed b).
Proof.
  unfold revealedCount, countRevealed.
  assert (∀ (row : list Cell) n,
    foldl (λ n cell, if isRevealed cell then n + 1 else n) n row
    = n + Z.of_nat (sum_list_with (λ x, if isRevealed x then 1 else 0)%nat row)) as Hrow.
  { induction row as [|x row IH]; intros n; simpl; [lia|].
    rewrite IH. destruct (isRevealed x); lia. }
  assert (∀ (b : Board) n,
    foldl (λ n row, foldl (λ n cell, if isRevealed cell then n + 1 else n) n row) n b
    = n + Z.of_nat (sum_list_with
          (sum_list_with (λ x, if isRevealed x then 1 else 0)%nat) b)) as Hb.
  { clear b. induction b as [|row b IH]; intros n; simpl; [lia|].
    rewrite IH, Hrow. lia. }
  rewrite Hb. lia.
Qed.

Lemma count_split b : (countRevealed b + unrevealedCount b = cellCount b)%nat.
Proof.
  unfold countRevealed, unrevealedCount, cellCount.
  induction b as [|row b IH]; simpl; [done|].
  assert (sum_list_with (λ x, if isRevealed x then 1 else 0) row
          + sum_list_with (λ x, if isRevealed x then 0 else 1) row = length row)%nat.
  { clear. induction row as [|x row IH]; simpl; [done|]. destruct (isRevealed x); lia. }
  lia.
Qed.

Lemma ext_cellCount b b' : ext b b' → cellCount b' = cellCount b.
Proof.
  intros H. unfold cellCount. unfold ext, boardRel in H.
  induction H as [|row row' b b' Hrow _ IH]; simpl; [done|].
  by rewrite IH, (Forall2_length _ _ _ Hrow).
Qed.

Lemma sameButFlag_countRevealed b b' :
  boardRel sameButFlag b b' → countRevealed b' = countRevealed b.
Proof.
  intros H. unfold countRevealed.
  eapply sum_list_with_Forall2_eq; [|exact H]. intros row row' Hrow.
  eapply sum_list_with_Forall2_eq; [|exact Hrow]. by intros x y (_ & -> & _).
Qed.

Lemma countExt_refl x : countExt x x.
Proof. by repeat split. Qed.

Lemma countExt_trans x y z : countExt x y → countExt y z → countExt x z.
Proof. intros (?&?&?) (?&?&?). repeat split; congruence. Qed.

Lemma countExt_countMines b b' : boardRel countExt b b' → countMines b' = countMines b.
Proof.
  intros H. unfold countMines.
  eapply sum_list_with_Forall2_eq; [|exact H]. intros row row' Hrow.
  eapply sum_list_with_Forall2_eq; [|exact Hrow]. by intros x y (-> & _).
Qed.

Lemma countExt_isMineAt b b' r c : boardRel countExt b b' → isMineAt b' r c = isMineAt b r c.
Proof.
  intros H. unfold isMineAt. destruct (getCell b r c) as [x|] eqn:Hx.
  - destruct (boardRel_getCell _ _ _ _ _ _ H Hx) as (y & -> & (? & _)). done.
  - destruct (getCell b' r c) as [y|] eqn:Hy; [|done].
    destruct (boardRel_getCell_r _ _ _ _ _ _ H Hy) as (x & ? & _). congruence.
Qed.

Lemma mineExt_refl x : mineExt x x.
Proof. by repeat split. Qed.

Lemma mineExt_trans x y z : mineExt x y → mineExt y z → mineExt x z.
Proof. intros (?&?&?&?) (?&?&?&?). repeat split; try congruence. auto. Qed.

Lemma isMineAt_setIsMine b r c x r' c' :
  getCell b r c = Some x →
  isMineAt (updCell setIsMine b r c) r' c'
  = if decide (r' = r ∧ c' = c) then true else isMineAt b r' c'.
Proof.
  intros Hx. unfold isMineAt. rewrite (getCell_updCell _ _ _ _ _ _ _ Hx).
  by case_decide.
Qed.

Lemma countMines_setIsMine b r c x :
  getCell b r c = Some x → isMine x = false →
  countMines (updCell setIsMine b r c) = S (countMines b).
Proof.
  intros Hx Hm. unfold countMines.
  pose proof (sum_list_with_updCell (λ x, if isMine x then 1 else 0)%nat
                setIsMine _ _ _ _ Hx) as H.
  simpl in H. rewrite Hm in H. lia.
Qed.


Lemma bruteCount_sum b r c :
  bruteCount b r c = foldr (λ p n, mineBit b r c p + n) 0 neighbours8.
Proof.
  unfold bruteCount. induction neighbours8 as [|p l IH]; [done|].
  rewrite filter_cons. simpl foldr. rewrite <- IH. unfold mineBit at 1.
  destruct (isMineAt b (r + p.1) (c + p.2)) eqn:Hm.
  - rewrite decide_True by done. simpl length. lia.
  - rewrite decide_False by congruence. lia.
Qed.

Lemma bruteCount_ext b b' r c :
  (∀ r c, isMineAt b' r c = isMineAt b r c) → bruteCount b' r c = bruteCount b r c.
Proof.
  intros H. rewrite !bruteCount_sum. unfold mineBit.
  induction neighbours8 as [|p l IH]; [done|]. simpl. by rewrite H, IH.
Qed.

(** ** Echo suppression, step by step *)

Lemma quiet_refl s : quiet s s.
Proof. by intros H. Qed.

Lemma quiet_trans s1 s2 s3 : quiet s1 s2 → quiet s2 s3 → quiet s1 s3.
Proof.
  intros H12 H23 H1. destruct (H12 H1) as [H2 E2].
  destruct (H23 H2) as [H3 E3]. split; [done | congruence].
Qed.

#[global] Hint Resolve quiet_refl quiet_trans : pres.

Lemma updates_app l1 l2 : updates (l1 ++ l2) = updates l1 ++ updates l2.
Proof. apply filter_app. Qed.

Lemma quiet_setBoard b : preserves quiet (setBoard b).
Proof. by intros s H. Qed.

Lemma quiet_setStatus x : preserves quiet (setStatus x).
Proof. by intros s H. Qed.

Lemma quiet_setMinesLeft n : preserves quiet (setMinesLeft n).
Proof. by intros s H. Qed.

Lemma quiet_setSeconds n : preserves quiet (setSeconds n).
Proof. by intros s H. Qed.

Lemma quiet_setDifficulty d : preserves quiet (setDifficulty d).
Proof. by intros s H. Qed.

Lemma quiet_setTimers n : preserves quiet (setTimers n).
Proof. by intros s H. Qed.

Lemma quiet_setSocket x : preserves quiet (setSocket x).
Proof. by intros s H. Qed.

Lemma quiet_raise : preserves quiet (setIsRemoteUpdate true).
Proof. by intros s H. Qed.

Lemma quiet_socketEmit m : isUpdateState m = false → preserves quiet (socketEmit m).
Proof.
  intros Hm s H. unfold socketEmit. destruct (socket s); simpl; [|done].
  split; [done|]. rewrite updates_app.
  destruct m; try discriminate; apply app_nil_r.
Qed.

Lemma emitState_suppressed env b x n t d s :
  isRemoteUpdate s = true → emitState env b x n t d s = (s, Ok tt).
Proof. intros H. unfold emitState. by rewrite H. Qed.

Lemma quiet_emitState env b x n t d : preserves quiet (emitState env b x n t d).
Proof. intros s H. by rewrite emitState_suppressed. Qed.

#[global] Hint Resolve quiet_setBoard quiet_setStatus quiet_setMinesLeft
  quiet_setSeconds quiet_setDifficulty quiet_setTimers quiet_setSocket
  quiet_raise quiet_socketEmit quiet_emitState : pres.

Lemma quiet_checkWin env b : preserves quiet (checkWin env b).
Proof. unfold checkWin. pres. Qed.

#[global] Hint Resolve quiet_checkWin : pres.

Lemma quiet_revealCell_fuel fuel env r c b x :
  preserves quiet (revealCell_fuel fuel env r c b x).
Proof.
  revert r c b. induction fuel as [|fuel IH]; intros r c b; simpl; pres.
Qed.

#[global] Hint Resolve quiet_revealCell_fuel : pres.

Lemma quiet_handleCellClick env rand r c remote :
  preserves quiet (handleCellClick env rand r c remote).
Proof. unfold handleCellClick, startGame, revealCell. pres. Qed.

Lemma quiet_handleRightClick env r c remote :
  preserves quiet (handleRightClick env r c remote).
Proof. unfold handleRightClick. pres. Qed.

Lemma quiet_initBoard env config remote :
  preserves quiet (initBoard env config remote).
Proof. unfold initBoard. pres. Qed.

Lemma quiet_onSyncState state : preserves quiet (onSyncState state).
Proof. unfold onSyncState. pres. Qed.

#[global] Hint Resolve quiet_handleCellClick quiet_handleRightClick
  quiet_initBoard quiet_onSyncState : pres.

Lemma quiet_invoke k : isTimeout k = false → preserves quiet (invoke k).
Proof.
  destruct k; simpl; intros Hk; try discriminate; unfold onConnect, onTick; pres.
Qed.

Lemma quiet_runCalls ks s :
  Forall (λ k, isTimeout k = false) ks → quiet s (runCalls ks s).
Proof.
  revert s. induction ks as [|k ks IH]; intros s Hks; simpl.
  - apply quiet_refl.
  - inversion Hks; subst. eapply quiet_trans; [|apply IH; done].
    by apply quiet_invoke.
Qed.

Lemma onSyncState_raises state s :
  isRemoteUpdate (onSyncState state s).1 = true
  ∧ sent (onSyncState state s).1 = sent s.
Proof. done. Qed.

(** ** What leaves the counter alone *)

Lemma sameMinesLeft_refl s : sameMinesLeft s s.
Proof. done. Qed.

Lemma sameMinesLeft_trans s1 s2 s3 :
  sameMinesLeft s1 s2 → sameMinesLeft s2 s3 → sameMinesLeft s1 s3.
Proof. unfold sameMinesLeft. congruence. Qed.
#[global] Hint Resolve sameMinesLeft_refl sameMinesLeft_trans : pres.

Lemma sameMinesLeft_setBoard b : preserves sameMinesLeft (setBoard b).
Proof. by intros s. Qed.
Lemma sameMinesLeft_setStatus x : preserves sameMinesLeft (setStatus x).
Proof. by intros s. Qed.
Lemma sameMinesLeft_socketEmit m : preserves sameMinesLeft (socketEmit m).
Proof. intros s. unfold socketEmit. by destruct (socket s). Qed.
Lemma sameMinesLeft_emitState env b x n t d :
  preserves sameMinesLeft (emitState env b x n t d).
Proof.
  intros s. unfold emitState. destruct (isRemoteUpdate s); [done|].
  apply sameMinesLeft_socketEmit.
Qed.
#[global] Hint Resolve sameMinesLeft_setBoard sameMinesLeft_setStatus
  sameMinesLeft_socketEmit sameMinesLeft_emitState : pres.

Lemma sameMinesLeft_checkWin env b : preserves sameMinesLeft (checkWin env b).
Proof. unfold checkWin. pres. Qed.
#[global] Hint Resolve sameMinesLeft_checkWin : pres.

Lemma sameMinesLeft_revealCell_fuel fuel env r c b x :
  preserves sameMinesLeft (revealCell_fuel fuel env r c b x).
Proof.
  revert r c b. induction fuel as [|fuel IH]; intros r c b; simpl; pres.
Qed.
#[global] Hint Resolve sameMinesLeft_revealCell_fuel : pres.

Lemma sameMinesLeft_handleCellClick env rand r c remote :
  preserves sameMinesLeft (handleCellClick env rand r c remote).
Proof. unfold handleCellClick, startGame, revealCell. pres. Qed.

(** ** One call of [revealCell] *)

Lemma revealCell_fuel_S fuel env r c b st :
  revealCell_fuel (S fuel) env r c b st =
    if decide (r < 0 ∨ r >= len b) then mret b else
    row0 ← liftRes (defined (jsIndex b 0));
    if decide (c < 0 ∨ c >= len row0) then mret b else
    cell ← liftRes (defined (getCell b r c));
    if isRevealed cell || isFlagged cell then mret b else
    let b1 := updCell setIsRevealed b r c in
    if isMine cell then
      setStatus lost;;
      emitState env (revealMines b1) lost (minesLeft env) (seconds env) (difficulty env);;
      mret (revealMines b1)
    else
      b2 ← (if decide (neighborMines cell = 0) then
              forEachM offsets (λ b dr,
                forEachM offsets (λ b dc,
                  revealCell_fuel fuel env (r + dr) (c + dc) b st) b) b1
            else mret b1);
      setBoard b2;; checkWin env b2;; mret b2.
Proof. done. Qed.

Lemma revealCell_fuel_cases fuel env r c b st s :
  (revealCell_fuel (S fuel) env r c b st s = (s, Ok b)
   ∧ (rect b → isOpen b r c = false))
  ∨ (revealCell_fuel (S fuel) env r c b st s = (s, TypeError) ∧ ¬ rect b)
  ∨ (∃ x, getCell b r c = Some x ∧ isRevealed x = false ∧ isFlagged x = false
        ∧ revealCell_fuel (S fuel) env r c b st s
          = revealBody fuel env r c x (updCell setIsRevealed b r c) st s).
Proof.
  rewrite revealCell_fuel_S. destruct (decide (r < 0 ∨ r >= len b)) as [Hr|Hr].
  { left. split; [done|]. intros _. unfold isOpen.
    destruct (getCell b r c) as [x|] eqn:Hx; [|done].
    apply getCell_Some in Hx as (row & Hrow & _).
    assert (0 ≤ r < len b) by (apply jsIndex_is_Some; eauto). lia. }
  destruct (jsIndex b 0) as [row0|] eqn:H0; cbn [defined].
  2:{ apply jsIndex_None in H0. lia. }
  rewrite bind_liftRes_Ok.
  destruct (decide (c < 0 ∨ c >= len row0)) as [Hc|Hc].
  { left. split; [done|]. intros Hrect. unfold isOpen.
    destruct (getCell b r c) as [x|] eqn:Hx; [|done].
    pose proof (rect_getCell_bounds _ _ _ _ _ Hrect H0 Hx). lia. }
  destruct (getCell b r c) as [x|] eqn:Hx; cbn [defined].
  2:{ right; left. split; [done|]. intros Hrect.
      destruct (rect_getCell b r c row0 Hrect H0) as [? ?]; [lia..|congruence]. }
  rewrite bind_liftRes_Ok.
  destruct (isRevealed x) eqn:Hrev; cbn [orb].
  { left. split; [done|]. intros _. unfold isOpen. by rewrite Hx, Hrev. }
  destruct (isFlagged x) eqn:Hfl.
  { left. split; [done|]. intros _. unfold isOpen. rewrite Hx, Hrev, Hfl. done. }
  right; right. exists x. repeat split; try done.
  unfold revealBody. cbv zeta. destruct (isMine x); [done|].
  rewrite !bind_M. destruct (decide (neighborMines x = 0)); [|done].
  unfold nbrs.
  by rewrite (forEachM_nested
    (λ dr dc b, revealCell_fuel fuel env (r + dr) (c + dc) b st)).
Qed.

Lemma flood_tail env b2 s :
  ∃ s', (setBoard b2;; checkWin env b2;; mret b2) s = (s', Ok b2)
    ∧ board s' = b2 ∧ socket s' = socket s
    ∧ isRemoteUpdate s' = isRemoteUpdate s
    ∧ (socket s = true → isRemoteUpdate s = false →
       length (sent s') = S (length (sent s))).
Proof.
  unfold checkWin, emitState, socketEmit. munfold. setters. cbv zeta. simpl.
  destruct (decide _); simpl; destruct (isRemoteUpdate s) eqn:Hf; simpl;
    destruct (socket s) eqn:Hs; simpl; eexists; (split; [reflexivity|]); simpl;
    repeat split; try done; intros _ _; rewrite length_app; simpl; lia.
Qed.

Lemma mine_tail env b1 s :
  ∃ s', (setStatus lost;;
         emitState env b1 lost (minesLeft env) (seconds env) (difficulty env);;
         mret b1) s = (s', Ok b1)
    ∧ board s' = board s ∧ status s' = lost.
Proof.
  unfold emitState, socketEmit. munfold. setters. simpl.
  destruct (isRemoteUpdate s); simpl; [by eexists|].
  destruct (socket s); by eexists.
Qed.

Lemma revealCell_guard env r c b st s :
  rect b → isOpen b r c = false → revealCell env r c b st s = (s, Ok b).
Proof.
  intros Hrect Hno. unfold revealCell.
  destruct (revealCell_fuel_cases (unrevealedCount b) env r c b st s)
    as [[-> _] | [[_ Hn] | (x & Hx & Hr & Hf & _)]]; [done | done |].
  unfold isOpen in Hno. by rewrite Hx, Hr, Hf in Hno.
Qed.

Lemma revealCell_mine env r c b st s x :
  rect b → getCell b r c = Some x →
  isMine x = true → isRevealed x = false → isFlagged x = false →
  ∃ s', revealCell env r c b st s
        = (s', Ok (revealMines (updCell setIsRevealed b r c)))
    ∧ board s' = board s ∧ status s' = lost.
Proof.
  intros Hrect Hx Hm Hr Hf. unfold revealCell.
  destruct (revealCell_fuel_cases (unrevealedCount b) env r c b st s)
    as [[_ Hno] | [[_ Hn] | (x' & Hx' & _ & _ & ->)]]; [| done |].
  { specialize (Hno Hrect). unfold isOpen in Hno. by rewrite Hx, Hr, Hf in Hno. }
  simplify_eq. unfold revealBody. rewrite Hm. apply mine_tail.
Qed.

(** ** [revealCell] returns, and only reveals *)

Lemma revealCell_fuel_ext fuel : ∀ env r c b st s,
  (unrevealedCount b < fuel)%nat →
  sat (revealCell_fuel fuel env r c b st s) (λ _ b', ext b b') (¬ rect b).
Proof.
  induction fuel as [|fuel IH]; intros env r c b st s Hfuel; [lia|].
  destruct (revealCell_fuel_cases fuel env r c b st s)
    as [[-> _] | [[-> Hn] | (x & Hx & Hrev & Hfl & ->)]]; [apply ext_refl | done |].
  pose proof (ext_updCell_reveal b r c) as Hb1.
  pose proof (unrevealedCount_reveal _ _ _ _ Hx Hrev) as Hcnt.
  set (b1 := updCell setIsRevealed b r c) in *.
  unfold revealBody. destruct (isMine x).
  - apply sat_returns_bind; [apply returns_setStatus | intros s1 _].
    apply sat_returns_bind; [apply returns_emitState | intros s2 _].
    apply sat_ret. eapply ext_trans; [exact Hb1 | apply ext_revealMines].
  - eapply sat_bind with (Q1 := λ _ b2, ext b b2).
    + case_decide; [|by apply sat_ret].
      eapply sat_mono;
        [apply (sat_forEachM (λ _ b' _, ext b1 b') (¬ rect b)) with (pre := [])
        | | done].
      * intros pre p b' s' _ Hb'. simpl in Hb'.
        eapply sat_mono; [apply IH | |].
        -- pose proof (ext_unrevealedCount _ _ Hb'). lia.
        -- intros s'' b'' ?. simpl. eapply ext_trans; eauto.
        -- intros Hn Hrect. apply Hn. eapply ext_rect; [|exact Hrect].
           eapply ext_trans; eauto.
      * apply ext_refl.
      * intros s' b' ?. simpl in *. eapply ext_trans; eauto.
    + intros s' b2 Hb2.
      apply sat_returns_bind; [apply returns_setBoard | intros s1 _].
      apply sat_returns_bind; [apply returns_checkWin | intros s2 _].
      by apply sat_ret.
Qed.

(** ** The flood *)

Lemma Reach_ext b b' r0 c0 r c : ext b b' → Reach b' r0 c0 r c → Reach b r0 c0 r c.
Proof.
  intros H. induction 1 as [Ho | r c r' c' _ IH Hz Ha Ho].
  - apply Reach_start. eapply ext_isOpen; eauto.
  - eapply Reach_step; [exact IH | | exact Ha | eapply ext_isOpen; eauto].
    by rewrite <- (ext_isZero _ _ _ _ H).
Qed.

Lemma Reach_via b r0 c0 r1 c1 r c :
  isOpen b r0 c0 = true → isZero b r0 c0 = true → adj r0 c0 r1 c1 →
  Reach b r1 c1 r c → Reach b r0 c0 r c.
Proof.
  intros Ho Hz Ha. induction 1 as [Ho1 | r c r' c' _ IH Hz' Ha' Ho'].
  - eapply Reach_step; [by apply Reach_start | done..].
  - eapply Reach_step; eauto.
Qed.

Lemma Reach_all_open b r0 c0 r c :
  (∀ r c, is_Some (getCell b r c) → isOpen b r c = true) →
  isZero b r0 c0 = true →
  Reach b r0 c0 r c ↔
    is_Some (getCell b r c) ∧ ∃ r1 c1, ZeroRegion b r0 c0 r1 c1 ∧ adj r1 c1 r c.
Proof.
  intros Hopen Hz0. split.
  - induction 1 as [Ho | r c r' c' _ [_ (r1 & c1 & Hreg & Ha1)] Hz Ha Ho].
    + split; [|exists r0, c0; split; [by apply ZeroRegion_start | apply adj_refl]].
      unfold isOpen in Ho. destruct (getCell b r0 c0); [eauto | done].
    + split; [unfold isOpen in Ho; destruct (getCell b r' c'); [eauto | done]|].
      exists r, c. split; [|done]. by eapply ZeroRegion_step.
  - intros [Hsome (r1 & c1 & Hreg & Ha)].
    assert (Reach b r0 c0 r1 c1 ∧ isZero b r1 c1 = true) as [Hr1 Hz1].
    { clear Ha Hsome. induction Hreg as [Hz | r1 c1 r2 c2 _ [IH Hz1] Ha Hz2].
      - split; [|done]. apply Reach_start, Hopen. unfold isZero in Hz.
        destruct (getCell b r0 c0); [eauto | done].
      - split; [|done]. eapply Reach_step; [exact IH | done..|].
        apply Hopen. unfold isZero in Hz2. destruct (getCell b r2 c2); [eauto | done]. }
    eapply Reach_step; [exact Hr1 | done..|]. by apply Hopen.
Qed.

Lemma floodInv_step fuel env st b b1 r c x s1 pre p bi si :
  (∀ env r c b st s,
     rect b → consistent b → (isOpen b r c = true → isMineAt b r c = false) →
     (unrevealedCount b < fuel)%nat →
     sat (revealCell_fuel fuel env r c b st s) (floodPost b r c s) False) →
  rect b → consistent b → getCell b r c = Some x →
  isRevealed x = false → isFlagged x = false → isMine x = false →
  neighborMines x = 0 →
  b1 = updCell setIsRevealed b r c →
  (unrevealedCount b ≤ fuel)%nat →
  p ∈ nbrs →
  floodInv b b1 r c s1 pre bi si →
  sat (revealCell_fuel fuel env (r + p.1) (c + p.2) bi st si)
      (λ s' b', floodInv b b1 r c s1 (pre ++ [p]) b' s') False.
Proof.
  intros IH Hrect Hcons Hx Hrev Hfl Hmine Hzero -> Hfuel Hp
    (Hext & Hsound & Hclosed & Hdone & Hsock & Hflag & Hcnt).
  pose proof (ext_updCell_reveal b r c) as Hb1.
  pose proof (unrevealedCount_reveal _ _ _ _ Hx Hrev) as Hcnt1.
  set (b1 := updCell setIsRevealed b r c) in *.
  assert (ext b bi) as Hbbi by (eapply ext_trans; eauto).
  assert (isOpen b r c = true) as Hopen by (unfold isOpen; by rewrite Hx, Hrev, Hfl).
  assert (isZero b r c = true) as Hz
    by (unfold isZero; rewrite Hx; by apply bool_decide_eq_true).
  assert (isMineAt b r c = false) as Hm by (unfold isMineAt; by rewrite Hx).
  pose proof (nbrs_adj r c p Hp) as Hadj.
  eapply sat_mono; [apply IH | | done].
  - by eapply ext_rect.
  - by eapply ext_consistent.
  - intros _. rewrite (ext_isMineAt _ _ _ _ Hbbi). by apply (Hcons r c).
  - pose proof (ext_unrevealedCount _ _ Hext). lia.
  - intros s' b' (Hext' & Hsound' & Hself' & Hclosed' & Hsock' & Hflag' & Hcnt').
    assert (ext b b') as Hbb' by (eapply ext_trans; eauto).
    split; [eapply ext_trans; eauto|].
    split.
    { intros r' c' Hr'. destruct (Hsound' r' c' Hr') as [Hi | Hreach]; [by apply Hsound|].
      right. apply (Reach_via b r c (r + p.1) (c + p.2)); [done..|].
      eapply Reach_ext; [exact Hbbi | done]. }
    split.
    { intros r1 c1 r2 c2 Hr1 Hn1 Hne Hz1 Ha Ho2.
      destruct (isRev bi r1 c1) eqn:Hi1.
      - eapply ext_isRev; [exact Hext'|]. eapply Hclosed; eauto.
      - destruct (isOpen bi r2 c2) eqn:Ho2i.
        + eapply Hclosed'; eauto. by rewrite (ext_isZero _ _ _ _ Hbbi).
        + eapply ext_isRev; [exact Hext'|]. eapply ext_closed; eauto. }
    split.
    { intros q [Hq | ->%list_elem_of_singleton]%elem_of_app Hoq.
      - eapply ext_isRev; [exact Hext'|]. by apply Hdone.
      - destruct (isOpen bi (r + p.1) (c + p.2)) eqn:Hoi; [by apply Hself'|].
        eapply ext_isRev; [exact Hext'|]. eapply ext_closed; eauto. }
    split; [congruence|]. split; [congruence|].
    intros Hs Hf. specialize (Hcnt Hs Hf).
    rewrite Hsock, Hflag in Hcnt'. specialize (Hcnt' Hs Hf). lia.
Qed.

Lemma revealCell_fuel_flood fuel : ∀ env r c b st s,
  rect b → consistent b → (isOpen b r c = true → isMineAt b r c = false) →
  (unrevealedCount b < fuel)%nat →
  sat (revealCell_fuel fuel env r c b st s) (floodPost b r c s) False.
Proof.
  induction fuel as [|fuel IH]; intros env r c b st s Hrect Hcons Hsafe Hfuel; [lia|].
  destruct (revealCell_fuel_cases fuel env r c b st s)
    as [[-> Hno] | [[-> Hn] | (x & Hx & Hrev & Hfl & ->)]]; [| done |].
  { specialize (Hno Hrect). simpl. split; [apply ext_refl|].
    split; [by left|]. split; [congruence|]. split; [congruence|]. done. }
  assert (isOpen b r c = true) as Hopen by (unfold isOpen; by rewrite Hx, Hrev, Hfl).
  assert (isMine x = false) as Hmine.
  { specialize (Hsafe Hopen). unfold isMineAt in Hsafe. by rewrite Hx in Hsafe. }
  pose proof (ext_updCell_reveal b r c) as Hb1.
  pose proof (unrevealedCount_reveal _ _ _ _ Hx Hrev) as Hcnt1.
  pose proof (isRev_reveal b r c x) as Hrev1. specialize (λ r' c', Hrev1 r' c' Hx).
  unfold revealBody. rewrite Hmine.
  set (b1 := updCell setIsRevealed b r c) in *.
  (* the loop, or nothing when the count is not 0 *)
  eapply sat_bind with (Q1 := λ s' b', floodInv b b1 r c s
           (if decide (neighborMines x = 0) then nbrs else []) b' s').
  - assert (floodInv b b1 r c s [] b1 s) as Hinit.
    { split; [apply ext_refl|]. split.
      { intros r' c'. rewrite Hrev1. case_decide as Hd; [|by left].
        destruct Hd as [-> ->]. intros _. right. by apply Reach_start. }
      split.
      { intros r1 c1 r2 c2. rewrite Hrev1. case_decide; [done|]. congruence. }
      split; [by intros p ?%elem_of_nil|]. done. }
    case_decide as Hz; [|by apply sat_ret].
    apply (sat_forEachM (floodInv b b1 r c s) False) with (pre := []); [|done].
    intros pre p bi si Hp Hinv.
    eapply (floodInv_step fuel env st b b1 r c x); eauto. lia.
  - intros s2 b2 (Hext & Hsound & Hclosed & Hdone & Hsock & Hflag & Hcnt).
    destruct (flood_tail env b2 s2) as (s' & -> & _ & Hsock' & Hflag' & Hlen).
    simpl. split; [eapply ext_trans; eauto|]. split; [done|].
    split. { intros _. eapply ext_isRev; [exact Hext|]. rewrite Hrev1. by rewrite decide_True. }
    split.
    { intros r1 c1 r2 c2 Hr1 Hn1 Hz1 Ha Ho2.
      destruct (decide (r1 = r ∧ c1 = c)) as [[-> ->]|Hne]; [|eapply Hclosed; eauto].
      assert (neighborMines x = 0) as Hz.
      { unfold isZero in Hz1. rewrite Hx in Hz1. by apply bool_decide_eq_true in Hz1. }
      rewrite decide_True in Hdone by done.
      pose proof (Hdone _ (adj_nbrs _ _ _ _ Ha)) as Hd. simpl in Hd.
      replace (r + (r2 - r)) with r2 in Hd by lia.
      replace (c + (c2 - c)) with c2 in Hd by lia. by apply Hd. }
    split; [congruence|]. split; [congruence|].
    intros Hs Hf. specialize (Hcnt Hs Hf).
    rewrite Hsock, Hflag in Hlen. specialize (Hlen Hs Hf). lia.
Qed.

(** ** The win check *)

Lemma status_emitState env b x n t d s :
  status (emitState env b x n t d s).1 = status s.
Proof.
  unfold emitState, socketEmit. destruct (isRemoteUpdate s); [done|].
  by destruct (socket s).
Qed.

Lemma status_checkWin env b s :
  status (checkWin env b s).1 =
    if decide (revealedCount b
               = rows (CONFIGS (difficulty env)) * cols (CONFIGS (difficulty env))
                 - mines (CONFIGS (difficulty env)))
    then won else status s.
Proof.
  unfold checkWin. cbv zeta. case_decide.
  - rewrite bind_M. cbn [setStatus]. apply status_emitState.
  - apply status_emitState.
Qed.

(** ** Mine placement *)

Lemma filter_ne_notin {A} `{EqDecision A} (p : A) (l : list A) :
  p ∉ l → filter (λ q, q ≠ p) l = l.
Proof.
  induction l as [|x l IH]; [done|]. intros [Hx Hl]%not_elem_of_cons.
  rewrite filter_cons, decide_True by done. by rewrite IH.
Qed.

Lemma length_filter_ne_NoDup {A} `{EqDecision A} (p : A) (l : list A) :
  NoDup l → (length l ≤ S (length (filter (λ q, q ≠ p) l)))%nat.
Proof.
  induction l as [|x l IH]; [simpl; lia|]. intros [Hx Hl]%NoDup_cons.
  rewrite filter_cons. destruct (decide (x ≠ p)) as [Hne|Heq]; simpl.
  - specialize (IH Hl). lia.
  - assert (x = p) as -> by (destruct (decide (x = p)); [done | contradiction]).
    rewrite filter_ne_notin by done. lia.
Qed.

Lemma placeMines_ok config fr fc : ∀ rand b placed l,
  shape config b → Forall (inRange config) rand →
  NoDup l → l ⊆ rand →
  (∀ p, p ∈ l → isMineAt b p.1 p.2 = false ∧ p ≠ (fr, fc)) →
  mines config - placed ≤ Z.of_nat (length l) → placed ≤ mines config →
  ∃ b', placeMines config fr fc rand b placed = Ok b'
    ∧ boardRel mineExt b b'
    ∧ Z.of_nat (countMines b') = Z.of_nat (countMines b) + (mines config - placed)
    ∧ isMineAt b' fr fc = isMineAt b fr fc.
Proof.
  induction rand as [|[r c] rand IH]; intros b placed l Hshape Hrange Hnd Hsub Hacc Hlen Hle.
  - assert (l = []) as ->.
    { destruct l as [|p l]; [done|]. specialize (Hsub p (list_elem_of_here _ _)).
      by apply elem_of_nil in Hsub. }
    simpl in *. rewrite decide_False by lia. exists b.
    split; [done|]. split; [apply boardRel_refl, mineExt_refl|]. split; [lia|done].
  - simpl. destruct (decide (placed < mines config)) as [Hlt|Hge].
    2:{ exists b. split; [done|]. split; [apply boardRel_refl, mineExt_refl|].
        split; [lia|done]. }
    inversion Hrange as [|? ? Hrc Hrange']; subst.
    destruct (proj2 (shape_getCell config b r c Hshape) Hrc) as [x Hx].
    rewrite Hx. simpl.
    destruct (negb (isMine x) && (negb (bool_decide (r = fr)) || negb (bool_decide (c = fc))))
      eqn:Hcond.
    + (* accepted *)
      apply andb_true_iff in Hcond as [Hm Hne]. apply negb_true_iff in Hm.
      assert ((r, c) ≠ (fr, fc)) as Hne'.
      { intros [= -> ->]. rewrite !bool_decide_eq_true_2 in Hne by done. done. }
      destruct (IH (updCell setIsMine b r c) (placed + 1)
                   (filter (λ q, q ≠ (r, c)) l)) as (b' & Hb' & Hrel & Hcnt & Hfirst).
      * eapply boardRel_shape; [|exact Hshape].
        apply (boardRel_updCell mineExt); [apply mineExt_refl | by repeat split].
      * done.
      * by apply NoDup_filter.
      * intros p [Hp Hpl]%list_elem_of_filter.
        specialize (Hsub p Hpl). apply elem_of_cons in Hsub as [?|?]; done.
      * intros p [Hp Hpl]%list_elem_of_filter. destruct (Hacc p Hpl) as [Hpm Hpf].
        split; [|done]. rewrite (isMineAt_setIsMine _ _ _ _ _ _ Hx).
        rewrite decide_False; [done|]. intros [? ?]. apply Hp. by destruct p; simplify_eq/=.
      * pose proof (length_filter_ne_NoDup (r, c) l Hnd). lia.
      * lia.
      * exists b'. split; [done|]. split.
        { eapply boardRel_trans; [apply mineExt_trans | | exact Hrel].
          apply (boardRel_updCell mineExt); [apply mineExt_refl | by repeat split]. }
        split.
        { rewrite Hcnt, (countMines_setIsMine _ _ _ _ Hx Hm). lia. }
        rewrite Hfirst, (isMineAt_setIsMine _ _ _ _ _ _ Hx).
        rewrite decide_False; [done|]. intros [-> ->]. done.
    + (* rejected *)
      destruct (IH b placed l) as (b' & Hb' & Hrest); try done.
      * intros p Hpl. specialize (Hsub p Hpl).
        apply elem_of_cons in Hsub as [->|?]; [|done].
        destruct (Hacc _ Hpl) as [Hpm Hpf]. simpl in Hpm.
        unfold isMineAt in Hpm. rewrite Hx in Hpm. rewrite Hpm in Hcond. simpl in Hcond.
        apply orb_false_iff in Hcond as [H1%negb_false_iff H2%negb_false_iff].
        apply bool_decide_eq_true in H1, H2. subst. done.
      * by exists b'.
Qed.

(** ** Neighbour counts *)

Lemma countAround_sum config b r c :
  shape config b →
  countAround config b r c = Ok (foldr (λ p n, mineBit b r c p + n) 0 nbrs).
Proof.
  intros Hshape. unfold countAround.
  rewrite (forEachR_nested (λ dr dc count,
    if decide (r + dr >= 0 ∧ r + dr < rows config ∧ c + dc >= 0 ∧ c + dc < cols config)
    then cell ← defined (getCell b (r + dr) (c + dc));
         mret (if isMine cell then count + 1 else count)
    else mret count)).
  fold nbrs.
  assert (∀ l n, forEachM l (λ count p,
      if decide (r + p.1 >= 0 ∧ r + p.1 < rows config
                 ∧ c + p.2 >= 0 ∧ c + p.2 < cols config)
      then cell ← defined (getCell b (r + p.1) (c + p.2));
           mret (if isMine cell then count + 1 else count)
      else mret count) n
    = Ok (n + foldr (λ p n, mineBit b r c p + n) 0 l)) as Hloop.
  { induction l as [|p l IH]; intros n; simpl; [f_equal; lia|].
    pose proof (shape_getCell config b (r + p.1) (c + p.2) Hshape) as Hin.
    unfold inRange in Hin. simpl in Hin. unfold mineBit at 1, isMineAt.
    destruct (decide _) as [Hd|Hd].
    - destruct (proj2 Hin) as [x Hx]; [lia|]. rewrite Hx. simpl.
      rewrite IH. f_equal. destruct (isMine x); lia.
    - destruct (getCell b (r + p.1) (c + p.2)) as [x|] eqn:Hx.
      { exfalso. apply Hd. destruct (proj1 Hin (mk_is_Some _ _ eq_refl)). lia. }
      simpl. by rewrite IH. }
  by rewrite Hloop.
Qed.

Lemma countAround_bruteCount config b r c :
  shape config b → isMineAt b r c = false →
  countAround config b r c = Ok (bruteCount b r c).
Proof.
  intros Hshape Hm. rewrite (countAround_sum _ _ _ _ Hshape), bruteCount_sum.
  f_equal. unfold nbrs, neighbours8, offsets. simpl.
  unfold mineBit at 5. simpl. rewrite !Z.add_0_r, Hm. lia.
Qed.

Lemma bool_decide_snoc_ne (pre : list (Z * Z)) p q :
  p ≠ q → bool_decide (p ∈ pre ++ [q]) = bool_decide (p ∈ pre).
Proof.
  intros Hne. apply bool_decide_ext. rewrite elem_of_app, list_elem_of_singleton.
  split; [intros [?|?]; [done | contradiction] | by left].
Qed.

Lemma fillInv_step config b1 pre r c bi :
  shape config b1 → inRange config (r, c) → fillInv b1 pre bi →
  ∃ b',
    (cell ← defined (getCell bi r c);
     if negb (isMine cell) then
       count ← countAround config bi r c;
       mret (updCell (setNeighborMines count) bi r c)
     else mret bi) = Ok b'
    ∧ fillInv b1 (pre ++ [(r, c)]) b'.
Proof.
  intros Hshape Hrc [Hrel Hnm].
  pose proof (boardRel_shape _ _ _ _ Hrel Hshape) as Hshapei.
  destruct (proj2 (shape_getCell config bi r c Hshapei) Hrc) as [y Hy].
  destruct (boardRel_getCell_r _ _ _ _ _ _ Hrel Hy) as (x & Hx & Hxy).
  rewrite Hy. simpl. destruct (isMine y) eqn:Hm; simpl.
  - exists bi. split; [done|]. split; [done|].
    intros r' c' x' y' Hx' Hy'. rewrite (Hnm _ _ _ _ Hx' Hy').
    destruct (decide ((r', c') = (r, c))) as [[= -> ->]|Hne].
    + simplify_eq. destruct Hxy as (Hxm & _). rewrite <- Hxm, Hm.
      by rewrite !andb_false_r.
    + by rewrite (bool_decide_snoc_ne pre _ _ Hne).
  - rewrite countAround_bruteCount; [|done|by unfold isMineAt; rewrite Hy]. simpl.
    eexists. split; [done|]. split.
    + eapply boardRel_trans; [apply countExt_trans | exact Hrel |].
      apply (boardRel_updCell countExt); [apply countExt_refl | by repeat split].
    + intros r' c' x' y' Hx'. rewrite (getCell_updCell _ _ _ _ _ _ _ Hy).
      destruct (decide (r' = r ∧ c' = c)) as [[-> ->]|Hne].
      * intros [= <-]. simplify_eq. simpl. destruct Hxy as (Hxm & _).
        rewrite bool_decide_eq_true_2
          by (rewrite elem_of_app, list_elem_of_singleton; by right).
        rewrite <- Hxm, Hm. simpl. apply bruteCount_ext.
        intros. by apply countExt_isMineAt.
      * intros Hy'. rewrite (Hnm _ _ _ _ Hx' Hy').
        rewrite (bool_decide_snoc_ne pre (r', c') (r, c)); [done|].
        intros [= -> ->]. by apply Hne.
Qed.

Lemma fillNeighborMines_ok config b1 :
  shape config b1 →
  ∃ b2, fillNeighborMines config b1 = Ok b2 ∧ fillInv b1 (cellsOf config) b2.
Proof.
  intros Hshape. unfold fillNeighborMines.
  rewrite (forEachR_nested (λ r c b,
    cell ← defined (getCell b r c);
    if negb (isMine cell) then
      count ← countAround config b r c;
      mret (updCell (setNeighborMines count) b r c)
    else mret b)).
  fold (cellsOf config).
  apply (forEachR_inv (fillInv b1)) with (pre := []).
  - intros pre [r c] bi Hp%elem_of_cellsOf Hinv. simpl.
    by apply fillInv_step.
  - split; [apply boardRel_refl, countExt_refl|].
    intros r c x y Hx Hy. simplify_eq. done.
Qed.

Lemma shape_rect config b : shape config b → rect b.
Proof.
  intros [_ Hrows]. unfold rect. apply Forall_lookup. intros i row Hi.
  rewrite (proj1 (Forall_lookup _ _) Hrows i row Hi).
  destruct b as [|row0 b]; [done|]. simpl. symmetry.
  by apply (proj1 (Forall_lookup _ _) Hrows 0%nat row0).
Qed.

Lemma adj_neighbours8 r c r' c' :
  adj r c r' c' → (r' = r ∧ c' = c) ∨ (r' - r, c' - c) ∈ neighbours8.
Proof.
  unfold adj. intros [Hr Hc].
  assert (r' - r = -1 ∨ r' - r = 0 ∨ r' - r = 1) as Hr' by lia.
  assert (c' - c = -1 ∨ c' - c = 0 ∨ c' - c = 1) as Hc' by lia.
  destruct Hr' as [Er | [Er | Er]], Hc' as [Ec | [Ec | Ec]];
    try (left; lia); right; rewrite Er, Ec; unfold neighbours8;
    repeat first [apply list_elem_of_here | apply list_elem_of_further].
Qed.

(** Boards whose safe cells hold the brute-force count, as those
    [startGame] makes, are consistent. *)
Lemma counted_consistent b :
  (∀ r c x, getCell b r c = Some x → isMine x = false →
     neighborMines x = bruteCount b r c) →
  consistent b.
Proof.
  intros Hcnt r c r' c' Hm Hz Ha. unfold isZero, isMineAt in Hz, Hm.
  destruct (getCell b r c) as [x|] eqn:Hx; [|done].
  apply bool_decide_eq_true in Hz. rewrite (Hcnt _ _ _ Hx Hm) in Hz.
  destruct (adj_neighbours8 _ _ _ _ Ha) as [[-> ->] | Hin].
  { unfold isMineAt. by rewrite Hx. }
  unfold bruteCount in Hz.
  destruct (isMineAt b r' c') eqn:Hm'; [|done]. exfalso.
  assert ((r' - r, c' - c) ∈
            filter (λ p, isMineAt b (r + p.1) (c + p.2) = true) neighbours8) as Hf.
  { apply list_elem_of_filter. split; [|done]. simpl.
    replace (r + (r' - r)) with r' by lia.
    by replace (c + (c' - c)) with c' by lia. }
  destruct (filter _ neighbours8); [by apply elem_of_nil in Hf | simpl in Hz; lia].
Qed.

(** ** Flags *)


Lemma handleRightClick_undefined env r c remote s :
  status env = playing → getCell (board env) r c = None →
  handleRightClick env r c remote s = (s, TypeError).
Proof.
  intros Hs Hx. unfold handleRightClick.
  rewrite Hs. rewrite decide_False by (intros [?|[?|?]]; discriminate).
  by rewrite Hx.
Qed.



(** The two guards on the status: they read the status of the closure. *)
Lemma closure_guards_return env rand r c remote s :
  status env ≠ playing →
  handleRightClick env r c remote s = (s, Ok tt)
  ∧ (status env ≠ idle → handleCellClick env rand r c remote s = (s, Ok tt)).
Proof.
  intros Hs. split.
  - unfold handleRightClick.
    rewrite decide_True; [done|]. destruct (status env); auto. done.
  - intros Hi. unfold handleCellClick.
    rewrite decide_True; [done|]. destruct (status env); auto; done.
Qed.

Lemma handleRightClick_run env r c remote s x :
  status env = playing → getCell (board env) r c = Some x → isRevealed x = false →
  handleRightClick env r c remote s
  = (mkApp (difficulty s) (updCell toggleIsFlagged (board env) r c) (status s)
       (if negb (isFlagged x) then minesLeft env - 1 else minesLeft env + 1)
       (seconds s) (roomId s) (socket s) (isRemoteUpdate s) (timers s)
       (sent s
        ++ (if remote || negb (socket s) then [] else [CellFlag (roomId env) r c])
        ++ (if isRemoteUpdate s || negb (socket s) then []
            else [UpdateState (roomId env)
                    (mkSessionState (updCell toggleIsFlagged (board env) r c)
                       (status env)
                       (if negb (isFlagged x) then minesLeft env - 1
                        else minesLeft env + 1)
                       (seconds env) (difficulty env))])),
     Ok tt).
Proof.
  intros Hst Hx Hrev. unfold handleRightClick.
  rewrite decide_False by (rewrite Hst; intros [?|[?|?]]; discriminate).
  rewrite Hx. cbn [defined]. rewrite bind_liftRes_Ok, Hrev. cbv zeta.
  destruct remote, (socket s) eqn:Hs, (isRemoteUpdate s) eqn:Hg;
    unfold emitState, socketEmit; munfold; setters; simpl;
    rewrite ?Hs, ?Hg; simpl; rewrite ?Hs; simpl;
    rewrite ?app_nil_r, <- ?app_assoc; done.
Qed.


(** ** The closure of the listeners *)

Lemma mounted_eq room :
  mounted room
  = mkApp beginner (blankBoard (CONFIGS beginner)) idle 10 0 room false false 0 [].
Proof. reflexivity. Qed.

Lemma listener_ignores_flags room rand r c u s :
  onMessage (mounted room) rand (Relay.remote_flag r c u) s = (s, Ok tt).
Proof.
  cbn [onMessage]. by apply (closure_guards_return (mounted room) rand r c true s).
Qed.

(** * The claims *)

(** C1, as amended.  Whatever the configuration (with a number of mines
    that is not negative) and the excluded cell, and for every random
    source that only gives positions of the grid and gives at least [mines]
    different ones other than the excluded cell, the two phases of
    [startGame] on the blank board return a board of the configuration's
    dimensions with exactly [mines] mines, none of them on the excluded
    cell; every cell that is not a mine holds the brute-force count of the
    mines among its neighbours, and every mine holds 0, the count being
    skipped for mines. *)
Theorem generate_correct (config : GameConfig) (firstRow firstCol : Z)
    (rand : list (Z * Z)) :
  0 ≤ mines config →
  Forall (inRange config) rand →
  mines config ≤
    Z.of_nat (length (remove_dups (filter (λ p, p ≠ (firstRow, firstCol)) rand))) →
  ∃ b,
    placeMines config firstRow firstCol rand (blankBoard config) 0
      ≫= fillNeighborMines config = Ok b
    ∧ shape config b
    ∧ Z.of_nat (countMines b) = mines config
    ∧ isMineAt b firstRow firstCol = false
    ∧ ∀ r c x, getCell b r c = Some x →
        neighborMines x = if isMine x then 0 else bruteCount b r c.
Proof.
  intros Hmines Hrange Hpicks.
  set (l := remove_dups (filter (λ p, p ≠ (firstRow, firstCol)) rand)) in *.
  assert (∀ r c, isMineAt (blankBoard config) r c = false) as Hblank.
  { intros r c. unfold isMineAt.
    destruct (getCell (blankBoard config) r c) as [x|] eqn:Hx; [|done].
    by rewrite (getCell_blankBoard _ _ _ _ Hx). }
  destruct (placeMines_ok config firstRow firstCol rand (blankBoard config) 0 l)
    as (b1 & Hb1 & Hrel1 & Hcnt1 & Hfirst1).
  - apply shape_blankBoard.
  - done.
  - apply NoDup_remove_dups.
  - intros p Hp. unfold l in Hp.
    rewrite elem_of_remove_dups, list_elem_of_filter in Hp. by destruct Hp.
  - intros p Hp. unfold l in Hp.
    rewrite elem_of_remove_dups, list_elem_of_filter in Hp. destruct Hp. by split.
  - lia.
  - lia.
  - pose proof (boardRel_shape _ _ _ _ Hrel1 (shape_blankBoard config)) as Hshape1.
    destruct (fillNeighborMines_ok config b1 Hshape1) as (b2 & Hb2 & Hrel2 & Hnm).
    exists b2. rewrite Hb1. split; [done|].
    pose proof (boardRel_shape _ _ _ _ Hrel2 Hshape1) as Hshape2.
    split; [done|]. split.
    { rewrite (countExt_countMines _ _ Hrel2), Hcnt1, countMines_blankBoard. lia. }
    split.
    { by rewrite (countExt_isMineAt _ _ _ _ Hrel2), Hfirst1. }
    intros r c y Hy.
    destruct (boardRel_getCell_r _ _ _ _ _ _ Hrel2 Hy) as (x & Hx & (Hm & _)).
    rewrite (Hnm _ _ _ _ Hx Hy), Hm.
    rewrite bool_decide_eq_true_2.
    2:{ apply elem_of_cellsOf, (shape_getCell config b2 r c Hshape2). eauto. }
    destruct (isMine x); simpl.
    + destruct (boardRel_getCell_r _ _ _ _ _ _ Hrel1 Hx) as (x0 & Hx0 & (_ & _ & -> & _)).
      by rewrite (getCell_blankBoard _ _ _ _ Hx0).
    + symmetry. apply bruteCount_ext. intros. by apply countExt_isMineAt.
Qed.

(** The beginner configuration, the corner excluded, the picks
    [bottomRowPicks]. *)
Lemma generate_correct_witness :
  ∃ b,
    placeMines (CONFIGS beginner) 0 0 bottomRowPicks (blankBoard (CONFIGS beginner)) 0
      ≫= fillNeighborMines (CONFIGS beginner) = Ok b
    ∧ shape (CONFIGS beginner) b
    ∧ Z.of_nat (countMines b) = mines (CONFIGS beginner)
    ∧ isMineAt b 0 0 = false
    ∧ ∀ r c x, getCell b r c = Some x →
        neighborMines x = if isMine x then 0 else bruteCount b r c.
Proof.
  apply (generate_correct (CONFIGS beginner) 0 0 bottomRowPicks).
  - simpl. lia.
  - repeat (constructor; [unfold inRange; simpl; lia|]). constructor.
  - vm_compute. discriminate.
Defined.

(** C1 as stated fails: with the picks [bottomRowPicks] the mine at
    [(8, 0)] has two mines among its neighbours and holds 0. *)
Lemma generate_mine_count_stays_zero :
  ∃ b x,
    placeMines (CONFIGS beginner) 0 0 bottomRowPicks (blankBoard (CONFIGS beginner)) 0
      ≫= fillNeighborMines (CONFIGS beginner) = Ok b
    ∧ getCell b 8 0 = Some x
    ∧ neighborMines x = 0
    ∧ bruteCount b 8 0 = 2.
Proof.
  eexists _, _. split; [vm_compute; reflexivity|].
  split; [vm_compute; reflexivity|]. split; vm_compute; reflexivity.
Qed.

(** C2, as amended.  On a grid where no safe cell of count 0 has a mine
    next to it, revealing a cell that exists, is not a mine and is neither
    revealed nor flagged returns, and reveals exactly the cells linked to
    it by a chain of adjacent cells that are all neither revealed nor
    flagged and all but the last of count 0: revealed and flagged cells
    are skipped and the fill does not go through them.  Every other field
    of every cell is unchanged.  Each cell is revealed once: with the socket
    connected and the echo guard down, as many messages are sent as cells
    become revealed, one by each call that passes the guard. *)
Theorem flood_fill_reveals_reachable env r c b st s :
  rect b → consistent b → isOpen b r c = true → isMineAt b r c = false →
  ∃ s' b',
    revealCell env r c b st s = (s', Ok b')
    ∧ ext b b'
    ∧ (∀ r' c', isRev b' r' c' = true ↔ isRev b r' c' = true ∨ Reach b r c r' c')
    ∧ (socket s = true → isRemoteUpdate s = false →
       (length (sent s') + countRevealed b = length (sent s) + countRevealed b')%nat).
Proof.
  intros Hrect Hcons Hopen Hsafe.
  pose proof (revealCell_fuel_flood (S (unrevealedCount b)) env r c b st s
                Hrect Hcons (λ _, Hsafe) (Nat.lt_succ_diag_r _)) as Hsat.
  unfold revealCell. destruct (revealCell_fuel _ env r c b st s) as [s' [b'| |]];
    simpl in Hsat; [|done..].
  destruct Hsat as (Hext & Hsound & Hself & Hclosed & _ & _ & Hcnt).
  exists s', b'. split; [done|]. split; [done|]. split.
  - intros r' c'. split; [apply Hsound|]. intros [Hr | Hreach].
    + by eapply ext_isRev.
    + assert (isRev b' r' c' = true ∧ isRev b r' c' = false) as [? _]; [|done].
      induction Hreach as [Ho | r1 c1 r2 c2 _ [IH1 IH2] Hz Ha Ho].
      * split; [by apply Hself | by apply isOpen_not_isRev].
      * split; [by eapply Hclosed | by apply isOpen_not_isRev].
  - intros Hs Hf. specialize (Hcnt Hs Hf).
    pose proof (count_split b). pose proof (count_split b').
    pose proof (ext_cellCount _ _ Hext). lia.
Qed.

(** A row of two blank cells, the left one clicked. *)
Lemma flood_fill_witness :
  ∃ s' b',
    revealCell (someApp beginner [[blankCell; blankCell]] playing) 0 0
      [[blankCell; blankCell]] playing
      (someApp beginner [[blankCell; blankCell]] playing) = (s', Ok b')
    ∧ ext [[blankCell; blankCell]] b'
    ∧ (∀ r' c', isRev b' r' c' = true ↔
         isRev [[blankCell; blankCell]] r' c' = true
         ∨ Reach [[blankCell; blankCell]] 0 0 r' c')
    ∧ (socket (someApp beginner [[blankCell; blankCell]] playing) = true →
       isRemoteUpdate (someApp beginner [[blankCell; blankCell]] playing) = false →
       (length (sent s') + countRevealed [[blankCell; blankCell]]
        = length (sent (someApp beginner [[blankCell; blankCell]] playing))
          + countRevealed b')%nat).
Proof.
  apply flood_fill_reveals_reachable.
  - repeat constructor.
  - intros r c r' c' _ _ _. unfold isMineAt, getCell, jsIndex.
    destruct (decide (0 ≤ r')); [|done]. simpl.
    destruct (Z.to_nat r') as [|[|n]]; simpl; [|done..].
    destruct (decide (0 ≤ c')); [|done].
    destruct (Z.to_nat c') as [|[|[|m]]]; done.
  - reflexivity.
  - reflexivity.
Defined.

(** C2 as stated fails: in [flaggedGame] the cell [(2, 5)] belongs to the
    zero-region of [(0, 8)] and stays hidden when [(0, 8)] is revealed,
    because it is flagged. *)
Lemma flood_fill_stops_at_flag :
  ∃ s' b',
    revealCell flaggedGame 0 8 (board flaggedGame) playing flaggedGame = (s', Ok b')
    ∧ isZero (board flaggedGame) 0 8 = true
    ∧ ZeroRegion (board flaggedGame) 0 8 2 5
    ∧ isRev b' 2 5 = false.
Proof.
  eexists _, _. split; [vm_compute; reflexivity|]. split; [reflexivity|].
  split; [|reflexivity].
  apply (ZeroRegion_step _ _ _ 2 6); [|unfold adj; lia | reflexivity].
  apply (ZeroRegion_step _ _ _ 1 7); [|unfold adj; lia | reflexivity].
  apply (ZeroRegion_step _ _ _ 0 8); [|unfold adj; lia | reflexivity].
  by apply ZeroRegion_start.
Qed.

(** C3.  In a game that is playing, on a grid, a click on a cell that is a
    mine and is neither revealed nor flagged returns, sets the status to
    lost, and leaves every mine of the board revealed; nothing else of
    any cell changes. *)
Theorem reveal_mine_loses rand r c remote s x :
  status s = playing → rect (board s) → getCell (board s) r c = Some x →
  isMine x = true → isRevealed x = false → isFlagged x = false →
  ∃ s', handleCellClick s rand r c remote s = (s', Ok tt)
    ∧ status s' = lost
    ∧ ext (board s) (board s')
    ∧ ∀ r' c', isMineAt (board s') r' c' = true → isRev (board s') r' c' = true.
Proof.
  intros Hst Hrect Hx Hm Hr Hf. unfold handleCellClick. rewrite Hst.
  rewrite decide_False by (intros [?|?]; discriminate).
  rewrite bind_M.
  destruct (returns_when_socketEmit (negb remote) (CellClick (roomId s) r c) s)
    as (s1 & -> & _).
  rewrite decide_False by discriminate. cbv zeta. rewrite bind_M.
  destruct (revealCell_mine s r c (board s) playing s1 x Hrect Hx Hm Hr Hf)
    as (s2 & -> & _ & Hlost).
  eexists. split; [reflexivity|]. simpl. split; [done|]. split.
  - eapply ext_trans; [apply ext_updCell_reveal | apply ext_revealMines].
  - apply revealMines_all.
Qed.

Lemma reveal_mine_loses_witness :
  ∃ s', handleCellClick (someApp beginner mineAndBlank playing) [] 0 0 false
          (someApp beginner mineAndBlank playing) = (s', Ok tt)
    ∧ status s' = lost
    ∧ ext (board (someApp beginner mineAndBlank playing)) (board s')
    ∧ ∀ r' c', isMineAt (board s') r' c' = true → isRev (board s') r' c' = true.
Proof.
  apply (reveal_mine_loses [] 0 0 false (someApp beginner mineAndBlank playing)
           (mkCell true false false 0)); try reflexivity.
  repeat constructor.
Defined.

(** C4.  Unless the status was already won, the status after [checkWin] is
    won exactly when the number of revealed cells is
    [rows * cols - mines] for the configuration of the difficulty; and
    boards that differ only in their flags get the same status. *)
Theorem checkWin_counts_revealed env b s :
  status s ≠ won →
  (status (checkWin env b s).1 = won ↔
     Z.of_nat (countRevealed b)
     = rows (CONFIGS (difficulty env)) * cols (CONFIGS (difficulty env))
       - mines (CONFIGS (difficulty env)))
  ∧ ∀ b', boardRel sameButFlag b b' →
      status (checkWin env b' s).1 = status (checkWin env b s).1.
Proof.
  intros Hs. split.
  - rewrite status_checkWin, revealedCount_countRevealed. case_decide; split; done.
  - intros b' Hb'. rewrite !status_checkWin, !revealedCount_countRevealed.
    by rewrite (sameButFlag_countRevealed _ _ Hb').
Qed.

Lemma checkWin_counts_revealed_witness :
  (status (checkWin (someApp beginner [] playing) mineAndBlank
             (someApp beginner [] playing)).1 = won ↔
     Z.of_nat (countRevealed mineAndBlank)
     = rows (CONFIGS beginner) * cols (CONFIGS beginner) - mines (CONFIGS beginner))
  ∧ ∀ b', boardRel sameButFlag mineAndBlank b' →
      status (checkWin (someApp beginner [] playing) b' (someApp beginner [] playing)).1
      = status (checkWin (someApp beginner [] playing) mineAndBlank
                  (someApp beginner [] playing)).1.
Proof.
  apply (checkWin_counts_revealed (someApp beginner [] playing) mineAndBlank
           (someApp beginner [] playing)).
  simpl. discriminate.
Defined.




(** C7, where the code departs from the claim.  Both handlers return at
    once when the status of their closure is won or lost
    ([closure_guards_return]), and the grid calls the handler of the latest
    render: in [lostSession], reached from the mount by a first click and
    a click on a mine, a click on the grid is ignored.  The socket
    listeners are registered once and go on calling the handler of the
    mount, whose closure is idle: the [remote-click] that arrives in
    [lostSession] is not ignored.  It lays new mines on a blank board,
    reveals the cell and leaves the status playing, with the mines that
    the loss had shown hidden again. *)
Theorem remote_click_restarts_lost_session :
  status lostSession = lost
  ∧ isRev (board lostSession) 0 1 = true
  ∧ handleCellClick lostSession cornerPicks 0 0 false lostSession
    = (lostSession, Ok tt)
  ∧ ∃ s',
      onMessage (mounted "room") cornerPicks (Relay.remote_click 0 0 None) lostSession
      = (s', Ok tt)
      ∧ status s' = playing
      ∧ countRevealed (board s') = 1%nat
      ∧ countMines (board s') = 10%nat
      ∧ isRev (board s') 0 1 = false.
Proof.
  split; [by vm_compute|]. split; [by vm_compute|].
  split.
  { apply (closure_guards_return lostSession cornerPicks 0 0 false lostSession);
      by vm_compute. }
  eexists. split; [vm_compute; reflexivity|].
  repeat split; vm_compute; reflexivity.
Qed.

(** C8.  On [update-state] the relay stores the state received as the
    room's entry, whatever was or was not there, leaves the other rooms and
    the memberships alone, and sends [sync-state] with that state once to
    every socket of the room other than the sender, and to nobody else. *)
Theorem relay_update_state {State : Type} (srv : Relay.Server State)
    (socketId roomId : string) (state : State) :
  Relay.rooms (Relay.on srv socketId (Relay.update_state roomId state)).1 !! roomId
    = Some state
  ∧ (∀ other, other ≠ roomId →
       Relay.rooms (Relay.on srv socketId (Relay.update_state roomId state)).1 !! other
       = Relay.rooms srv !! other)
  ∧ Relay.members (Relay.on srv socketId (Relay.update_state roomId state)).1
    = Relay.members srv
  ∧ (∀ id m, (id, m) ∈ (Relay.on srv socketId (Relay.update_state roomId state)).2 ↔
       id ∈ Relay.socketsIn srv roomId ∧ id ≠ socketId ∧ m = Relay.sync_state state)
  ∧ NoDup (Relay.on srv socketId (Relay.update_state roomId state)).2.
Proof.
  simpl. split; [apply lookup_insert_eq|].
  split; [intros other Hne; by apply lookup_insert_ne|]. split; [done|]. split.
  - intros id m. unfold Relay.toRoom. rewrite list_elem_of_fmap. split.
    + intros (id' & [= -> ->] & Hid). apply elem_of_elements in Hid.
      apply elem_of_difference in Hid as [Hin Hne].
      rewrite elem_of_singleton in Hne. done.
    + intros (Hid & Hne & ->). exists id. split; [done|].
      apply elem_of_elements, elem_of_difference.
      by rewrite elem_of_singleton.
  - unfold Relay.toRoom. apply NoDup_fmap_2; [|apply NoDup_elements].
    by intros id1 id2 [= ->].
Qed.

(** C9.  After a [sync-state] has been applied, and for as long as no
    timeout callback runs, the echo guard stays up through every callback,
    whatever closure it runs with; none of them sends an [update-state];
    and any call of [emitState] does nothing. *)
Theorem echo_guard_suppresses_updates (state : SessionState) (ks : list Call) (s : App) :
  Forall (λ k, isTimeout k = false) ks →
  isRemoteUpdate (runCalls ks (onSyncState state s).1) = true
  ∧ updates (sent (runCalls ks (onSyncState state s).1)) = updates (sent s)
  ∧ ∀ env b x n t d,
      emitState env b x n t d (runCalls ks (onSyncState state s).1)
      = (runCalls ks (onSyncState state s).1, Ok tt).
Proof.
  intros Hks. destruct (onSyncState_raises state s) as [Hup Hsent].
  destruct (quiet_runCalls ks _ Hks Hup) as [Hflag Hupd].
  split; [exact Hflag|]. split.
  - rewrite Hupd. by rewrite Hsent.
  - intros. by apply emitState_suppressed.
Qed.

Lemma echo_guard_suppresses_updates_witness :
  isRemoteUpdate
    (runCalls clickThenFlag
       (onSyncState (mkSessionState (blankBoard (CONFIGS beginner)) idle 10 0 beginner)
          (newSession beginner)).1) = true
  ∧ updates (sent
      (runCalls clickThenFlag
         (onSyncState (mkSessionState (blankBoard (CONFIGS beginner)) idle 10 0 beginner)
            (newSession beginner)).1)) = updates (sent (newSession beginner))
  ∧ ∀ env b x n t d,
      emitState env b x n t d
        (runCalls clickThenFlag
           (onSyncState (mkSessionState (blankBoard (CONFIGS beginner)) idle 10 0 beginner)
              (newSession beginner)).1)
      = (runCalls clickThenFlag
           (onSyncState (mkSessionState (blankBoard (CONFIGS beginner)) idle 10 0 beginner)
              (newSession beginner)).1, Ok tt).
Proof.
  apply echo_guard_suppresses_updates. repeat constructor.
Defined.

(** C10.  [revealCell] never diverges, throws only on a board that is not
    a grid, and otherwise returns the board it was given with the same
    shape and, in every cell, the same [isMine], [isFlagged] and
    [neighborMines]; a revealed cell stays revealed. *)
Theorem revealCell_only_reveals env r c b st s :
  match revealCell env r c b st s with
  | (_, Ok b') => ext b b'
  | (_, TypeError) => ¬ rect b
  | (_, Diverge) => False
  end.
Proof.
  apply (revealCell_fuel_ext (S (unrevealedCount b)) env r c b st s). lia.
Qed.

(** * Further properties *)

(** ** The relay *)

Lemma elem_of_toRoom {State} (srv : Relay.Server State) socketId roomId m id m' :
  (id, m') ∈ Relay.toRoom srv socketId roomId m ↔
  id ∈ Relay.socketsIn srv roomId ∧ id ≠ socketId ∧ m' = m.
Proof.
  unfold Relay.toRoom. rewrite list_elem_of_fmap. split.
  - intros (id' & [= -> ->] & Hid). apply elem_of_elements in Hid.
    apply elem_of_difference in Hid as [Hin Hne].
    rewrite elem_of_singleton in Hne. done.
  - intros (Hid & Hne & ->). exists id. split; [done|].
    apply elem_of_elements, elem_of_difference. by rewrite elem_of_singleton.
Qed.

Lemma socketsIn_join {State} (srv : Relay.Server State) socketId roomId other :
  Relay.socketsIn (Relay.join srv socketId roomId) other
  = if decide (other = roomId) then {[socketId]} ∪ Relay.socketsIn srv roomId
    else Relay.socketsIn srv other.
Proof.
  unfold Relay.socketsIn, Relay.join. simpl. case_decide as Hd.
  - subst. by rewrite lookup_insert_eq.
  - by rewrite lookup_insert_ne.
Qed.

Lemma NoDup_toRoom {State} (srv : Relay.Server State) socketId roomId m :
  NoDup (Relay.toRoom srv socketId roomId m).
Proof.
  unfold Relay.toRoom. apply NoDup_fmap_2; [|apply NoDup_elements].
  by intros id1 id2 [= ->].
Qed.

Lemma rooms_kept {State} (srv : Relay.Server State) socketId e roomId :
  writesRoom roomId e = false →
  Relay.rooms (Relay.on srv socketId e).1 !! roomId = Relay.rooms srv !! roomId.
Proof.
  destruct e as [room|room st|room r c u|room r c u|room|]; simpl; try done.
  - intros Hw%bool_decide_eq_false. by rewrite lookup_insert_ne.
  - intros Hw%bool_decide_eq_false. by rewrite lookup_delete_ne.
Qed.

Lemma relayRun_rooms_kept {State} (es : list (string * Relay.Incoming State)) srv roomId :
  Forall (λ e, writesRoom roomId e.2 = false) es →
  Relay.rooms (relayRun es srv) !! roomId = Relay.rooms srv !! roomId.
Proof.
  revert srv. induction es as [|e es IH]; intros srv Hes; [done|].
  inversion Hes; subst. simpl. rewrite IH by done. by apply rooms_kept.
Qed.

(** X1.  A socket that joins becomes a member of the room, keeps its other
    memberships as everybody else, leaves the stored states as they are, and
    is sent the stored state of the room, alone, when there is one, and
    nothing when there is none. *)
Theorem relay_join_hydrates {State} (srv : Relay.Server State) socketId roomId :
  Relay.rooms (Relay.on srv socketId (Relay.join_room roomId)).1 = Relay.rooms srv
  ∧ Relay.socketsIn (Relay.on srv socketId (Relay.join_room roomId)).1 roomId
    = {[socketId]} ∪ Relay.socketsIn srv roomId
  ∧ (∀ other, other ≠ roomId →
       Relay.socketsIn (Relay.on srv socketId (Relay.join_room roomId)).1 other
       = Relay.socketsIn srv other)
  ∧ (∀ state, Relay.rooms srv !! roomId = Some state →
       (Relay.on srv socketId (Relay.join_room roomId)).2
       = [(socketId, Relay.sync_state state)])
  ∧ (Relay.rooms srv !! roomId = None →
       (Relay.on srv socketId (Relay.join_room roomId)).2 = []).
Proof.
  simpl. split; [done|]. split.
  { rewrite socketsIn_join. by rewrite decide_True. }
  split.
  { intros other Hne. rewrite socketsIn_join. by rewrite decide_False. }
  split; [by intros state ->|by intros ->].
Qed.

(** X2.  Whoever joins a room after an [update-state] for it, and before
    any other [update-state] or [reset-game] for it, is sent exactly the
    state of that update, whatever else the relay handled in between. *)
Theorem relay_late_joiner_gets_last_update {State} (srv : Relay.Server State)
    (es : list (string * Relay.Incoming State)) sender joiner roomId state :
  Forall (λ e, writesRoom roomId e.2 = false) es →
  (Relay.on (relayRun es (Relay.on srv sender (Relay.update_state roomId state)).1)
     joiner (Relay.join_room roomId)).2
  = [(joiner, Relay.sync_state state)].
Proof.
  intros Hes. cbn [Relay.on]. cbn [Relay.join Relay.rooms snd].
  rewrite (relayRun_rooms_kept es _ roomId Hes). simpl.
  by rewrite lookup_insert_eq.
Qed.

Lemma relay_late_joiner_gets_last_update_witness :
  (Relay.on (relayRun [("b", Relay.cell_click "r" 1 2 None);
                       ("a", Relay.update_state "other" 7%nat)]
               (Relay.on (Relay.mkServer ∅ ∅) "a" (Relay.update_state "r" 5%nat)).1)
     "c" (Relay.join_room "r")).2
  = [("c", Relay.sync_state 5%nat)].
Proof.
  apply relay_late_joiner_gets_last_update. repeat constructor.
Defined.

(** X3.  [reset-game] deletes the entry of the room and no other, tells
    every other socket of the room to reset, once, and not the sender; and
    whoever joins the room before the next [update-state] for it is sent
    nothing. *)
Theorem relay_reset_forgets {State} (srv : Relay.Server State)
    (es : list (string * Relay.Incoming State)) sender joiner roomId :
  Forall (λ e, writesRoom roomId e.2 = false) es →
  Relay.rooms (Relay.on srv sender (Relay.reset_game roomId)).1 !! roomId = None
  ∧ (∀ other, other ≠ roomId →
       Relay.rooms (Relay.on srv sender (Relay.reset_game roomId)).1 !! other
       = Relay.rooms srv !! other)
  ∧ (∀ id m, (id, m) ∈ (Relay.on srv sender (Relay.reset_game roomId)).2 ↔
       id ∈ Relay.socketsIn srv roomId ∧ id ≠ sender ∧ m = Relay.remote_reset)
  ∧ NoDup (Relay.on srv sender (Relay.reset_game roomId)).2
  ∧ (Relay.on (relayRun es (Relay.on srv sender (Relay.reset_game roomId)).1)
       joiner (Relay.join_room roomId)).2 = [].
Proof.
  intros Hes. split; [apply lookup_delete_eq|].
  split; [intros other Hne; by apply lookup_delete_ne|].
  split; [intros id m; apply elem_of_toRoom|]. split.
  { simpl. unfold Relay.toRoom. apply NoDup_fmap_2; [|apply NoDup_elements].
    by intros id1 id2 [= ->]. }
  cbn [Relay.on]. cbn [Relay.join Relay.rooms snd].
  rewrite (relayRun_rooms_kept es _ roomId Hes). simpl.
  by rewrite lookup_delete_eq.
Qed.

Lemma relay_reset_forgets_witness :
  Relay.rooms (Relay.on (Relay.mkServer {["r" := 5%nat]} ∅) "a" (Relay.reset_game "r")).1
    !! "r" = None
  ∧ (∀ other, other ≠ "r" →
       Relay.rooms (Relay.on (Relay.mkServer {["r" := 5%nat]} ∅) "a"
                      (Relay.reset_game "r")).1 !! other
       = Relay.rooms (Relay.mkServer {["r" := 5%nat]} ∅) !! other)
  ∧ (∀ id m, (id, m) ∈ (Relay.on (Relay.mkServer {["r" := 5%nat]} ∅) "a"
                          (Relay.reset_game "r")).2 ↔
       id ∈ Relay.socketsIn (Relay.mkServer {["r" := 5%nat]} ∅) "r"
       ∧ id ≠ "a" ∧ m = Relay.remote_reset)
  ∧ NoDup (Relay.on (Relay.mkServer {["r" := 5%nat]} ∅) "a" (Relay.reset_game "r")).2
  ∧ (Relay.on (relayRun [("b", Relay.cell_flag "r" 0 0 None)]
                 (Relay.on (Relay.mkServer {["r" := 5%nat]} ∅) "a"
                    (Relay.reset_game "r")).1)
       "c" (Relay.join_room "r")).2 = [].
Proof.
  apply (relay_reset_forgets (Relay.mkServer {["r" := 5%nat]} ∅)
           [("b", Relay.cell_flag "r" 0 0 None)] "a" "c" "r").
  repeat constructor.
Defined.

(** X4.  Whatever the event, the relay sends nothing to a socket outside
    the room the event names, nothing back to the sender unless the event
    is its own [join-room], whose reply goes to nobody else, and leaves
    the stored state of every other room as it is. *)
Theorem relay_keeps_to_the_room {State} (srv : Relay.Server State) socketId
    (e : Relay.Incoming State) :
  (∀ id m, (id, m) ∈ (Relay.on srv socketId e).2 →
     if isJoin e then id = socketId
     else id ≠ socketId
          ∧ ∃ roomId, roomOf e = Some roomId ∧ id ∈ Relay.socketsIn srv roomId)
  ∧ (∀ other, roomOf e ≠ Some other →
       Relay.rooms (Relay.on srv socketId e).1 !! other = Relay.rooms srv !! other).
Proof.
  split.
  - intros id m. destruct e as [room|room st|room r c u|room r c u|room|]; simpl.
    + destruct (Relay.rooms srv !! room); [|by intros ?%elem_of_nil].
      by intros [= -> ->]%list_elem_of_singleton.
    + intros (? & ? & _)%elem_of_toRoom. eauto.
    + intros (? & ? & _)%elem_of_toRoom. eauto.
    + intros (? & ? & _)%elem_of_toRoom. eauto.
    + intros (? & ? & _)%elem_of_toRoom. eauto.
    + by intros ?%elem_of_nil.
  - intros other Hne.
    destruct e as [room|room st|room r c u|room r c u|room|]; simpl in *; try done.
    + apply lookup_insert_ne. congruence.
    + apply lookup_delete_ne. congruence.
Qed.

(** X5.  A click or flag notice goes, with the coordinates the client gave,
    once to every other socket of the room and to nobody else, and changes
    nothing at the relay. *)
Theorem relay_forwards_notices (srv : Relay.Server SessionState) socketId roomId r c :
  (Relay.on srv socketId (toRelay (CellClick roomId r c))).1 = srv
  ∧ (Relay.on srv socketId (toRelay (CellFlag roomId r c))).1 = srv
  ∧ (∀ id m, (id, m) ∈ (Relay.on srv socketId (toRelay (CellClick roomId r c))).2 ↔
       id ∈ Relay.socketsIn srv roomId ∧ id ≠ socketId
       ∧ m = Relay.remote_click r c None)
  ∧ NoDup (Relay.on srv socketId (toRelay (CellClick roomId r c))).2
  ∧ (∀ id m, (id, m) ∈ (Relay.on srv socketId (toRelay (CellFlag roomId r c))).2 ↔
       id ∈ Relay.socketsIn srv roomId ∧ id ≠ socketId
       ∧ m = Relay.remote_flag r c None)
  ∧ NoDup (Relay.on srv socketId (toRelay (CellFlag roomId r c))).2.
Proof.
  split; [done|]. split; [done|].
  split; [intros id m; apply elem_of_toRoom|].
  split; [apply NoDup_toRoom|].
  split; [intros id m; apply elem_of_toRoom|]. apply NoDup_toRoom.
Qed.

(** ** Client and relay together *)

Lemma inboxOf_app {State} id (l k : list (string * Relay.Outgoing State)) :
  inboxOf id (l ++ k) = inboxOf id l ++ inboxOf id k.
Proof. unfold inboxOf. by rewrite filter_app, fmap_app. Qed.

Lemma inboxOf_toRoom {State} (srv : Relay.Server State) socketId roomId m id :
  inboxOf id (Relay.toRoom srv socketId roomId m)
  = if decide (id ∈ Relay.socketsIn srv roomId ∧ id ≠ socketId) then [m] else [].
Proof.
  unfold inboxOf, Relay.toRoom.
  assert (Hl : ∀ l : list string, NoDup l →
            (filter (λ p : string * Relay.Outgoing State, p.1 = id)
                    ((λ i, (i, m)) <$> l)).*2
            = if decide (id ∈ l) then [m] else []).
  { induction l as [|i l IH]; intros Hnd; [done|].
    inversion Hnd as [|i' l' Hi Hnd']; subst. specialize (IH Hnd').
    rewrite fmap_cons, filter_cons. simpl.
    destruct (decide (i = id)) as [->|Hne].
    - rewrite decide_True by left. rewrite fmap_cons, IH.
      by rewrite (decide_False (P := id ∈ l)).
    - rewrite IH. destruct (decide (id ∈ l)) as [Hin|Hin].
      + by rewrite decide_True by by right.
      + rewrite decide_False; [done|]. by intros [?|?]%elem_of_cons. }
  rewrite Hl by apply NoDup_elements.
  destruct (decide (id ∈ Relay.socketsIn srv roomId ∧ id ≠ socketId)) as [[H1 H2]|Hn].
  - rewrite decide_True; [done|].
    apply elem_of_elements, elem_of_difference. split; [done|].
    by rewrite elem_of_singleton.
  - rewrite decide_False; [done|].
    intros [H1 H2]%elem_of_elements%elem_of_difference.
    apply Hn. split; [done|]. by rewrite elem_of_singleton in H2.
Qed.

Lemma newlySent_app s s' l : sent s' = sent s ++ l → newlySent s s' = l.
Proof. unfold newlySent. intros ->. apply drop_app_length. Qed.

Lemma snapshotOf_onSyncState state s : snapshotOf (onSyncState state s).1 = state.
Proof. by destruct state. Qed.

Lemma receive_snoc env rand ms m s :
  receive env rand (ms ++ [m]) s = (onMessage env rand m (receive env rand ms s)).1.
Proof. unfold receive. by rewrite foldl_snoc. Qed.

(** ** What is drawn in a cell *)

(** X6.  What [getCellContent] draws for a cell that is not revealed
    depends on its flag alone: neither the mine nor the count shows. *)
Theorem getCellContent_hides (x y : Cell) :
  isRevealed x = false → isRevealed y = false → isFlagged x = isFlagged y →
  getCellContent x = getCellContent y.
Proof.
  unfold getCellContent. intros -> -> ->. by destruct (isFlagged y).
Qed.

Lemma getCellContent_hides_witness :
  getCellContent (mkCell true false false 0) = getCellContent (mkCell false false false 3).
Proof. by apply getCellContent_hides. Defined.

(** X7.  [getNumberColor] never gives the empty class: it gives white for
    0, for 7 and for every number outside the table, and gives different
    classes to different counts among 1 to 6 and 8.  The class of the
    [span] is computed from the count whether or not the cell is revealed,
    so for those counts it tells the count of a hidden cell. *)
Theorem getNumberColor_default :
  (∀ num, getNumberColor num ≠ EmptyString)
  ∧ (∀ num, num ≤ 0 ∨ num = 7 ∨ 8 < num → getNumberColor num = "text-white")
  ∧ (∀ n m, 1 ≤ n ≤ 8 → n ≠ 7 → 1 ≤ m ≤ 8 → m ≠ 7 →
       getNumberColor n = getNumberColor m → n = m)
  ∧ (∀ x y, 1 ≤ neighborMines x ≤ 6 → 1 ≤ neighborMines y ≤ 6 →
       cellSpan x = cellSpan y → neighborMines x = neighborMines y).
Proof.
  assert (Hcases : ∀ num, num ≤ 0 ∨ 8 < num ∨ num = 1 ∨ num = 2 ∨ num = 3
                          ∨ num = 4 ∨ num = 5 ∨ num = 6 ∨ num = 7 ∨ num = 8) by lia.
  assert (Hout : ∀ num, num ≤ 0 ∨ 8 < num → getNumberColor num = "text-white").
  { intros num Hnum. unfold getNumberColor.
    destruct (decide (num = 0)) as [->|]; [done|].
    rewrite (proj2 (jsIndex_None colors num)); [done|].
    unfold len; simpl. lia. }
  assert (Hinj : ∀ n m, 1 ≤ n ≤ 8 → n ≠ 7 → 1 ≤ m ≤ 8 → m ≠ 7 →
            getNumberColor n = getNumberColor m → n = m).
  { intros n m Hn Hn7 Hm Hm7.
    destruct (Hcases n) as [?|[?|[-> |[-> |[-> |[-> |[-> |[-> |[-> | ->]]]]]]]]];
      try lia;
      destruct (Hcases m) as [?|[?|[-> |[-> |[-> |[-> |[-> |[-> |[-> | ->]]]]]]]]];
      try lia; try done. }
  split; [|split; [|split]].
  - intros num.
    destruct (Hcases num) as [?|[?|[-> |[-> |[-> |[-> |[-> |[-> |[-> | ->]]]]]]]]];
      try done; rewrite Hout by lia; done.
  - intros num [?|[->|?]]; [apply Hout; lia|done|apply Hout; lia].
  - exact Hinj.
  - intros x y Hx Hy [= Hc _]. apply Hinj; [lia..|done].
Qed.

(** ** Resetting *)

Lemma blank_sums (g : Cell → nat) config :
  g blankCell = 0%nat → sum_list_with (sum_list_with g) (blankBoard config) = 0%nat.
Proof.
  intros Hg. unfold blankBoard.
  assert (Hrow : ∀ n, sum_list_with g (replicate n blankCell) = 0%nat).
  { induction n as [|n IH]; simpl; [done|]. by rewrite Hg, IH. }
  induction (Z.to_nat (rows config)) as [|n IH]; simpl; [done|].
  by rewrite Hrow, IH.
Qed.

Lemma initBoard_run env config remote s :
  initBoard env config remote s
  = (mkApp (difficulty s) (blankBoard config) idle (mines config) 0 (roomId s)
       (socket s) (isRemoteUpdate s) (timers s)
       (sent s ++
          if remote || negb (socket s) then []
          else ResetGame (roomId env) ::
               if isRemoteUpdate s then []
               else [UpdateState (roomId env)
                       (mkSessionState (blankBoard config) idle (mines config) 0
                          (difficulty env))]),
     Ok tt).
Proof.
  unfold initBoard. cbv zeta.
  destruct remote; simpl; [by rewrite app_nil_r|].
  destruct (socket s) eqn:Hs, (isRemoteUpdate s) eqn:Hg;
    unfold emitState, socketEmit; munfold; setters; simpl;
    rewrite ?Hs, ?Hg; simpl; rewrite ?Hs; simpl;
    rewrite ?app_nil_r, <- ?app_assoc; done.
Qed.

Lemma relaySend_reset (srv : Relay.Server SessionState) from id room state
    (guard : bool) :
  id ∈ Relay.socketsIn srv room → id ≠ from →
  Relay.rooms (relaySend from
      (ResetGame room :: if guard then [] else [UpdateState room state]) srv).1 !! room
  = (if guard then None else Some state)
  ∧ inboxOf id (relaySend from
      (ResetGame room :: if guard then [] else [UpdateState room state]) srv).2
    = Relay.remote_reset :: (if guard then [] else [Relay.sync_state state])
  ∧ inboxOf from (relaySend from
      (ResetGame room :: if guard then [] else [UpdateState room state]) srv).2
    = [].
Proof.
  intros Hid Hne. unfold relaySend.
  destruct guard; cbn [foldl toRelay Relay.on fst snd Relay.rooms Relay.members].
  - rewrite app_nil_l. rewrite !inboxOf_toRoom.
    rewrite lookup_delete_eq. rewrite decide_True by done.
    rewrite decide_False by (by intros [_ ?]). done.
  - rewrite app_nil_l. rewrite !inboxOf_app, !inboxOf_toRoom.
    rewrite lookup_insert_eq.
    assert (Hsock : Relay.socketsIn
              (Relay.mkServer (delete room (Relay.rooms srv)) (Relay.members srv))
              room = Relay.socketsIn srv room) by done.
    rewrite Hsock.
    rewrite !decide_True by done.
    rewrite !decide_False by (by intros [_ ?]). done.
Qed.

(** X8.  Whatever the state was, [initBoard] returns and leaves a grid of
    the dimensions of the configuration with no mine, nothing revealed
    and nothing flagged, the status idle, the counter at the mines of the
    configuration and the clock at 0; the difficulty is left as it was.
    A remote reset sends nothing; a local one sends [reset-game], and
    after it the snapshot unless the echo guard is up. *)
Theorem initBoard_blank env config remote s :
  ∃ s', initBoard env config remote s = (s', Ok tt)
    ∧ shape config (board s')
    ∧ countMines (board s') = 0%nat
    ∧ countRevealed (board s') = 0%nat
    ∧ countFlags (board s') = 0%nat
    ∧ status s' = idle ∧ minesLeft s' = mines config ∧ seconds s' = 0
    ∧ difficulty s' = difficulty s
    ∧ sent s' = sent s ++
        if remote || negb (socket s) then []
        else ResetGame (roomId env) ::
             if isRemoteUpdate s then []
             else [UpdateState (roomId env)
                     (mkSessionState (board s') idle (mines config) 0 (difficulty env))].
Proof.
  rewrite initBoard_run. eexists; split; [reflexivity|]. simpl.
  split; [apply shape_blankBoard|].
  repeat (split; [by apply blank_sums|]). done.
Qed.

(** X9.  A local reset with the socket connected reaches the relay as
    [reset-game] followed, unless the echo guard is up, by the snapshot of
    the blank board.  The other sockets of the room are told to reset, and
    then given the snapshot if there is one; the relay ends up storing the
    snapshot, or, when the guard was up, nothing at all for the room. *)
Theorem local_reset_at_relay env config s (srv : Relay.Server SessionState) from id :
  socket s = true → id ∈ Relay.socketsIn srv (roomId env) → id ≠ from →
  Relay.rooms (relaySend from (newlySent s (initBoard env config false s).1) srv).1
    !! roomId env
  = (if isRemoteUpdate s then None
     else Some (mkSessionState (blankBoard config) idle (mines config) 0 (difficulty env)))
  ∧ inboxOf id (relaySend from (newlySent s (initBoard env config false s).1) srv).2
    = Relay.remote_reset ::
      (if isRemoteUpdate s then []
       else [Relay.sync_state
               (mkSessionState (blankBoard config) idle (mines config) 0 (difficulty env))])
  ∧ inboxOf from (relaySend from (newlySent s (initBoard env config false s).1) srv).2
    = [].
Proof.
  intros Hs Hid Hne. rewrite initBoard_run. cbn [fst].
  unfold newlySent; cbn [sent]; rewrite drop_app_length. rewrite Hs. cbn [negb orb].
  by apply relaySend_reset.
Qed.

Lemma local_reset_at_relay_witness :
  Relay.rooms (relaySend "a"
      (newlySent (someApp expert mineAndBlank lost)
         (initBoard (someApp expert mineAndBlank lost) (CONFIGS expert) false
            (someApp expert mineAndBlank lost)).1) twoInRoom).1
    !! roomId (someApp expert mineAndBlank lost)
  = (if isRemoteUpdate (someApp expert mineAndBlank lost) then None
     else Some (mkSessionState (blankBoard (CONFIGS expert)) idle
                  (mines (CONFIGS expert)) 0
                  (difficulty (someApp expert mineAndBlank lost))))
  ∧ inboxOf "b" (relaySend "a"
      (newlySent (someApp expert mineAndBlank lost)
         (initBoard (someApp expert mineAndBlank lost) (CONFIGS expert) false
            (someApp expert mineAndBlank lost)).1) twoInRoom).2
    = Relay.remote_reset ::
      (if isRemoteUpdate (someApp expert mineAndBlank lost) then []
       else [Relay.sync_state
               (mkSessionState (blankBoard (CONFIGS expert)) idle
                  (mines (CONFIGS expert)) 0
                  (difficulty (someApp expert mineAndBlank lost)))])
  ∧ inboxOf "a" (relaySend "a"
      (newlySent (someApp expert mineAndBlank lost)
         (initBoard (someApp expert mineAndBlank lost) (CONFIGS expert) false
            (someApp expert mineAndBlank lost)).1) twoInRoom).2
    = [].
Proof.
  apply (local_reset_at_relay (someApp expert mineAndBlank lost) (CONFIGS expert)
           (someApp expert mineAndBlank lost) twoInRoom "a" "b").
  - reflexivity.
  - apply (bool_decide_unpack _). by vm_compute.
  - discriminate.
Defined.

(** X10.  Choosing a difficulty in the settings resets the board for the
    new difficulty, but the snapshot that goes out carries the difficulty
    of the render the menu was drawn in: a peer that applies it has the
    grid of the new difficulty and the difficulty of the old one. *)
Theorem difficulty_change_reaches_peers env d s (srv : Relay.Server SessionState)
    from id envP rand sP :
  socket s = true → isRemoteUpdate s = false →
  id ∈ Relay.socketsIn srv (roomId env) → id ≠ from →
  difficulty (invoke (DifficultySelected env d) s).1 = d
  ∧ board (invoke (DifficultySelected env d) s).1 = blankBoard (CONFIGS d)
  ∧ snapshotOf
      (receive envP rand
         (inboxOf id
            (relaySend from
               (newlySent s (invoke (DifficultySelected env d) s).1) srv).2) sP)
    = mkSessionState (blankBoard (CONFIGS d)) idle (mines (CONFIGS d)) 0
        (difficulty env).
Proof.
  intros Hs Hg Hid Hne.
  assert (Hrun : invoke (DifficultySelected env d) s
                 = initBoard env (CONFIGS d) false ((setDifficulty d s).1)) by done.
  rewrite Hrun, initBoard_run. cbn [fst setDifficulty difficulty board socket
    isRemoteUpdate sent]. rewrite Hs, Hg. cbn [negb orb].
  split; [done|]. split; [done|].
  unfold newlySent; cbn [sent]; rewrite drop_app_length.
  pose proof (relaySend_reset srv from id (roomId env)
    (mkSessionState (blankBoard (CONFIGS d)) idle (mines (CONFIGS d)) 0 (difficulty env))
    false Hid Hne) as (_ & Hin & _).
  cbv iota in Hin. rewrite Hin.
  change [Relay.remote_reset; Relay.sync_state ?st]
    with ([Relay.remote_reset] ++ [@Relay.sync_state SessionState st]).
  rewrite receive_snoc. apply snapshotOf_onSyncState.
Qed.

Lemma difficulty_change_reaches_peers_witness :
  difficulty (invoke (DifficultySelected (newSession beginner) expert)
                (newSession beginner)).1 = expert
  ∧ board (invoke (DifficultySelected (newSession beginner) expert)
             (newSession beginner)).1 = blankBoard (CONFIGS expert)
  ∧ snapshotOf
      (receive (newSession beginner) []
         (inboxOf "b"
            (relaySend "a"
               (newlySent (newSession beginner)
                  (invoke (DifficultySelected (newSession beginner) expert)
                     (newSession beginner)).1) twoInRoom).2)
         (newSession beginner))
    = mkSessionState (blankBoard (CONFIGS expert)) idle (mines (CONFIGS expert)) 0
        (difficulty (newSession beginner)).
Proof.
  apply (difficulty_change_reaches_peers (newSession beginner) expert
           (newSession beginner) twoInRoom "a" "b").
  - reflexivity.
  - reflexivity.
  - apply (bool_decide_unpack _). by vm_compute.
  - discriminate.
Defined.

(** ** Flags *)

Lemma handleRightClick_skip env r c remote s :
  (status env ≠ playing ∨ getCell (board env) r c = None
   ∨ ∃ x, getCell (board env) r c = Some x ∧ isRevealed x = true) →
  (handleRightClick env r c remote s).1 = s.
Proof.
  intros H. unfold handleRightClick.
  destruct (decide (status env = idle ∨ status env = won ∨ status env = lost))
    as [|Hst]; [done|].
  destruct H as [H|[H|(x & Hx & Hrev)]].
  - destruct (status env); naive_solver.
  - by rewrite H.
  - rewrite Hx. cbn [defined]. by rewrite bind_liftRes_Ok, Hrev.
Qed.

Lemma handleRightClick_split env r c :
  (status env ≠ playing ∨ getCell (board env) r c = None
   ∨ ∃ x, getCell (board env) r c = Some x ∧ isRevealed x = true)
  ∨ (status env = playing
     ∧ ∃ x, getCell (board env) r c = Some x ∧ isRevealed x = false).
Proof.
  destruct (decide (status env = playing)) as [Hst|]; [|by left; left].
  destruct (getCell (board env) r c) as [x|] eqn:Hx; [|by left; right; left].
  destruct (isRevealed x) eqn:Hrev; [left; right; right; eauto|right; eauto].
Qed.

Lemma updCell_twice f b r c :
  (∀ x, f (f x) = x) → updCell f (updCell f b r c) r c = b.
Proof.
  intros Hf. unfold updCell. rewrite list_alter_alter_eq.
  apply list_alter_id. intros row. simpl. rewrite list_alter_alter_eq.
  apply list_alter_id. intros x. apply Hf.
Qed.

Lemma toggleIsFlagged_twice x : toggleIsFlagged (toggleIsFlagged x) = x.
Proof. destruct x as [m rv f n]. unfold toggleIsFlagged. simpl. by rewrite negb_involutive. Qed.

(** X11.  A right click, whatever it does, leaves the status, the clock,
    the difficulty, the room and the echo guard as they are, and changes
    no cell other than the one clicked, and of that one nothing but the
    flag. *)
Theorem handleRightClick_frame r c remote s :
  status (handleRightClick s r c remote s).1 = status s
  ∧ sameSession s (handleRightClick s r c remote s).1
  ∧ boardRel sameButFlag (board s) (board (handleRightClick s r c remote s).1)
  ∧ ∀ r' c', ¬ (r' = r ∧ c' = c) →
      getCell (board (handleRightClick s r c remote s).1) r' c'
      = getCell (board s) r' c'.
Proof.
  destruct (handleRightClick_split s r c) as [Hskip|(Hst & x & Hx & Hrev)].
  - rewrite handleRightClick_skip by done.
    split; [done|]. split; [done|]. split; [by apply boardRel_refl|done].
  - rewrite (handleRightClick_run s r c remote s x) by done. cbn [fst board status].
    split; [done|]. split; [done|]. split.
    + by apply boardRel_updCell.
    + intros r' c' Hne. rewrite (getCell_updCell _ _ _ _ x) by done.
      by rewrite decide_False.
Qed.

(** X12.  Two right clicks on the same cell, one after the other, leave the
    board, the counter and the rest of the snapshot as they were, whatever
    the cell and the status; and when the game is playing and the cell is
    hidden, the first of them did toggle its flag. *)
Theorem flag_twice_restores r c s :
  snapshotOf (runFlags [(r, c); (r, c)] s) = snapshotOf s
  ∧ ∀ x, status s = playing → getCell (board s) r c = Some x →
      isRevealed x = false →
      getCell (board (runFlags [(r, c)] s)) r c = Some (toggleIsFlagged x)
      ∧ minesLeft (runFlags [(r, c)] s)
        = minesLeft s + (if isFlagged x then 1 else -1).
Proof.
  unfold runFlags. cbn [foldl fst snd]. split.
  - destruct (handleRightClick_split s r c) as [Hskip|(Hst & x & Hx & Hrev)].
    + rewrite (handleRightClick_skip s r c false s) by done.
      by rewrite handleRightClick_skip.
    + rewrite (handleRightClick_run s r c false s x) by done. cbn [fst].
      erewrite handleRightClick_run; [| done | .. ].
      2:{ cbn [board]. rewrite (getCell_updCell _ _ _ _ x) by done.
          by rewrite decide_True. }
      2:{ done. }
      cbn [fst]. unfold snapshotOf. cbn [board status minesLeft seconds difficulty].
      rewrite updCell_twice by apply toggleIsFlagged_twice.
      destruct s as [d b st n t room sk g tm out]. simpl in *.
      f_equal. destruct (isFlagged x); simpl; lia.
  - intros x Hst Hx Hrev.
    rewrite (handleRightClick_run s r c false s x) by done. cbn [fst board minesLeft].
    rewrite (getCell_updCell _ _ _ _ x) by done. rewrite decide_True by done.
    split; [done|]. destruct (isFlagged x); simpl; lia.
Qed.

(** X13.  A right click on a hidden cell of a game that is playing, with
    the socket connected and the echo guard down, sends the notice and then
    the snapshot of the state it leaves.  The relay stores that snapshot
    and sends nothing back to the sender; a peer of the room that handles
    what the relay sends it, whatever its own state and closure, ends with
    the sender's board, status, counter, clock and difficulty. *)
Theorem flag_reaches_peers r c s x (srv : Relay.Server SessionState)
    from id envP rand sP :
  status s = playing → getCell (board s) r c = Some x → isRevealed x = false →
  socket s = true → isRemoteUpdate s = false →
  id ∈ Relay.socketsIn srv (roomId s) → id ≠ from →
  newlySent s (handleRightClick s r c false s).1
  = [CellFlag (roomId s) r c;
     UpdateState (roomId s) (snapshotOf (handleRightClick s r c false s).1)]
  ∧ Relay.rooms
      (relaySend from (newlySent s (handleRightClick s r c false s).1) srv).1
      !! roomId s
    = Some (snapshotOf (handleRightClick s r c false s).1)
  ∧ inboxOf from
      (relaySend from (newlySent s (handleRightClick s r c false s).1) srv).2 = []
  ∧ snapshotOf
      (receive envP rand
         (inboxOf id
            (relaySend from (newlySent s (handleRightClick s r c false s).1) srv).2)
         sP)
    = snapshotOf (handleRightClick s r c false s).1.
Proof.
  intros Hst Hx Hrev Hs Hg Hid Hne.
  rewrite (handleRightClick_run s r c false s x) by done. cbn [fst].
  unfold newlySent at 1 2 3 4; cbn [sent]; rewrite !drop_app_length.
  rewrite Hs, Hg. cbn [negb orb app].
  unfold snapshotOf at 1 2 4. cbn [board status minesLeft seconds difficulty].
  rewrite Hst. split; [done|].
  unfold relaySend. cbn [foldl toRelay Relay.on fst snd Relay.rooms Relay.members].
  rewrite app_nil_l. rewrite !inboxOf_app, !inboxOf_toRoom.
  rewrite lookup_insert_eq. split; [done|].
  rewrite !decide_False by (by intros [_ ?]). split; [done|].
  rewrite !decide_True by done.
  change ([?a] ++ [?b]) with ([a] ++ [b]).
  rewrite receive_snoc. apply snapshotOf_onSyncState.
Qed.

Lemma flag_reaches_peers_witness :
  newlySent playingSession (handleRightClick playingSession 3 4 false playingSession).1
  = [CellFlag (roomId playingSession) 3 4;
     UpdateState (roomId playingSession)
       (snapshotOf (handleRightClick playingSession 3 4 false playingSession).1)]
  ∧ Relay.rooms
      (relaySend "a"
         (newlySent playingSession
            (handleRightClick playingSession 3 4 false playingSession).1) twoInRoom).1
      !! roomId playingSession
    = Some (snapshotOf (handleRightClick playingSession 3 4 false playingSession).1)
  ∧ inboxOf "a"
      (relaySend "a"
         (newlySent playingSession
            (handleRightClick playingSession 3 4 false playingSession).1) twoInRoom).2
    = []
  ∧ snapshotOf
      (receive (newSession beginner) []
         (inboxOf "b"
            (relaySend "a"
               (newlySent playingSession
                  (handleRightClick playingSession 3 4 false playingSession).1)
               twoInRoom).2)
         (newSession expert))
    = snapshotOf (handleRightClick playingSession 3 4 false playingSession).1.
Proof.
  apply (flag_reaches_peers 3 4 playingSession blankCell twoInRoom "a" "b"
           (newSession beginner) [] (newSession expert)).
  - reflexivity.
  - reflexivity.
  - reflexivity.
  - reflexivity.
  - reflexivity.
  - apply (bool_decide_unpack _). by vm_compute.
  - discriminate.
Defined.

(** ** Clicks that find the cell closed *)

Lemma notice_run remote m s :
  when (negb remote) (socketEmit m) s
  = (mkApp (difficulty s) (board s) (status s) (minesLeft s) (seconds s) (roomId s)
       (socket s) (isRemoteUpdate s) (timers s)
       (sent s ++ if remote || negb (socket s) then [] else [m]), Ok tt).
Proof.
  destruct s as [d b st n t room sk g tm out].
  destruct remote, sk; simpl; unfold socketEmit; simpl; by rewrite ?app_nil_r.
Qed.

Lemma handleCellClick_closed rand r c remote s :
  status s = playing → rect (board s) → isOpen (board s) r c = false →
  handleCellClick s rand r c remote s
  = (mkApp (difficulty s) (board s) (status s) (minesLeft s) (seconds s) (roomId s)
       (socket s) (isRemoteUpdate s) (timers s)
       (sent s ++ if remote || negb (socket s) then [] else [CellClick (roomId s) r c]),
     Ok tt).
Proof.
  intros Hst Hrect Hopen. unfold handleCellClick.
  rewrite decide_False by (rewrite Hst; intros [?|?]; discriminate).
  rewrite (decide_False (P := status s = idle)) by (by rewrite Hst).
  cbv zeta. rewrite bind_M, notice_run.
  by rewrite bind_M, revealCell_guard.
Qed.

(** X14.  In a game that is playing, on a grid, a click on a position that
    is outside the grid, revealed or flagged returns and leaves the board,
    the status, the counter and everything else as they were; no snapshot
    is sent, yet a local click still sends its notice. *)
Theorem click_on_closed_cell_is_ignored rand r c remote s :
  status s = playing → rect (board s) → isOpen (board s) r c = false →
  handleCellClick s rand r c remote s
  = (mkApp (difficulty s) (board s) (status s) (minesLeft s) (seconds s) (roomId s)
       (socket s) (isRemoteUpdate s) (timers s)
       (sent s ++ if remote || negb (socket s) then [] else [CellClick (roomId s) r c]),
     Ok tt).
Proof. apply handleCellClick_closed. Qed.

Lemma click_on_closed_cell_is_ignored_witness :
  handleCellClick playingSession [] 9 9 false playingSession
  = (mkApp (difficulty playingSession) (board playingSession) (status playingSession)
       (minesLeft playingSession) (seconds playingSession) (roomId playingSession)
       (socket playingSession) (isRemoteUpdate playingSession) (timers playingSession)
       (sent playingSession ++
          if false || negb (socket playingSession) then []
          else [CellClick (roomId playingSession) 9 9]),
     Ok tt).
Proof.
  apply click_on_closed_cell_is_ignored.
  - reflexivity.
  - apply (shape_rect (CONFIGS beginner)), shape_blankBoard.
  - reflexivity.
Defined.

(** ** What the listeners send *)

Lemma onlyUpdates_refl s : onlyUpdates s s.
Proof. exists []. by rewrite app_nil_r. Qed.

Lemma onlyUpdates_trans s1 s2 s3 :
  onlyUpdates s1 s2 → onlyUpdates s2 s3 → onlyUpdates s1 s3.
Proof.
  intros (l & H1 & Hl) (k & H2 & Hk). exists (l ++ k).
  split; [by rewrite H2, H1, app_assoc|by apply Forall_app].
Qed.
#[global] Hint Resolve onlyUpdates_refl onlyUpdates_trans : pres.

Lemma onlyUpdates_setBoard b : preserves onlyUpdates (setBoard b).
Proof. intros s. exists []. simpl. by rewrite app_nil_r. Qed.
Lemma onlyUpdates_setStatus x : preserves onlyUpdates (setStatus x).
Proof. intros s. exists []. simpl. by rewrite app_nil_r. Qed.
Lemma onlyUpdates_setMinesLeft n : preserves onlyUpdates (setMinesLeft n).
Proof. intros s. exists []. simpl. by rewrite app_nil_r. Qed.
Lemma onlyUpdates_setSeconds n : preserves onlyUpdates (setSeconds n).
Proof. intros s. exists []. simpl. by rewrite app_nil_r. Qed.
Lemma onlyUpdates_setDifficulty d : preserves onlyUpdates (setDifficulty d).
Proof. intros s. exists []. simpl. by rewrite app_nil_r. Qed.
Lemma onlyUpdates_setTimers n : preserves onlyUpdates (setTimers n).
Proof. intros s. exists []. simpl. by rewrite app_nil_r. Qed.
Lemma onlyUpdates_setIsRemoteUpdate x : preserves onlyUpdates (setIsRemoteUpdate x).
Proof. intros s. exists []. simpl. by rewrite app_nil_r. Qed.

Lemma onlyUpdates_emitState env b x n t d :
  preserves onlyUpdates (emitState env b x n t d).
Proof.
  intros s. unfold emitState, socketEmit.
  destruct (isRemoteUpdate s); [apply onlyUpdates_refl|].
  destruct (socket s); [|apply onlyUpdates_refl].
  eexists. split; [reflexivity|]. by repeat constructor.
Qed.
#[global] Hint Resolve onlyUpdates_setBoard onlyUpdates_setStatus
  onlyUpdates_setMinesLeft onlyUpdates_setSeconds onlyUpdates_setDifficulty
  onlyUpdates_setTimers onlyUpdates_setIsRemoteUpdate onlyUpdates_emitState : pres.

Lemma onlyUpdates_checkWin env b : preserves onlyUpdates (checkWin env b).
Proof. unfold checkWin. pres. Qed.
#[global] Hint Resolve onlyUpdates_checkWin : pres.

Lemma onlyUpdates_revealCell_fuel fuel env r c b x :
  preserves onlyUpdates (revealCell_fuel fuel env r c b x).
Proof.
  revert r c b. induction fuel as [|fuel IH]; intros r c b; simpl; pres.
Qed.
#[global] Hint Resolve onlyUpdates_revealCell_fuel : pres.

Lemma onlyUpdates_onMessage env rand m : preserves onlyUpdates (onMessage env rand m).
Proof.
  destruct m as [state|r c u|r c u|]; cbn [onMessage].
  - unfold onSyncState. pres.
  - unfold handleCellClick, startGame, revealCell. cbn [negb when]. pres.
  - unfold handleRightClick. cbn [negb when]. pres.
  - unfold initBoard. cbn [negb when]. pres.
Qed.

Lemma quiet_onMessage env rand m : preserves quiet (onMessage env rand m).
Proof.
  destruct m as [state|r c u|r c u|]; cbn [onMessage];
    [apply quiet_onSyncState|apply quiet_handleCellClick
    |apply quiet_handleRightClick|apply quiet_initBoard].
Qed.

Lemma updates_all l : Forall (λ m, isUpdateState m = true) l → updates l = l.
Proof.
  induction 1 as [|m l Hm _ IH]; [done|].
  unfold updates in *. rewrite filter_cons, decide_True by done. by rewrite IH.
Qed.

(** X15.  The listeners never send a notice: whatever arrives from the
    relay, and whatever the closure and the state, handling it adds
    nothing but [update-state] messages to what was sent, and nothing at
    all when the echo guard is up.  A remote reset sends nothing; and with
    the closure the listeners have, that of the mount, a remote flag
    changes nothing and sends nothing. *)
Theorem listeners_send_no_notice env rand (ms : list (Relay.Outgoing SessionState)) s :
  onlyUpdates s (receive env rand ms s)
  ∧ (isRemoteUpdate s = true → sent (receive env rand ms s) = sent s)
  ∧ sent (onMessage env rand Relay.remote_reset s).1 = sent s
  ∧ (∀ room r c u,
       onMessage (mounted room) rand (Relay.remote_flag r c u) s = (s, Ok tt)).
Proof.
  assert (Hall : ∀ ms s, onlyUpdates s (receive env rand ms s)
                         ∧ quiet s (receive env rand ms s)).
  { clear. induction ms as [|m ms IH]; intros s.
    { split; [apply onlyUpdates_refl|apply quiet_refl]. }
    unfold receive. cbn [foldl]. fold (receive env rand ms (onMessage env rand m s).1).
    destruct (IH (onMessage env rand m s).1) as [H1 H2]. split.
    - eapply onlyUpdates_trans; [apply onlyUpdates_onMessage|done].
    - eapply quiet_trans; [apply quiet_onMessage|done]. }
  destruct (Hall ms s) as [Hu Hq]. split; [done|]. split.
  - intros Hg. destruct (Hq Hg) as [_ Hsame]. destruct Hu as (l & Hl & Hup).
    rewrite Hl in Hsame. rewrite updates_app, (updates_all l Hup) in Hsame.
    rewrite Hl. rewrite <- (app_nil_r (updates (sent s))) in Hsame at 2.
    apply app_inv_head in Hsame. by rewrite Hsame, app_nil_r.
  - split; [|intros room r c u; apply listener_ignores_flags].
    cbn [onMessage]. rewrite initBoard_run. cbn [fst sent orb]. apply app_nil_r.
Qed.

(** ** The echo guard *)

Lemma runCalls_app ks1 ks2 s : runCalls (ks1 ++ ks2) s = runCalls ks2 (runCalls ks1 s).
Proof. apply foldl_app. Qed.

Lemma runCalls_syncs states s :
  timers (runCalls (StateSynced <$> states) s) = (timers s + length states)%nat
  ∧ socket (runCalls (StateSynced <$> states) s) = socket s.
Proof.
  revert s. induction states as [|state states IH]; intros s.
  { simpl. split; [lia|done]. }
  rewrite fmap_cons. unfold runCalls. cbn [foldl].
  fold (runCalls (StateSynced <$> states) (invoke (StateSynced state) s).1).
  destruct (IH (invoke (StateSynced state) s).1) as [-> ->].
  simpl. split; [lia|done].
Qed.

(** X16.  Each [sync-state] raises the echo guard and schedules its own
    callback, and the first callback to run lowers the guard: after any
    number of snapshots, one or more, the first timeout leaves the guard
    down while the callbacks of the later snapshots are still to come,
    and from then on [emitState] sends again. *)
Theorem first_timeout_lowers_guard (states : list SessionState) s :
  states ≠ [] →
  isRemoteUpdate (runCalls ((StateSynced <$> states) ++ [TimeoutFired]) s) = false
  ∧ S (timers (runCalls ((StateSynced <$> states) ++ [TimeoutFired]) s))
    = (timers s + length states)%nat
  ∧ (socket s = true → ∀ env b x n t d,
       sent (emitState env b x n t d
               (runCalls ((StateSynced <$> states) ++ [TimeoutFired]) s)).1
       = sent (runCalls ((StateSynced <$> states) ++ [TimeoutFired]) s)
         ++ [UpdateState (roomId env) (mkSessionState b x n t d)]).
Proof.
  intros Hne. rewrite runCalls_app.
  destruct (runCalls_syncs states s) as [Ht Hs].
  set (s1 := runCalls (StateSynced <$> states) s) in *.
  assert (Hpos : ∃ k, timers s1 = S k).
  { destruct states; [done|]. rewrite Ht. simpl. exists (timers s + length states)%nat. lia. }
  destruct Hpos as [k Hk].
  unfold runCalls. cbn [foldl invoke]. unfold onTimeout, render. munfold.
  rewrite Hk. cbn [fst setTimers setIsRemoteUpdate isRemoteUpdate timers].
  split; [done|]. split; [lia|].
  intros Hsock env b x n t d. unfold emitState, socketEmit. simpl.
  rewrite Hs, Hsock. done.
Qed.

Lemma first_timeout_lowers_guard_witness :
  isRemoteUpdate
    (runCalls ((StateSynced <$> [snapshotOf playingSession; snapshotOf playingSession])
               ++ [TimeoutFired]) playingSession) = false
  ∧ S (timers
         (runCalls ((StateSynced <$> [snapshotOf playingSession; snapshotOf playingSession])
                    ++ [TimeoutFired]) playingSession))
    = (timers playingSession
       + length [snapshotOf playingSession; snapshotOf playingSession])%nat
  ∧ (socket playingSession = true → ∀ env b x n t d,
       sent (emitState env b x n t d
               (runCalls ((StateSynced <$> [snapshotOf playingSession;
                                            snapshotOf playingSession])
                          ++ [TimeoutFired]) playingSession)).1
       = sent (runCalls ((StateSynced <$> [snapshotOf playingSession;
                                           snapshotOf playingSession])
                         ++ [TimeoutFired]) playingSession)
         ++ [UpdateState (roomId env) (mkSessionState b x n t d)]).
Proof.
  apply (first_timeout_lowers_guard
           [snapshotOf playingSession; snapshotOf playingSession] playingSession).
  discriminate.
Defined.

(** ** Joining *)

(** X17.  A client that connects sends [join-room] for its room; the relay
    makes it a member and, if it stores a state for the room, sends it that
    state and nothing else to anybody; the client then takes over the
    board, status, counter, clock and difficulty of that state and has
    its echo guard up.  With no state stored the client gets nothing and
    keeps what it has. *)
Theorem joining_client_adopts_room_state env s (srv : Relay.Server SessionState)
    from rand :
  from ∈ Relay.socketsIn
           (relaySend from (newlySent s (onConnect env s).1) srv).1 (roomId env)
  ∧ (∀ state, Relay.rooms srv !! roomId env = Some state →
       (relaySend from (newlySent s (onConnect env s).1) srv).2
       = [(from, Relay.sync_state state)]
       ∧ snapshotOf
           (receive env rand
              (inboxOf from (relaySend from (newlySent s (onConnect env s).1) srv).2)
              (onConnect env s).1) = state
       ∧ isRemoteUpdate
           (receive env rand
              (inboxOf from (relaySend from (newlySent s (onConnect env s).1) srv).2)
              (onConnect env s).1) = true)
  ∧ (Relay.rooms srv !! roomId env = None →
       (relaySend from (newlySent s (onConnect env s).1) srv).2 = []
       ∧ snapshotOf
           (receive env rand
              (inboxOf from (relaySend from (newlySent s (onConnect env s).1) srv).2)
              (onConnect env s).1) = snapshotOf s).
Proof.
  assert (Hnew : newlySent s (onConnect env s).1 = [JoinRoom (roomId env)]).
  { unfold onConnect, socketEmit, newlySent; munfold; setters; simpl.
    apply drop_app_length. }
  rewrite Hnew. unfold relaySend.
  cbn [foldl toRelay Relay.on fst snd Relay.join Relay.rooms]. rewrite app_nil_l.
  split.
  { rewrite socketsIn_join, decide_True by done.
    apply elem_of_union_l. by apply elem_of_singleton. }
  split.
  - intros state ->. split; [done|].
    unfold inboxOf, Relay.toSelf. rewrite filter_cons, decide_True by done.
    rewrite filter_nil. cbn [fmap list_fmap snd receive foldl onMessage].
    split; [apply snapshotOf_onSyncState|done].
  - intros ->. split; [done|]. done.
Qed.

(** ** A click on a safe cell *)

Lemma sat_conj {A} (x : App * Res A) (Q Q' : App → A → Prop) (E E' : Prop) :
  sat x Q E → sat x Q' E' → sat x (λ s a, Q s a ∧ Q' s a) (E ∧ E').
Proof. destruct x as [s [a| |]]; simpl; tauto. Qed.

Lemma ext_countRevealed b b' : ext b b' → (countRevealed b ≤ countRevealed b')%nat.
Proof.
  intros Hext. pose proof (count_split b). pose proof (count_split b').
  pose proof (ext_cellCount _ _ Hext). pose proof (ext_unrevealedCount _ _ Hext). lia.
Qed.

Lemma Reach_safe b r0 c0 r c :
  consistent b → isMineAt b r0 c0 = false → Reach b r0 c0 r c →
  isMineAt b r c = false.
Proof.
  intros Hcons Hsafe. induction 1 as [|r1 c1 r2 c2 _ IH Hz Ha _]; [done|].
  by apply (Hcons r1 c1 r2 c2).
Qed.

Lemma flood_tail_status env b2 s :
  ∃ s', (setBoard b2;; checkWin env b2;; mret b2) s = (s', Ok b2)
    ∧ board s' = b2
    ∧ status s' = if decide (revealedCount b2 = safeCells (CONFIGS (difficulty env)))
                  then won else status s.
Proof.
  unfold safeCells, checkWin. rewrite bind_M. cbn [setBoard]. rewrite bind_M.
  destruct (decide (revealedCount b2 = _)); unfold emitState, socketEmit;
    munfold; setters; simpl;
    destruct (isRemoteUpdate s), (socket s); simpl; eexists; split; try reflexivity;
    done.
Qed.

Lemma revealCell_fuel_status fuel : ∀ env r c b st s,
  rect b → consistent b → (isOpen b r c = true → isMineAt b r c = false) →
  (unrevealedCount b < fuel)%nat →
  sat (revealCell_fuel fuel env r c b st s) (statusPost env b r c s) False.
Proof.
  induction fuel as [|fuel IH]; intros env r c b st s Hrect Hcons Hsafe Hfuel; [lia|].
  destruct (revealCell_fuel_cases fuel env r c b st s)
    as [[-> Hclosed] | [[-> Hn] | (x & Hx & Hrev & Hflag & ->)]].
  - simpl. split; [apply ext_refl|]. split; [by left|].
    intros Ho. rewrite Hclosed in Ho; done.
  - simpl. by apply Hn.
  - assert (Hopen : isOpen b r c = true) by (unfold isOpen; by rewrite Hx, Hrev, Hflag).
    assert (Hmine : isMine x = false).
    { specialize (Hsafe Hopen). unfold isMineAt in Hsafe. by rewrite Hx in Hsafe. }
    set (b1 := updCell setIsRevealed b r c).
    assert (Hext1 : ext b b1) by apply ext_updCell_reveal.
    assert (Hcnt1 : (unrevealedCount b1 + 1 = unrevealedCount b)%nat)
      by (by eapply unrevealedCount_reveal).
    unfold revealBody. rewrite Hmine.
    eapply sat_bind with (Q1 := λ s2 b2,
      ext b1 b2
      ∧ (status s2 = status s
         ∨ status s2 = won
           ∧ safeCells (CONFIGS (difficulty env)) ≤ Z.of_nat (countRevealed b2))).
    + destruct (decide (neighborMines x = 0)) as [Hz|Hz].
      2:{ apply sat_ret. split; [apply ext_refl|by left]. }
      assert (Hzero : isZero b r c = true).
      { unfold isZero. rewrite Hx. by apply bool_decide_eq_true_2. }
      eapply sat_mono.
      * apply (sat_forEachM
          (λ (_ : list (Z * Z)) bi si,
             ext b1 bi
             ∧ (status si = status s
                ∨ status si = won
                  ∧ safeCells (CONFIGS (difficulty env)) ≤ Z.of_nat (countRevealed bi)))
          False _ nbrs) with (pre := []).
        2:{ split; [apply ext_refl|by left]. }
        intros pre p bi si Hp [Hexti Hsti].
        assert (Hextb : ext b bi) by (by eapply ext_trans).
        eapply sat_mono.
        -- apply IH.
           ++ by eapply ext_rect.
           ++ by eapply ext_consistent.
           ++ intros _. rewrite (ext_isMineAt _ _ _ _ Hextb).
              apply (Hcons r c); [by apply Hsafe|done|].
              by apply nbrs_adj.
           ++ pose proof (ext_unrevealedCount _ _ Hexti). lia.
        -- intros s' b' (Hext' & Hst' & _). split; [by eapply ext_trans|].
           destruct Hst' as [Hsame|[Hwon Hle]]; [|by right].
           rewrite Hsame. destruct Hsti as [?|[Hwon Hle]]; [by left|right].
           split; [done|]. pose proof (ext_countRevealed _ _ Hext'). lia.
        -- done.
      * intros s2 b2 H. exact H.
      * done.
    + intros s2 b2 [Hext2 Hst2].
      destruct (flood_tail_status env b2 s2) as (s3 & -> & Hb3 & Hst3). simpl.
      rewrite revealedCount_countRevealed in Hst3.
      split; [by eapply ext_trans|]. split.
      * destruct (decide (Z.of_nat (countRevealed b2) = _)) as [He|Hne].
        -- right. split; [done|]. lia.
        -- rewrite Hst3. done.
      * intros _. split; [done|]. intros He. by rewrite Hst3, decide_True.
Qed.

(** A call of [revealCell] on a cell that is open and not a mine: what it
    returns, what it stores and the status it leaves. *)
Lemma revealCell_safe env r c b st s :
  rect b → consistent b → isOpen b r c = true → isMineAt b r c = false →
  ∃ s' b',
    revealCell env r c b st s = (s', Ok b')
    ∧ board s' = b' ∧ ext b b'
    ∧ isRev b' r c = true
    ∧ (∀ r' c', isRev b' r' c' = true → isRev b r' c' = false →
         isMineAt b' r' c' = false)
    ∧ (status s' = status s
       ∨ status s' = won
         ∧ safeCells (CONFIGS (difficulty env)) ≤ Z.of_nat (countRevealed b'))
    ∧ (Z.of_nat (countRevealed b') = safeCells (CONFIGS (difficulty env)) →
       status s' = won).
Proof.
  intros Hrect Hcons Hopen Hsafe.
  pose proof (revealCell_fuel_flood (S (unrevealedCount b)) env r c b st s
                Hrect Hcons (λ _, Hsafe) (Nat.lt_succ_diag_r _)) as Hflood.
  pose proof (revealCell_fuel_status (S (unrevealedCount b)) env r c b st s
                Hrect Hcons (λ _, Hsafe) (Nat.lt_succ_diag_r _)) as Hstat.
  unfold revealCell. destruct (revealCell_fuel _ env r c b st s) as [s' [b'| |]];
    simpl in Hflood, Hstat; [|done..].
  destruct Hflood as (Hext & Hsound & Hself & _).
  destruct Hstat as (_ & Hst & Hfin). destruct (Hfin Hopen) as [Hb Hwon].
  exists s', b'. split; [done|]. split; [done|]. split; [done|].
  split; [by apply Hself|]. split; [|done].
  intros r' c' Hr' Hr. rewrite (ext_isMineAt _ _ _ _ Hext).
  destruct (Hsound r' c' Hr') as [?|Hreach]; [congruence|].
  by eapply Reach_safe.
Qed.

(** ** Counting the safe cells *)

Lemma Forall_cells (P : Cell → Prop) (b : Board) :
  Forall (Forall P) b ↔ ∀ r c x, getCell b r c = Some x → P x.
Proof.
  split.
  - intros Hall r c x (row & Hrow & Hx)%getCell_Some.
    apply jsIndex_Some in Hrow as [_ Hrow]. apply jsIndex_Some in Hx as [_ Hx].
    rewrite Forall_lookup in Hall. specialize (Hall _ _ Hrow).
    rewrite Forall_lookup in Hall. by apply (Hall _ _ Hx).
  - intros Hall. apply Forall_lookup. intros i row Hrow.
    apply Forall_lookup. intros j x Hx.
    apply (Hall (Z.of_nat i) (Z.of_nat j)). apply getCell_Some. exists row.
    split; apply jsIndex_Some; (split; [lia|by rewrite Nat2Z.id]).
Qed.

Lemma sum_at_most_one {A} (g : A → nat) (l : list A) :
  Forall (λ x, g x ≤ 1)%nat l →
  (sum_list_with g l ≤ length l)%nat
  ∧ (sum_list_with g l = length l ↔ Forall (λ x, g x = 1%nat) l).
Proof.
  induction 1 as [|x l Hx _ [IH1 IH2]]; simpl.
  { split; [lia|]. split; [constructor|done]. }
  split; [lia|]. split.
  - intros Heq. constructor; [lia|]. apply IH2. lia.
  - intros Hall. inversion Hall as [|? ? H1 Hl]; subst.
    apply IH2 in Hl. lia.
Qed.

Lemma sums_at_most_one (g : Cell → nat) (b : Board) :
  Forall (Forall (λ x, g x ≤ 1)%nat) b →
  (sum_list_with (sum_list_with g) b ≤ cellCount b)%nat
  ∧ (sum_list_with (sum_list_with g) b = cellCount b
     ↔ Forall (Forall (λ x, g x = 1%nat)) b).
Proof.
  unfold cellCount. induction 1 as [|row b Hrow _ [IH1 IH2]]; simpl.
  { split; [lia|]. split; [constructor|done]. }
  destruct (sum_at_most_one g row Hrow) as [Hr1 Hr2].
  split; [lia|]. split.
  - intros Heq. constructor; [apply Hr2; lia|apply IH2; lia].
  - intros Hall. inversion Hall as [|? ? H1 Hb]; subst.
    apply Hr2 in H1. apply IH2 in Hb. lia.
Qed.

Lemma sums_add (g h : Cell → nat) (b : Board) :
  sum_list_with (sum_list_with (λ x, g x + h x)%nat) b
  = (sum_list_with (sum_list_with g) b + sum_list_with (sum_list_with h) b)%nat.
Proof.
  induction b as [|row b IH]; simpl; [done|]. rewrite IH.
  assert (sum_list_with (λ x, g x + h x)%nat row
          = (sum_list_with g row + sum_list_with h row)%nat) as ->; [|lia].
  induction row as [|x row IHr]; simpl; [done|]. rewrite IHr. lia.
Qed.

Lemma shape_cellCount config b :
  shape config b → 0 ≤ rows config → 0 ≤ cols config →
  Z.of_nat (cellCount b) = rows config * cols config.
Proof.
  intros [Hlen Hrows] Hr Hc. unfold cellCount.
  assert (sum_list_with length b = (length b * Z.to_nat (cols config))%nat) as ->.
  { clear Hlen. induction Hrows as [|row b Hrow _ IH]; simpl; [done|].
    rewrite IH, Hrow. lia. }
  rewrite Hlen. lia.
Qed.

Lemma noMineShown_cells b :
  noMineShown b ↔ ∀ r c x, getCell b r c = Some x → isRevealed x = true → isMine x = false.
Proof.
  unfold noMineShown, isRev, isMineAt. split.
  - intros H r c x Hx. specialize (H r c). by rewrite Hx in H.
  - intros H r c. destruct (getCell b r c) as [x|] eqn:Hx; [|done]. by apply (H r c).
Qed.

(** With as many mines as the configuration says and none of them shown,
    the count [checkWin] waits for is reached exactly when every safe cell
    is shown, and is never exceeded. *)
Lemma safeCells_reached config b :
  shape config b → 0 ≤ rows config → 0 ≤ cols config →
  Z.of_nat (countMines b) = mines config → noMineShown b →
  Z.of_nat (countRevealed b) ≤ safeCells config
  ∧ (Z.of_nat (countRevealed b) = safeCells config ↔ allSafeShown b).
Proof.
  intros Hshape Hr Hc Hmines Hno. unfold safeCells.
  pose proof (shape_cellCount _ _ Hshape Hr Hc) as Hcells.
  set (g := λ x : Cell, ((if isRevealed x then 1 else 0)
                         + (if isMine x then 1 else 0))%nat).
  destruct (sums_at_most_one g b) as [Hle Hiff].
  { apply Forall_cells. intros r c x Hx. unfold g.
    pose proof (proj1 (noMineShown_cells b) Hno r c x Hx) as Hno'.
    destruct (isRevealed x), (isMine x); simpl; try lia;
      try (by specialize (Hno' eq_refl)). }
  unfold g in Hle, Hiff. rewrite sums_add in Hle, Hiff.
  fold (countRevealed b) in Hle, Hiff. fold (countMines b) in Hle, Hiff.
  split; [lia|]. split.
  - intros Heq r c x Hx Hsafe.
    assert (Hall : Forall (Forall (λ x, ((if isRevealed x then 1 else 0)
                      + (if isMine x then 1 else 0))%nat = 1%nat)) b)
      by (apply Hiff; lia).
    rewrite Forall_cells in Hall. specialize (Hall r c x Hx).
    rewrite Hsafe in Hall. destruct (isRevealed x); [done|simpl in Hall; lia].
  - intros Hall.
    assert (countRevealed b + countMines b = cellCount b)%nat; [|lia].
    apply Hiff, Forall_cells. intros r c x Hx.
    pose proof (proj1 (noMineShown_cells b) Hno r c x Hx) as Hno'. specialize (Hall r c x Hx).
    destruct (isRevealed x), (isMine x); simpl; try lia;
      try (by specialize (Hno' eq_refl)); try (by specialize (Hall eq_refl)).
Qed.

Lemma CONFIGS_nonneg d :
  0 ≤ rows (CONFIGS d) ∧ 0 ≤ cols (CONFIGS d) ∧ 0 ≤ mines (CONFIGS d).
Proof. destruct d; simpl; lia. Qed.

Lemma noMineShown_ext b b' :
  ext b b' → noMineShown b →
  (∀ r c, isRev b' r c = true → isRev b r c = false → isMineAt b' r c = false) →
  noMineShown b'.
Proof.
  intros Hext Hno Hnew r c Hr. destruct (isRev b r c) eqn:Hold.
  - rewrite (ext_isMineAt _ _ _ _ Hext). by apply Hno.
  - by apply Hnew.
Qed.

(** X18.  In a game that is playing, on a grid whose counts are right, a
    click on a hidden, unflagged cell that is not a mine returns and never
    loses: the status stays playing or becomes won, the cell is shown, the
    cells that become shown are no mines, nothing else of any cell
    changes, and the counter of mines is left alone. *)
Theorem safe_click_never_loses rand r c remote s :
  status s = playing → rect (board s) → consistent (board s) →
  isOpen (board s) r c = true → isMineAt (board s) r c = false →
  ∃ s', handleCellClick s rand r c remote s = (s', Ok tt)
    ∧ (status s' = playing ∨ status s' = won)
    ∧ ext (board s) (board s')
    ∧ isRev (board s') r c = true
    ∧ (∀ r' c', isRev (board s') r' c' = true → isRev (board s) r' c' = false →
         isMineAt (board s') r' c' = false)
    ∧ minesLeft s' = minesLeft s.
Proof.
  intros Hst Hrect Hcons Hopen Hsafe.
  pose proof (sameMinesLeft_handleCellClick s rand r c remote s) as Hleft.
  revert Hleft. unfold handleCellClick.
  rewrite decide_False by (rewrite Hst; intros [?|?]; discriminate).
  rewrite (decide_False (P := status s = idle)) by (by rewrite Hst).
  cbv zeta. rewrite bind_M, notice_run.
  set (s1 := mkApp _ _ _ _ _ _ _ _ _ _).
  destruct (revealCell_safe s r c (board s) (status s) s1 Hrect Hcons Hopen Hsafe)
    as (s2 & b' & Hrun & Hb & Hext & Hself & Hnew & Hstat & _).
  rewrite bind_M, Hrun. intros Hleft.
  eexists. split; [reflexivity|]. cbn [setBoard fst board status minesLeft].
  split.
  { destruct Hstat as [->|[-> _]]; [left; by rewrite <- Hst|by right]. }
  repeat (split; [done|]). exact Hleft.
Qed.

Lemma safe_click_never_loses_witness :
  ∃ s', handleCellClick playingSession [] 4 4 false playingSession = (s', Ok tt)
    ∧ (status s' = playing ∨ status s' = won)
    ∧ ext (board playingSession) (board s')
    ∧ isRev (board s') 4 4 = true
    ∧ (∀ r' c', isRev (board s') r' c' = true →
         isRev (board playingSession) r' c' = false →
         isMineAt (board s') r' c' = false)
    ∧ minesLeft s' = minesLeft playingSession.
Proof.
  apply safe_click_never_loses.
  - reflexivity.
  - apply (shape_rect (CONFIGS beginner)), shape_blankBoard.
  - intros r c r' c' _ _ _. unfold isMineAt.
    destruct (getCell (board playingSession) r' c') as [x|] eqn:Hx; [|reflexivity].
    by rewrite (getCell_blankBoard _ _ _ _ Hx).
  - reflexivity.
  - reflexivity.
Defined.

(** X19.  In a game that is playing on a grid of its difficulty with as
    many mines as the difficulty says, right counts and no mine shown, a
    click on a hidden, unflagged safe cell wins exactly when it leaves
    every safe cell shown, and otherwise leaves the game playing; no mine
    is shown afterwards either. *)
Theorem click_wins_when_all_safe_shown rand r c remote s :
  status s = playing →
  shape (CONFIGS (difficulty s)) (board s) →
  Z.of_nat (countMines (board s)) = mines (CONFIGS (difficulty s)) →
  consistent (board s) → noMineShown (board s) →
  isOpen (board s) r c = true → isMineAt (board s) r c = false →
  ∃ s', handleCellClick s rand r c remote s = (s', Ok tt)
    ∧ noMineShown (board s')
    ∧ (status s' = won ↔ allSafeShown (board s'))
    ∧ (status s' = playing ↔ ¬ allSafeShown (board s')).
Proof.
  intros Hst Hshape Hmines Hcons Hno Hopen Hsafe.
  pose proof (shape_rect _ _ Hshape) as Hrect.
  destruct (CONFIGS_nonneg (difficulty s)) as (Hr & Hc & _).
  unfold handleCellClick.
  rewrite decide_False by (rewrite Hst; intros [?|?]; discriminate).
  rewrite (decide_False (P := status s = idle)) by (by rewrite Hst).
  cbv zeta. rewrite bind_M, notice_run.
  set (s1 := mkApp _ _ _ _ _ _ _ _ _ _).
  destruct (revealCell_safe s r c (board s) (status s) s1 Hrect Hcons Hopen Hsafe)
    as (s2 & b' & Hrun & Hb & Hext & Hself & Hnew & Hstat & Hwon).
  rewrite bind_M, Hrun.
  eexists. split; [reflexivity|]. cbn [setBoard fst board status].
  pose proof (noMineShown_ext _ _ Hext Hno Hnew) as Hno'.
  destruct (safeCells_reached (CONFIGS (difficulty s)) b') as [Hle Hiff].
  { by eapply boardRel_shape. }
  { done. }
  { done. }
  { unfold countMines.
    rewrite (sum_list_with_Forall2_eq (Forall2 cellExt) _ (board s) b'); [done| |done].
    intros row row' Hrow.
    apply (sum_list_with_Forall2_eq cellExt); [|done].
    intros x y (-> & _). done. }
  { done. }
  assert (Hiff' : status s2 = won ↔ allSafeShown b').
  { rewrite <- Hiff. split; [|done].
    intros Hw. destruct Hstat as [Hsame|[_ Hge]]; [|lia].
    rewrite Hsame in Hw. cbn [status s1] in Hw. congruence. }
  split; [done|]. split; [done|].
  rewrite <- Hiff'. split; [by intros ->|].
  intros Hnw. destruct Hstat as [->|[? _]]; [done|done].
Qed.

(** ** The first click *)

(** The board [startGame] reveals the first cell on. *)
Lemma startGame_board config fr fc rand :
  0 ≤ mines config →
  Forall (inRange config) rand →
  mines config ≤ Z.of_nat (length (remove_dups (filter (λ p, p ≠ (fr, fc)) rand))) →
  ∃ b1 b2,
    placeMines config fr fc rand (blankBoard config) 0 = Ok b1
    ∧ fillNeighborMines config b1 = Ok b2
    ∧ shape config b2
    ∧ Z.of_nat (countMines b2) = mines config
    ∧ isMineAt b2 fr fc = false
    ∧ ∀ r c x, getCell b2 r c = Some x →
        isRevealed x = false ∧ isFlagged x = false
        ∧ neighborMines x = if isMine x then 0 else bruteCount b2 r c.
Proof.
  intros Hmines Hrange Hpicks.
  set (l := remove_dups (filter (λ p, p ≠ (fr, fc)) rand)) in *.
  assert (∀ r c, isMineAt (blankBoard config) r c = false) as Hblank.
  { intros r c. unfold isMineAt.
    destruct (getCell (blankBoard config) r c) as [x|] eqn:Hx; [|done].
    by rewrite (getCell_blankBoard _ _ _ _ Hx). }
  destruct (placeMines_ok config fr fc rand (blankBoard config) 0 l)
    as (b1 & Hb1 & Hrel1 & Hcnt1 & Hfirst1).
  - apply shape_blankBoard.
  - done.
  - apply NoDup_remove_dups.
  - intros p Hp. unfold l in Hp.
    rewrite elem_of_remove_dups, list_elem_of_filter in Hp. by destruct Hp.
  - intros p Hp. unfold l in Hp.
    rewrite elem_of_remove_dups, list_elem_of_filter in Hp. destruct Hp. by split.
  - lia.
  - lia.
  - pose proof (boardRel_shape _ _ _ _ Hrel1 (shape_blankBoard config)) as Hshape1.
    destruct (fillNeighborMines_ok config b1 Hshape1) as (b2 & Hb2 & Hrel2 & Hnm).
    exists b1, b2. split; [done|]. split; [done|].
    pose proof (boardRel_shape _ _ _ _ Hrel2 Hshape1) as Hshape2.
    split; [done|]. split.
    { rewrite (countExt_countMines _ _ Hrel2), Hcnt1, countMines_blankBoard. lia. }
    split.
    { by rewrite (countExt_isMineAt _ _ _ _ Hrel2), Hfirst1. }
    intros r c y Hy.
    destruct (boardRel_getCell_r _ _ _ _ _ _ Hrel2 Hy) as (x & Hx & (Hm & Hrv & Hfl)).
    destruct (boardRel_getCell_r _ _ _ _ _ _ Hrel1 Hx)
      as (x0 & Hx0 & (Hrv0 & Hfl0 & Hn0 & _)).
    rewrite (getCell_blankBoard _ _ _ _ Hx0) in Hrv0, Hfl0, Hn0.
    simpl in Hrv0, Hfl0, Hn0.
    split; [congruence|]. split; [congruence|].
    rewrite (Hnm _ _ _ _ Hx Hy), Hm.
    rewrite bool_decide_eq_true_2.
    2:{ apply elem_of_cellsOf, (shape_getCell config b2 r c Hshape2). eauto. }
    destruct (isMine x); simpl; [done|].
    symmetry. apply bruteCount_ext. intros. by apply countExt_isMineAt.
Qed.

Lemma countFlags_none b :
  (∀ r c x, getCell b r c = Some x → isFlagged x = false) → countFlags b = 0%nat.
Proof.
  intros H. apply Forall_cells in H. unfold countFlags.
  induction H as [|row b Hrow _ IH]; simpl; [done|]. rewrite IH.
  assert (sum_list_with (λ x, if isFlagged x then 1 else 0)%nat row = 0%nat) as ->; [|done].
  induction Hrow as [|x row Hx _ IHr]; simpl; [done|]. by rewrite Hx, IHr.
Qed.

Lemma countMines_ext b b' : ext b b' → countMines b' = countMines b.
Proof.
  intros Hext. unfold countMines.
  apply (sum_list_with_Forall2_eq (Forall2 cellExt)); [|done].
  intros row row' Hrow.
  apply (sum_list_with_Forall2_eq cellExt); [|done].
  by intros x y (-> & _).
Qed.

Lemma countFlags_ext b b' : ext b b' → countFlags b' = countFlags b.
Proof.
  intros Hext. unfold countFlags.
  apply (sum_list_with_Forall2_eq (Forall2 cellExt)); [|done].
  intros row row' Hrow.
  apply (sum_list_with_Forall2_eq cellExt); [|done].
  by intros x y (_ & -> & _).
Qed.

Lemma bruteCount_bounds b r c : 0 ≤ bruteCount b r c ≤ 8.
Proof.
  unfold bruteCount.
  pose proof (length_filter (λ p, isMineAt b (r + p.1) (c + p.2) = true) neighbours8)
    as Hle.
  change (length neighbours8) with 8%nat in Hle. lia.
Qed.

(** The run of the first click: the board [b2] the mines are laid on and
    what [revealCell] makes of it. *)
Lemma first_click_run env rand r c remote s :
  status env = idle →
  board env = blankBoard (CONFIGS (difficulty env)) →
  inRange (CONFIGS (difficulty env)) (r, c) →
  Forall (inRange (CONFIGS (difficulty env))) rand →
  mines (CONFIGS (difficulty env))
    ≤ Z.of_nat (length (remove_dups (filter (λ p, p ≠ (r, c)) rand))) →
  ∃ s' b2,
    handleCellClick env rand r c remote s = (s', Ok tt)
    ∧ shape (CONFIGS (difficulty env)) b2
    ∧ Z.of_nat (countMines b2) = mines (CONFIGS (difficulty env))
    ∧ (∀ r c x, getCell b2 r c = Some x →
         isRevealed x = false ∧ isFlagged x = false
         ∧ neighborMines x = if isMine x then 0 else bruteCount b2 r c)
    ∧ ext b2 (board s')
    ∧ isRev (board s') r c = true
    ∧ noMineShown (board s')
    ∧ (status s' = playing
       ∨ status s' = won
         ∧ safeCells (CONFIGS (difficulty env)) ≤ Z.of_nat (countRevealed (board s')))
    ∧ (Z.of_nat (countRevealed (board s')) = safeCells (CONFIGS (difficulty env)) →
       status s' = won).
Proof.
  intros Hst Hboard Hin Hrange Hpicks.
  destruct (CONFIGS_nonneg (difficulty env)) as (Hr & Hc & Hm).
  destruct (startGame_board _ r c rand Hm Hrange Hpicks)
    as (b1 & b2 & Hb1 & Hb2 & Hshape & Hmines & Hfirst & Hcells).
  unfold handleCellClick.
  rewrite decide_False by (rewrite Hst; intros [?|?]; discriminate).
  rewrite (decide_True (P := status env = idle)) by done.
  rewrite bind_M, notice_run.
  unfold startGame. cbv zeta. rewrite Hboard, Hb1, bind_liftRes_Ok, Hb2, bind_liftRes_Ok.
  rewrite bind_M. cbn [setStatus].
  set (s2 := mkApp _ _ _ _ _ _ _ _ _ _).
  assert (Hrect : rect b2) by (by eapply shape_rect).
  assert (Hcons : consistent b2).
  { apply counted_consistent. intros r' c' x Hx Hsafe.
    destruct (Hcells _ _ _ Hx) as (_ & _ & ->). by rewrite Hsafe. }
  assert (Hopen : isOpen b2 r c = true).
  { destruct (proj2 (shape_getCell _ b2 r c Hshape) Hin) as [x Hx].
    unfold isOpen. rewrite Hx. destruct (Hcells _ _ _ Hx) as (-> & -> & _). done. }
  assert (Hno : noMineShown b2).
  { intros r' c' Hrev. unfold isRev in Hrev.
    destruct (getCell b2 r' c') as [x|] eqn:Hx; [|done].
    destruct (Hcells _ _ _ Hx) as (Hx' & _). congruence. }
  destruct (revealCell_safe env r c b2 playing s2 Hrect Hcons Hopen Hfirst)
    as (s3 & b' & Hrun & Hb & Hext & Hself & Hnew & Hstat & Hwon).
  rewrite bind_M, Hrun.
  exists s3, b2. split; [reflexivity|]. rewrite Hb.
  pose proof (noMineShown_ext _ _ Hext Hno Hnew) as Hno'.
  repeat (split; [done|]). done.
Qed.

(** X20.  The first click of a game, on a cell of the blank grid, with a
    random source that gives positions of the grid and enough different
    ones, returns with the mines of the difficulty laid, none of them
    under the click and none shown, no flag, the clicked cell shown, and
    the status won if every safe cell is shown and playing otherwise:
    a first click never loses.  The closure need not be that of the latest
    render: the current state plays no part. *)
Theorem first_click_is_safe env rand r c remote s :
  status env = idle →
  board env = blankBoard (CONFIGS (difficulty env)) →
  inRange (CONFIGS (difficulty env)) (r, c) →
  Forall (inRange (CONFIGS (difficulty env))) rand →
  mines (CONFIGS (difficulty env))
    ≤ Z.of_nat (length (remove_dups (filter (λ p, p ≠ (r, c)) rand))) →
  ∃ s', handleCellClick env rand r c remote s = (s', Ok tt)
    ∧ shape (CONFIGS (difficulty env)) (board s')
    ∧ Z.of_nat (countMines (board s')) = mines (CONFIGS (difficulty env))
    ∧ countFlags (board s') = 0%nat
    ∧ isRev (board s') r c = true
    ∧ noMineShown (board s')
    ∧ (status s' = won ↔ allSafeShown (board s'))
    ∧ (status s' = playing ↔ ¬ allSafeShown (board s')).
Proof.
  intros Hst Hboard Hin Hrange Hpicks.
  destruct (CONFIGS_nonneg (difficulty env)) as (Hr & Hc & Hm).
  destruct (first_click_run env rand r c remote s Hst Hboard Hin Hrange Hpicks)
    as (s' & b2 & Hrun & Hshape & Hmines & Hcells & Hext & Hself & Hno' & Hstat & Hwon).
  exists s'. split; [done|].
  assert (Hmines' : Z.of_nat (countMines (board s')) = mines (CONFIGS (difficulty env)))
    by (by rewrite (countMines_ext _ _ Hext)).
  assert (Hshape' : shape (CONFIGS (difficulty env)) (board s'))
    by (by eapply boardRel_shape).
  destruct (safeCells_reached _ (board s') Hshape' Hr Hc Hmines' Hno') as [Hle Hiff].
  assert (Hiff' : status s' = won ↔ allSafeShown (board s')).
  { rewrite <- Hiff. split; [|done].
    intros Hw. destruct Hstat as [Hsame|[_ Hge]]; [|lia].
    rewrite Hsame in Hw. discriminate. }
  split; [done|]. split; [done|]. split.
  { rewrite (countFlags_ext _ _ Hext). apply countFlags_none.
    intros r' c' x Hx. by apply (Hcells _ _ _ Hx). }
  split; [done|]. split; [done|]. split; [done|].
  rewrite <- Hiff'. split; [by intros ->|].
  intros Hnw. destruct Hstat as [->|[? _]]; done.
Qed.

(** X21.  After the first click every cell that is not a mine holds the
    number of mines among its neighbours, a number from 0 to 8, so that
    [getNumberColor] finds every count a cell can hold in its table. *)
Theorem first_click_counts_are_right env rand r c remote s :
  status env = idle →
  board env = blankBoard (CONFIGS (difficulty env)) →
  inRange (CONFIGS (difficulty env)) (r, c) →
  Forall (inRange (CONFIGS (difficulty env))) rand →
  mines (CONFIGS (difficulty env))
    ≤ Z.of_nat (length (remove_dups (filter (λ p, p ≠ (r, c)) rand))) →
  ∃ s', handleCellClick env rand r c remote s = (s', Ok tt)
    ∧ ∀ r' c' x, getCell (board s') r' c' = Some x →
        (isMine x = false → neighborMines x = bruteCount (board s') r' c')
        ∧ 0 ≤ neighborMines x ≤ 8
        ∧ is_Some (jsIndex colors (neighborMines x)).
Proof.
  intros Hst Hboard Hin Hrange Hpicks.
  destruct (first_click_run env rand r c remote s Hst Hboard Hin Hrange Hpicks)
    as (s' & b2 & Hrun & Hshape & Hmines & Hcells & Hext & _).
  exists s'. split; [done|]. intros r' c' y Hy.
  destruct (ext_getCell_r _ _ _ _ _ Hext Hy) as (x & Hx & (Hm & _ & Hn & _)).
  destruct (Hcells _ _ _ Hx) as (_ & _ & Hcount).
  assert (Hb : bruteCount (board s') r' c' = bruteCount b2 r' c').
  { apply bruteCount_ext. intros. by apply ext_isMineAt. }
  assert (Hrange' : 0 ≤ neighborMines y ≤ 8).
  { rewrite Hn, Hcount. destruct (isMine x); [lia|apply bruteCount_bounds]. }
  split; [|split; [done|]].
  - intros Hsafe. rewrite Hm in Hsafe. by rewrite Hn, Hb, Hcount, Hsafe.
  - apply jsIndex_is_Some. unfold len. simpl. lia.
Qed.

Lemma first_click_counts_are_right_witness :
  ∃ s', handleCellClick (newSession beginner) cornerPicks 0 0 false (newSession beginner)
        = (s', Ok tt)
    ∧ ∀ r' c' x, getCell (board s') r' c' = Some x →
        (isMine x = false → neighborMines x = bruteCount (board s') r' c')
        ∧ 0 ≤ neighborMines x ≤ 8
        ∧ is_Some (jsIndex colors (neighborMines x)).
Proof.
  apply (first_click_counts_are_right (newSession beginner) cornerPicks 0 0 false
           (newSession beginner)).
  - reflexivity.
  - reflexivity.
  - unfold inRange. simpl. lia.
  - unfold cornerPicks. repeat constructor; simpl; lia.
  - vm_compute. discriminate.
Defined.

Lemma first_click_is_safe_witness :
  ∃ s', handleCellClick (newSession beginner) cornerPicks 0 0 false (newSession expert)
        = (s', Ok tt)
    ∧ shape (CONFIGS (difficulty (newSession beginner))) (board s')
    ∧ Z.of_nat (countMines (board s')) = mines (CONFIGS (difficulty (newSession beginner)))
    ∧ countFlags (board s') = 0%nat
    ∧ isRev (board s') 0 0 = true
    ∧ noMineShown (board s')
    ∧ (status s' = won ↔ allSafeShown (board s'))
    ∧ (status s' = playing ↔ ¬ allSafeShown (board s')).
Proof.
  apply (first_click_is_safe (newSession beginner) cornerPicks 0 0 false
           (newSession expert)).
  - reflexivity.
  - reflexivity.
  - unfold inRange. simpl. lia.
  - unfold cornerPicks. repeat constructor; simpl; lia.
  - vm_compute. discriminate.
Defined.

Lemma cornerBoard_generated :
  placeMines (CONFIGS beginner) 0 0 cornerPicks (blankBoard (CONFIGS beginner)) 0
    ≫= fillNeighborMines (CONFIGS beginner) = Ok cornerBoard.
Proof. vm_compute. reflexivity. Qed.

Lemma cornerBoard_ok :
  shape (CONFIGS beginner) cornerBoard
  ∧ Z.of_nat (countMines cornerBoard) = mines (CONFIGS beginner)
  ∧ consistent cornerBoard
  ∧ noMineShown cornerBoard.
Proof.
  assert (Hm : 0 ≤ mines (CONFIGS beginner)) by (simpl; lia).
  assert (Hrange : Forall (inRange (CONFIGS beginner)) cornerPicks)
    by (unfold cornerPicks; repeat constructor; simpl; lia).
  assert (Hpicks : mines (CONFIGS beginner)
            ≤ Z.of_nat (length (remove_dups (filter (λ p, p ≠ (0, 0)) cornerPicks))))
    by (vm_compute; discriminate).
  destruct (startGame_board (CONFIGS beginner) 0 0 cornerPicks Hm Hrange Hpicks)
    as (b1 & b2 & Hb1 & Hb2 & Hshape & Hmines & Hfirst & Hcells).
  pose proof cornerBoard_generated as Hgen. rewrite Hb1 in Hgen.
  rewrite bind_Res in Hgen. rewrite Hb2 in Hgen.
  apply (f_equal (λ x, match x with Ok b => b | _ => [] end)) in Hgen.
  cbv beta iota in Hgen. subst b2.
  split; [done|]. split; [done|]. split.
  - apply counted_consistent. intros r c x Hx Hsafe.
    destruct (Hcells _ _ _ Hx) as (_ & _ & ->). by rewrite Hsafe.
  - intros r c Hrev. unfold isRev in Hrev.
    destruct (getCell cornerBoard r c) as [x|] eqn:Hx; [|discriminate Hrev].
    destruct (Hcells _ _ _ Hx) as (Hx' & _). rewrite Hx' in Hrev. discriminate Hrev.
Qed.

Lemma click_wins_when_all_safe_shown_witness :
  ∃ s', handleCellClick cornerGame [] 0 0 false cornerGame = (s', Ok tt)
    ∧ noMineShown (board s')
    ∧ (status s' = won ↔ allSafeShown (board s'))
    ∧ (status s' = playing ↔ ¬ allSafeShown (board s')).
Proof.
  destruct cornerBoard_ok as (Hshape & Hmines & Hcons & Hno).
  apply click_wins_when_all_safe_shown.
  - reflexivity.
  - exact Hshape.
  - exact Hmines.
  - exact Hcons.
  - exact Hno.
  - vm_compute. reflexivity.
  - vm_compute. reflexivity.
Defined.

(** X22.  A first click at a position outside the grid, as a peer with a
    larger grid can relay, lays the mines on a copy of the board and then
    finds nothing to reveal: the handler returns with the status playing
    and the board of the state untouched, so without the mines; no
    snapshot is sent. *)
Theorem first_click_outside_grid env rand r c remote s :
  status env = idle →
  board env = blankBoard (CONFIGS (difficulty env)) →
  ¬ inRange (CONFIGS (difficulty env)) (r, c) →
  Forall (inRange (CONFIGS (difficulty env))) rand →
  mines (CONFIGS (difficulty env))
    ≤ Z.of_nat (length (remove_dups (filter (λ p, p ≠ (r, c)) rand))) →
  handleCellClick env rand r c remote s
  = (mkApp (difficulty s) (board s) playing (minesLeft s) (seconds s) (roomId s)
       (socket s) (isRemoteUpdate s) (timers s)
       (sent s ++ if remote || negb (socket s) then [] else [CellClick (roomId env) r c]),
     Ok tt).
Proof.
  intros Hst Hboard Hout Hrange Hpicks.
  destruct (CONFIGS_nonneg (difficulty env)) as (Hr & Hc & Hm).
  destruct (startGame_board _ r c rand Hm Hrange Hpicks)
    as (b1 & b2 & Hb1 & Hb2 & Hshape & _).
  unfold handleCellClick.
  rewrite decide_False by (rewrite Hst; intros [?|?]; discriminate).
  rewrite (decide_True (P := status env = idle)) by done.
  rewrite bind_M, notice_run.
  unfold startGame. cbv zeta. rewrite Hboard, Hb1, bind_liftRes_Ok, Hb2, bind_liftRes_Ok.
  rewrite bind_M. cbn [setStatus].
  rewrite bind_M, revealCell_guard; [done|by eapply shape_rect|].
  unfold isOpen. destruct (getCell b2 r c) as [x|] eqn:Hx; [|done].
  destruct Hout. apply (shape_getCell _ b2 r c Hshape). eauto.
Qed.

Lemma first_click_outside_grid_witness :
  handleCellClick (newSession beginner) cornerPicks 12 20 true (newSession expert)
  = (mkApp (difficulty (newSession expert)) (board (newSession expert)) playing
       (minesLeft (newSession expert)) (seconds (newSession expert))
       (roomId (newSession expert)) (socket (newSession expert))
       (isRemoteUpdate (newSession expert)) (timers (newSession expert))
       (sent (newSession expert) ++
          if true || negb (socket (newSession expert)) then []
          else [CellClick (roomId (newSession beginner)) 12 20]),
     Ok tt).
Proof.
  apply (first_click_outside_grid (newSession beginner) cornerPicks 12 20 true
           (newSession expert)).
  - reflexivity.
  - reflexivity.
  - unfold inRange. simpl. lia.
  - unfold cornerPicks. repeat constructor; simpl; lia.
  - vm_compute. discriminate.
Defined.

(** ** Clicking twice *)

Lemma statusEnds_refl s : statusEnds s s.
Proof. by left. Qed.

Lemma statusEnds_trans s1 s2 s3 : statusEnds s1 s2 → statusEnds s2 s3 → statusEnds s1 s3.
Proof. unfold statusEnds. intros [->|H1] [->|H3]; tauto. Qed.
#[global] Hint Resolve statusEnds_refl statusEnds_trans : pres.

Lemma statusEnds_setBoard b : preserves statusEnds (setBoard b).
Proof. intros s. by left. Qed.
Lemma statusEnds_won : preserves statusEnds (setStatus won).
Proof. intros s. right. by left. Qed.
Lemma statusEnds_lost : preserves statusEnds (setStatus lost).
Proof. intros s. right. by right. Qed.
Lemma statusEnds_emitState env b x n t d : preserves statusEnds (emitState env b x n t d).
Proof. intros s. left. apply status_emitState. Qed.
#[global] Hint Resolve statusEnds_setBoard statusEnds_won statusEnds_lost
  statusEnds_emitState : pres.

Lemma statusEnds_checkWin env b : preserves statusEnds (checkWin env b).
Proof. unfold checkWin. pres. Qed.
#[global] Hint Resolve statusEnds_checkWin : pres.

Lemma statusEnds_revealCell_fuel fuel env r c b x :
  preserves statusEnds (revealCell_fuel fuel env r c b x).
Proof.
  revert r c b. induction fuel as [|fuel IH]; intros r c b; simpl; pres.
Qed.

Lemma isRev_not_isOpen b r c : isRev b r c = true → isOpen b r c = false.
Proof.
  unfold isRev, isOpen. destruct (getCell b r c) as [x|]; [|done]. by intros ->.
Qed.

(** On a grid a call of [revealCell] returns, and leaves the cell it was
    called on closed: shown, flagged or outside. *)
Lemma revealCell_closes env r c b st s :
  rect b →
  ∃ s' b', revealCell env r c b st s = (s', Ok b')
    ∧ ext b b' ∧ isOpen b' r c = false
    ∧ (isOpen b r c = true → board s' = b' ∨ status s' = lost).
Proof.
  intros Hrect. unfold revealCell.
  destruct (revealCell_fuel_cases (unrevealedCount b) env r c b st s)
    as [[-> Hclosed] | [[-> Hn] | (x & Hx & Hrev & Hflag & ->)]].
  - exists s, b. split; [done|]. split; [apply ext_refl|].
    split; [by apply Hclosed|]. intros Ho. rewrite Hclosed in Ho; done.
  - done.
  - set (b1 := updCell setIsRevealed b r c).
    assert (Hext1 : ext b b1) by apply ext_updCell_reveal.
    assert (Hrev1 : isRev b1 r c = true).
    { unfold b1. rewrite (isRev_reveal _ _ _ x) by done. by rewrite decide_True. }
    assert (Hcnt1 : (unrevealedCount b1 + 1 = unrevealedCount b)%nat)
      by (by eapply unrevealedCount_reveal).
    unfold revealBody. destruct (isMine x).
    + destruct (mine_tail env (revealMines b1) s) as (s' & -> & _ & Hlost).
      exists s', (revealMines b1).
      assert (ext b1 (revealMines b1)) by apply ext_revealMines.
      split; [done|]. split; [by eapply ext_trans|]. split; [|by right].
      apply isRev_not_isOpen. by eapply ext_isRev.
    + rewrite bind_M.
      match goal with
      | |- context [match ?t with (_, _) => _ end] =>
          assert (Hloop : sat t (λ _ b2, ext b1 b2) False);
            [|destruct t as [s2 [b2| |]]; simpl in Hloop; [|done..]]
      end.
      { destruct (decide (neighborMines x = 0)); [|apply sat_ret, ext_refl].
        eapply sat_mono.
        - apply (sat_forEachM (λ (_ : list (Z * Z)) bi (_ : App), ext b1 bi) False
                   _ nbrs) with (pre := []); [|apply ext_refl].
          intros pre p bi si _ Hexti. eapply sat_mono.
          + apply revealCell_fuel_ext.
            pose proof (ext_unrevealedCount _ _ Hexti). lia.
          + intros s' b' Hext'. by eapply ext_trans.
          + intros Hn. apply Hn. eapply ext_rect; [|done]. by eapply ext_trans.
        - intros s2 b2 H. exact H.
        - done. }
      destruct (flood_tail env b2 s2) as (s3 & -> & Hb3 & _).
      exists s3, b2. split; [done|]. split; [by eapply ext_trans|].
      split; [|by left].
      apply isRev_not_isOpen. by eapply ext_isRev.
Qed.

Lemma statusEnds_revealCell env r c b st :
  preserves statusEnds (revealCell env r c b st).
Proof. apply statusEnds_revealCell_fuel. Qed.

(** X23.  In a game that is playing, on a grid, a click on any position
    returns, and a second click on the same position, by the handler of
    the render that follows, returns too and changes neither the board nor
    the status, the counter, the clock or the difficulty, and sends no
    snapshot. *)
Theorem second_click_changes_nothing rand rand' r c remote remote' s :
  status s = playing → rect (board s) →
  ∃ s' s'',
    handleCellClick s rand r c remote s = (s', Ok tt)
    ∧ handleCellClick s' rand' r c remote' s' = (s'', Ok tt)
    ∧ snapshotOf s'' = snapshotOf s'
    ∧ updates (sent s'') = updates (sent s').
Proof.
  intros Hst Hrect.
  assert (Hfirst : ∃ s', handleCellClick s rand r c remote s = (s', Ok tt)
            ∧ rect (board s') ∧ isOpen (board s') r c = false
            ∧ status s' ≠ idle).
  { unfold handleCellClick.
    rewrite decide_False by (rewrite Hst; intros [?|?]; discriminate).
    rewrite (decide_False (P := status s = idle)) by (by rewrite Hst).
    cbv zeta. rewrite bind_M, notice_run.
    set (s1 := mkApp _ _ _ _ _ _ _ _ _ _).
    pose proof (statusEnds_revealCell s r c (board s) (status s) s1) as Hends.
    destruct (revealCell_closes s r c (board s) (status s) s1 Hrect)
      as (s2 & b' & Hrun & Hext & Hclosed & _).
    rewrite bind_M, Hrun. rewrite Hrun in Hends.
    eexists. split; [reflexivity|]. cbn [setBoard fst board status].
    split; [by eapply ext_rect|]. split; [done|].
    destruct Hends as [He|[He|He]]; cbn [fst] in He; rewrite He; [|done..].
    cbn [s1 status]. by rewrite Hst. }
  destruct Hfirst as (s' & Hrun & Hrect' & Hclosed & Hidle).
  exists s'. rewrite Hrun.
  destruct (decide (status s' = playing)) as [Hp|Hp].
  - rewrite handleCellClick_closed by done.
    eexists. split; [done|]. split; [reflexivity|]. split; [done|].
    cbn [sent]. rewrite updates_app.
    destruct (remote' || negb (socket s')); simpl; by rewrite app_nil_r.
  - exists s'. split; [done|].
    unfold handleCellClick. rewrite decide_True; [done|].
    destruct (status s'); tauto.
Qed.

Lemma second_click_changes_nothing_witness :
  ∃ s' s'',
    handleCellClick cornerGame [] 0 0 false cornerGame = (s', Ok tt)
    ∧ handleCellClick s' [] 0 0 true s' = (s'', Ok tt)
    ∧ snapshotOf s'' = snapshotOf s'
    ∧ updates (sent s'') = updates (sent s').
Proof.
  apply second_click_changes_nothing.
  - reflexivity.
  - apply (shape_rect (CONFIGS beginner)), cornerBoard_ok.
Defined.
